(** * Sparkplug Explorer: ingestion core

    A shallow embedding of the ingestion pipeline of the Sparkplug
    explorer (topic parser, host client, metric normaliser, micro-batch
    scheduler, batch committer, status classifier and stored-value
    codec), of the listing endpoints, of the connection handlers of the
    client and of the logger, followed by the properties proved about
    them.

    Conventions.
    - A JavaScript string is a [string]; its characters are the code units
      below 256.
    - [undefined] and [null] of an optional field are [None].
    - A function that can raise returns a [Result]; a function that writes
      to the logger returns a [Logged] value. The lines the scheduler
      writes to the logger are left out.
    - Timestamps are integers (milliseconds since the epoch). *)

From Stdlib Require Import ZArith List String Ascii Bool Lia Arith.
From Stdlib Require Import DecimalString DecimalZ.
From Stdlib Require Import Sorted Permutation.
Import ListNotations.

Local Open Scope string_scope.
Local Open Scope list_scope.

(* ===================================================================== *)
(** ** JavaScript strings *)
(* ===================================================================== *)

Module Js.

(** [s.split("/")]: never empty; the empty string splits to one empty
    part. *)
Fixpoint split (s : string) : list string :=
  match s with
  | EmptyString => [EmptyString]
  | String c r =>
      if Ascii.eqb c "/" then EmptyString :: split r
      else match split r with
           | h :: t => String c h :: t
           | [] => [String c EmptyString]
           end
  end.

(** [parts.join("/")]. *)
Definition join (parts : list string) : string := String.concat "/" parts.

(** [parts.slice(n)]. *)
Definition slice {A} (n : nat) (parts : list A) : list A := skipn n parts.

(** [s.startsWith(p)]. *)
Definition startsWith (s p : string) : bool := String.prefix p s.

(** Truthiness of a possibly absent string: [undefined], [null] and the
    empty string are falsy. *)
Definition truthy (s : option string) : bool :=
  match s with
  | Some (String _ _) => true
  | _ => false
  end.

(** White space and line terminators removed by [trim], among the code
    units below 256: TAB, LF, VT, FF, CR, SP and NBSP. *)
Definition isSpace (c : ascii) : bool :=
  let n := nat_of_ascii c in
  (((9 <=? n) && (n <=? 13)) || (n =? 32) || (n =? 160))%nat.

Fixpoint trimStart (s : string) : string :=
  match s with
  | String c r => if isSpace c then trimStart r else s
  | EmptyString => EmptyString
  end.

(** Drops the trailing white space: a character is kept when something
    other than white space follows it or it is not white space. *)
Fixpoint trimEnd (s : string) : string :=
  match s with
  | EmptyString => EmptyString
  | String c r =>
      match trimEnd r with
      | EmptyString => if isSpace c then EmptyString else String c EmptyString
      | r' => String c r'
      end
  end.

(** [s.trim()]. *)
Definition trim (s : string) : string := trimEnd (trimStart s).

Definition upperChar (c : ascii) : ascii :=
  let n := nat_of_ascii c in
  if ((97 <=? n) && (n <=? 122))%nat then ascii_of_nat (n - 32) else c.

(** [s.toUpperCase()] on the ASCII letters. *)
Fixpoint toUpperCase (s : string) : string :=
  match s with
  | EmptyString => EmptyString
  | String c r => String (upperChar c) (toUpperCase r)
  end.

Definition isDigit (c : ascii) : bool :=
  let n := nat_of_ascii c in ((48 <=? n) && (n <=? 57))%nat.

Fixpoint allDigits (s : string) : bool :=
  match s with
  | EmptyString => true
  | String c r => isDigit c && allDigits r
  end.

(** The rest of the string after its longest prefix of digits, and whether
    that prefix was non-empty: the greedy [\d+]. *)
Fixpoint digits1 (s : string) (seen : bool) : option string :=
  match s with
  | String c r => if isDigit c then digits1 r true
                  else if seen then Some s else None
  | EmptyString => if seen then Some EmptyString else None
  end.

(** [/^[+-]?\d+(?:\.\d+)?$/.test(s)]. *)
Definition isDecimalNumeral (s : string) : bool :=
  let unsigned :=
    match s with
    | String c r => if Ascii.eqb c "+" || Ascii.eqb c "-" then r else s
    | EmptyString => s
    end in
  match digits1 unsigned false with
  | None => false
  | Some EmptyString => true
  | Some (String c frac) =>
      Ascii.eqb c "." &&
      match frac with
      | EmptyString => false
      | _ => allDigits frac
      end
  end.

End Js.

(** The Number values of the runtime, taken up to [===] ([+0] and [-0]
    are one value). The code carries, prints and parses numbers and never
    computes with them, so the embedding is generic in them. *)
Class JsNumber := {
  number : Type;
  (** [String(n)] *)
  Number_toString : number -> string;
  (** [Number(s)] *)
  String_toNumber : string -> number;
  (** [Number.isNaN(n)] *)
  Number_isNaN : number -> bool;
  (** truthiness: false for [0] and [NaN] *)
  Number_truthy : number -> bool;
  (** the Number nearest to an integer ([Long.prototype.toNumber]) *)
  Number_ofZ : Z -> number;
  (** the time value of [new Date(n)], if the date is valid *)
  Date_time : number -> option Z;
}.

(** The laws of ECMAScript the stored-value codec relies on:
    [Number(String(n))] is [n], and a decimal numeral never parses to
    [NaN]. *)
Class JsNumberLaws (N : JsNumber) : Prop := {
  toNumber_toString : forall n : number, String_toNumber (Number_toString n) = n;
  numeral_not_NaN : forall s, Js.isDecimalNumeral s = true ->
                              Number_isNaN (String_toNumber s) = false;
}.

(** Integers with their decimal rendering: a model of the safe integers. *)
#[export] Instance ZNumber : JsNumber := {|
  number := Z;
  Number_toString := fun z => NilEmpty.string_of_int (Z.to_int z);
  String_toNumber := fun s =>
    match NilEmpty.int_of_string s with
    | Some d => Z.of_int d
    | None => 0%Z
    end;
  Number_isNaN := fun _ => false;
  Number_truthy := fun z => negb (Z.eqb z 0);
  Number_ofZ := fun z => z;
  Date_time := fun z => Some z;
|}.

(** Exceptions. *)
Inductive Result (A : Type) : Type :=
| Ok (a : A)
| Throw (message : string).
Arguments Ok {A} a.
Arguments Throw {A} message.

Inductive LogLevel := TRACE | DEBUG | INFO | WARN | ERROR.

Record LogEntry := { level : LogLevel; message : string }.

(** A computation that writes to the logger. *)
Definition Logged (A : Type) : Type := (A * list LogEntry)%type.

(* ===================================================================== *)
(** ** Topic parser (clients/sparkplug) *)
(* ===================================================================== *)

Module Topic.

Record MessageContext := {
  namespace : option string;
  groupId : option string;
  messageType : option string;
  edgeNodeId : option string;
  deviceId : option string;
  otherParts : list string;
}.

Definition parseTopic (topic : string) : MessageContext :=
  let parts := Js.split topic in
  {| namespace := nth_error parts 0;
     groupId := nth_error parts 1;
     messageType := nth_error parts 2;
     edgeNodeId := nth_error parts 3;
     deviceId := if (5 <=? List.length parts)%nat then nth_error parts 4 else None;
     otherParts := if (5 <? List.length parts)%nat then Js.slice 5 parts else [] |}.

Definition parseCertificateTopic (topic : string) : MessageContext :=
  parseTopic (Js.join (Js.slice 2 (Js.split topic))).

End Topic.

(* ===================================================================== *)
(** ** Decoded payloads (sparkplug-payload) *)
(* ===================================================================== *)

Module Payload.
Section WithNumbers.
Context {N : JsNumber}.

(** A [Long]: two signed 32-bit halves and the signedness flag. *)
Record Long := { low : Z; high : Z; unsigned : bool }.

Definition two32 : Z := 4294967296.

(** [x >>> 0] *)
Definition toUint32 (x : Z) : Z := x mod two32.

(** [Long.prototype.toNumber] *)
Definition Long_toNumber (l : Long) : number :=
  Number_ofZ
    (if unsigned l then toUint32 (high l) * two32 + toUint32 (low l)
     else high l * two32 + toUint32 (low l))%Z.

(** [Long.prototype.toInt] *)
Definition Long_toInt (l : Long) : Z :=
  if unsigned l then toUint32 (low l) else low l.

(** The decimal rendering of an integer. *)
Definition Int_toString (z : Z) : string := NilEmpty.string_of_int (Z.to_int z).

(** [Long | number] *)
Inductive LongOrNumber :=
| IsLong (l : Long)
| IsNumber (n : number).

(** The value of a metric, as the decoder leaves it, and the metric. The
    decoder gives every template a reference (a string, empty when the
    message has none) and the array of its metrics. [VObject] is any other
    object (a data set, a byte array). *)
Inductive UValue :=
| VUndefined
| VNull
| VNumber (n : number)
| VLong (l : Long)
| VBoolean (b : bool)
| VString (s : string)
| VTemplate (isDefinition : option bool) (templateRef : string)
            (metrics : list UMetric)
| VObject
with UMetric :=
| Metric (name : option string) (alias : option LongOrNumber)
         (type : string) (value : UValue) (timestamp : option LongOrNumber).

Definition name (m : UMetric) : option string :=
  let 'Metric n _ _ _ _ := m in n.
Definition alias (m : UMetric) : option LongOrNumber :=
  let 'Metric _ a _ _ _ := m in a.
Definition type (m : UMetric) : string :=
  let 'Metric _ _ t _ _ := m in t.
Definition value (m : UMetric) : UValue :=
  let 'Metric _ _ _ v _ := m in v.
Definition timestamp (m : UMetric) : option LongOrNumber :=
  let 'Metric _ _ _ _ t := m in t.

Definition bytes : Type := list Byte.byte.

Record UPayload := {
  p_timestamp : option LongOrNumber;
  p_seq : option Z;
  p_uuid : option string;
  p_body : option bytes;
  p_metrics : option (list UMetric);
}.

(** [val === null || val === undefined] *)
Definition isNullish (v : UValue) : bool :=
  match v with
  | VUndefined | VNull => true
  | _ => false
  end.

End WithNumbers.
End Payload.

(* ===================================================================== *)
(** ** Metric normaliser (common/metrics) *)
(* ===================================================================== *)

Module Metrics.
Import Payload.
Section WithNumbers.
Context {N : JsNumber}.

Definition numericTypes : list string :=
  ["Int8"; "Int16"; "Int32"; "Int64"; "UInt8"; "UInt16"; "UInt32"; "UInt64";
   "Float"; "Double"].

Definition isNumericType (t : string) : bool :=
  existsb (String.eqb t) numericTypes.

Definition statusPrefix : string := "baja:Status".

(** [makeNumber]: a number is returned, a [Long] converted; anything else
    raises (the [in] operator on a primitive, or the explicit error). *)
Definition makeNumber (v : UValue) : Result number :=
  match v with
  | VNumber n => Ok n
  | VLong l => Ok (Long_toNumber l)
  | _ => Throw "Unsupported value"
  end.

(** [m.name === "value"] *)
Definition isValueMetric (m : UMetric) : bool :=
  match name m with
  | Some n => String.eqb n "value"
  | None => false
  end.

(** [logger.warn]; the text is kept without its leading pictograph. *)
Definition warn (msg : string) : list LogEntry :=
  [{| level := WARN; message := msg |}].

(** [getMetricValue]. The result is the value, [VNull] where the code
    returns [null]. *)
Fixpoint getMetricValue (metric : UMetric) : Logged (Result UValue) :=
  match metric with
  | Metric _ _ ty v _ =>
      if isNumericType ty then
        match makeNumber v with
        | Ok n => (Ok (VNumber n), [])
        | Throw e => (Throw e, [])
        end
      else if String.eqb ty "Boolean" || String.eqb ty "String" then
        (Ok v, [])
      else if String.eqb ty "Template" then
        match v with
        | VTemplate isDefinition templateRef metrics =>
            match isDefinition with
            | Some true => (Ok VNull, [])
            | _ =>
                if Js.startsWith templateRef statusPrefix then
                  (fix find (ms : list UMetric) : Logged (Result UValue) :=
                     match ms with
                     | [] => (Ok VNull,
                              warn "Template does not have value metric")
                     | m :: rest =>
                         if isValueMetric m then getMetricValue m
                         else find rest
                     end) metrics
                else (Ok VNull, warn "Unsupported template")
            end
        | _ => (Throw "TypeError", [])
        end
      else (Ok VNull, [])
  end.

(** [ts]: the time value of [new Date(...)]; a missing timestamp raises, an
    invalid date is [None]. *)
Definition ts (timestamp : option LongOrNumber) : Result (option Z) :=
  match timestamp with
  | Some (IsNumber n) => Ok (Date_time n)
  | Some (IsLong l) => Ok (Date_time (Long_toNumber l))
  | None => Throw "TypeError"
  end.

(** [resolveMetricName]: the alias, in decimal, when it is truthy. *)
Definition resolveMetricName (metric : UMetric) : option string :=
  match alias metric with
  | Some (IsLong l) => Some (Int_toString (Long_toInt l))
  | Some (IsNumber n) =>
      if Number_truthy n then Some (Number_toString n) else name metric
  | None => name metric
  end.

End WithNumbers.
End Metrics.

(* ===================================================================== *)
(** ** Host application client (clients/sparkplug) *)
(* ===================================================================== *)

Module Client.
Import Payload.

(** The protobuf codec and the compressor are libraries: [decode] and the
    two decompressors fail with [None]. *)
Class Wire {N : JsNumber} := {
  encode : UPayload -> bytes;
  decode : bytes -> option UPayload;
  deflate : bytes -> bytes;
  gzip : bytes -> bytes;
  inflate : bytes -> option bytes;
  ungzip : bytes -> option bytes;
}.

(** The mutable fields of the client. *)
Record State := {
  seq : Z;
  connecting : bool;
  connected : bool;
}.

Definition initial : State :=
  {| seq := 0; connecting := false; connected := false |}.

(** [incrementSeqNum]: the value returned and the state left. *)
Definition incrementSeqNum (c : State) : Z * State :=
  let s := if (seq c =? 256)%Z then 0%Z else seq c in
  (s, {| seq := s + 1; connecting := connecting c; connected := connected c |}).

(** The values returned by [n] allocations in a row. *)
Fixpoint allocations (n : nat) (c : State) : list Z :=
  match n with
  | O => []
  | S n' => let '(v, c') := incrementSeqNum c in v :: allocations n' c'
  end.

(** The state after [n] allocations. *)
Fixpoint afterAllocations (n : nat) (c : State) : State :=
  match n with
  | O => c
  | S n' => afterAllocations n' (snd (incrementSeqNum c))
  end.

Section WithWire.
Context {N : JsNumber} {W : Wire}.

Definition compressed : string := "SPBV1.0_COMPRESSED".

Record PayloadOptions := {
  algorithm : option string;
  compress : option bool;
}.

Definition debug (msg : string) : list LogEntry :=
  [{| level := DEBUG; message := msg |}].

(** [decodePayload]: any failure of the codec is raised again as one
    error. *)
Definition decodePayload (payload : bytes) : Result UPayload :=
  match decode payload with
  | Some p => Ok p
  | None => Throw "Failed to decode Sparkplug payload"
  end.

Definition algorithmMetric (a : string) : UMetric :=
  Metric (Some "algorithm") None "String" (VString (Js.toUpperCase a)) None.

(** [compressPayload]. The first debug line is kept without the rendering
    of the options. *)
Definition compressPayload (payload : bytes) (options : option PayloadOptions)
  : Logged (Result UPayload) :=
  let algo :=
    match options with
    | Some o => if Js.truthy (algorithm o) then algorithm o else None
    | None => None
    end in
  let envelope (body : bytes) :=
    {| p_timestamp := None; p_seq := None; p_uuid := Some compressed;
       p_body := Some body;
       p_metrics := Some match algo with
                         | Some a => [algorithmMetric a]
                         | None => []
                         end |} in
  match algo with
  | None =>
      (Ok (envelope (deflate payload)),
       debug "Compressing payload" ++ debug "Compressing with DEFLATE!")
  | Some a =>
      if String.eqb (Js.toUpperCase a) "DEFLATE" then
        (Ok (envelope (deflate payload)),
         debug "Compressing payload" ++ debug "Compressing with DEFLATE!")
      else if String.eqb (Js.toUpperCase a) "GZIP" then
        (Ok (envelope (gzip payload)),
         debug "Compressing payload" ++ debug "Compressing with GZIP")
      else (Throw ("Unknown or unsupported algorithm " ++ a),
            debug "Compressing payload")
  end.

(** [m.name === "algorithm"] *)
Definition isAlgorithmMetric (m : UMetric) : bool :=
  match name m with
  | Some n => String.eqb n "algorithm"
  | None => false
  end.

Definition orThrow (what : string) (r : option bytes) : Result bytes :=
  match r with
  | Some b => Ok b
  | None => Throw what
  end.

(** [decompressPayload] *)
Definition decompressPayload (payload : UPayload) : Logged (Result bytes) :=
  let metrics := match p_metrics payload with Some ms => ms | None => [] end in
  let body := match p_body payload with Some b => b | None => [] end in
  let algo :=
    match find isAlgorithmMetric metrics with
    | Some (Metric _ _ _ (VString a) _) => Some a
    | _ => None
    end in
  match algo with
  | None =>
      (orThrow "inflate" (inflate body),
       debug "Decompressing payload" ++ debug "Decompressing with DEFLATE!")
  | Some a =>
      if String.eqb (Js.toUpperCase a) "DEFLATE" then
        (orThrow "inflate" (inflate body),
         debug "Decompressing payload" ++ debug "Decompressing with DEFLATE!")
      else if String.eqb (Js.toUpperCase a) "GZIP" then
        (orThrow "ungzip" (ungzip body),
         debug "Decompressing payload" ++ debug "Decompressing with GZIP")
      else (Throw ("Unknown or unsupported algorithm " ++ a),
            debug "Decompressing payload")
  end.

(** [maybeDecompressPayload] *)
Definition maybeDecompressPayload (payload : UPayload)
  : Logged (Result UPayload) :=
  match p_uuid payload with
  | Some u =>
      if String.eqb u compressed then
        match decompressPayload payload with
        | (Ok b, l) => (decodePayload b, l)
        | (Throw e, l) => (Throw e, l)
        end
      else (Ok payload, [])
  | None => (Ok payload, [])
  end.

(** What the handler of a transport message does: it returns without
    emitting, emits [message], or lets an exception escape. *)
Inductive Handled :=
| Dropped
| Emitted (topic : string) (payload : UPayload) (context : Topic.MessageContext)
| Escaped (error : string).

(** The ["message"] handler installed by [init]. Only the first decode is
    inside the [try]. *)
Definition onTransportMessage (topic : string) (message : bytes)
  : Logged Handled :=
  match decodePayload message with
  | Throw _ =>
      (Dropped,
       debug ("Received message with unsupported payload version: " ++ topic))
  | Ok decoded =>
      match maybeDecompressPayload decoded with
      | (Throw e, l) => (Escaped e, l)
      | (Ok payload, l) => (Emitted topic payload (Topic.parseTopic topic), l)
      end
  end.

End WithWire.
End Client.

(* ===================================================================== *)
(** ** Repositories over the store (db/repositories) *)
(* ===================================================================== *)

Module Repo.
Import Payload.

(** [JSON.stringify] of a value that is an object. *)
Class Json {N : JsNumber} := { JSON_stringify : UValue -> string }.

Section WithNumbers.
Context {N : JsNumber} {J : Json}.

Definition Boolean_toString (b : bool) : string :=
  if b then "true" else "false".

(** [toStoredValue] *)
Definition toStoredValue (v : UValue) : option string :=
  match v with
  | VNull | VUndefined => None
  | VString s => Some s
  | VNumber n => Some (Number_toString n)
  | VBoolean b => Some (Boolean_toString b)
  | _ => Some (JSON_stringify v)
  end.

(** [parseStoredValue], on the content of the [value] column. *)
Definition parseStoredValue (v : option string) : UValue :=
  match v with
  | None => VNull
  | Some v =>
      let s := Js.trim v in
      if String.eqb s "true" then VBoolean true
      else if String.eqb s "false" then VBoolean false
      else if Js.isDecimalNumeral s then
        let num := String_toNumber s in
        if negb (Number_isNaN num) then VNumber num else VString s
      else VString s
  end.

End WithNumbers.

(** *** The store

    The three tables, and a connection that holds them with the snapshot
    taken when its transaction began. *)

Record DeviceRow := {
  device_name : string;
  topic : string;
  birth_timestamp : option Z;
}.

Record MetricRow := {
  id : string;
  m_device_name : string;
  metric_name : string;
}.

Record ValueRow := {
  metric_id : string;
  v_ts : Z;
  v_value : option string;
  from_birth : bool;
}.

Record Tables := {
  devices : list DeviceRow;
  device_metrics : list MetricRow;
  device_metric_values : list ValueRow;
}.

Record Conn := {
  tables : Tables;
  snapshot : option Tables;
}.

Definition emptyTables : Tables :=
  {| devices := []; device_metrics := []; device_metric_values := [] |}.

(** [BEGIN TRANSACTION], [COMMIT] and [ROLLBACK]. *)
Definition beginTransaction (c : Conn) : Conn :=
  {| tables := tables c; snapshot := Some (tables c) |}.

Definition commitTransaction (c : Conn) : Conn :=
  {| tables := tables c; snapshot := None |}.

Definition rollback (c : Conn) : Conn :=
  {| tables := match snapshot c with Some t => t | None => tables c end;
     snapshot := None |}.

Definition onTables (f : Tables -> Tables) (c : Conn) : Conn :=
  {| tables := f (tables c); snapshot := snapshot c |}.

Definition metricId (deviceName metricName : string) : string :=
  deviceName ++ "/" ++ metricName.

(** [insert into devices ... on conflict(device_name) do update set
    topic=excluded.topic, birth_timestamp=coalesce(excluded.birth_timestamp,
    devices.birth_timestamp)] *)
Fixpoint upsertDeviceRow (d : DeviceRow) (rows : list DeviceRow)
  : list DeviceRow :=
  match rows with
  | [] => [d]
  | r :: rest =>
      if String.eqb (device_name r) (device_name d) then
        {| device_name := device_name r;
           topic := topic d;
           birth_timestamp := match birth_timestamp d with
                              | Some t => Some t
                              | None => birth_timestamp r
                              end |} :: rest
      else r :: upsertDeviceRow d rest
  end.

Definition sqlUpsertDevice (d : DeviceRow) (t : Tables) : Tables :=
  {| devices := upsertDeviceRow d (devices t);
     device_metrics := device_metrics t;
     device_metric_values := device_metric_values t |}.

Definition hasMetric (i : string) (rows : list MetricRow) : bool :=
  existsb (fun r => String.eqb (id r) i) rows.

(** [insert into device_metrics ... on conflict(id) do nothing], row by
    row. *)
Fixpoint insertMetricRows (new rows : list MetricRow) : list MetricRow :=
  match new with
  | [] => rows
  | r :: rest =>
      insertMetricRows rest (if hasMetric (id r) rows then rows else rows ++ [r])
  end.

Definition sqlInsertMetrics (new : list MetricRow) (t : Tables) : Tables :=
  {| devices := devices t;
     device_metrics := insertMetricRows new (device_metrics t);
     device_metric_values := device_metric_values t |}.

Definition sqlInsertValues (new : list ValueRow) (t : Tables) : Tables :=
  {| devices := devices t;
     device_metrics := device_metrics t;
     device_metric_values := device_metric_values t ++ new |}.

(** The rows [DeviceMetricRepository.insertMany] puts in its statement:
    the records in order, without those whose id was seen before. *)
Fixpoint dedupe (seen : list string) (records : list (string * string))
  : list MetricRow :=
  match records with
  | [] => []
  | (deviceName, metricName) :: rest =>
      let i := metricId deviceName metricName in
      if existsb (String.eqb i) seen then dedupe seen rest
      else {| id := i; m_device_name := deviceName; metric_name := metricName |}
             :: dedupe (i :: seen) rest
  end.

End Repo.

(* ===================================================================== *)
(** ** Ingestion: staging, batch commit, scheduler (index) *)
(* ===================================================================== *)

Module Ingest.
Import Payload.

Inductive EventType := DBIRTH | DDATA.

Section WithNumbers.
Context {N : JsNumber} {J : Repo.Json}.

Record InboundEvent := {
  e_type : EventType;
  e_topic : string;
  e_payload : UPayload;
  receivedAt : Z;
}.

(** *** Staging of one batch *)

Record StagedDevice := {
  deviceName : string;
  d_topic : string;
  (** the time value of the [Date], [None] for an invalid date *)
  birthTimestamp : option Z;
}.

Record StagedValue := {
  metricId : string;
  ts : option Z;
  value : UValue;
  fromBirth : bool;
}.

Record Staged := {
  newDevices : list StagedDevice;
  newMetrics : list (string * string);
  metricValues : list StagedValue;
}.

Definition noneStaged : Staged :=
  {| newDevices := []; newMetrics := []; metricValues := [] |}.

(** The inner loop over the metrics of one event. [names] gives the name
    of a metric and [birth] tells a definition event, whose metrics are
    also registered. A metric without a usable name or with a [null] or
    [undefined] value is skipped before anything is pushed. *)
Fixpoint stageMetrics (birth : bool) (names : UMetric -> option string)
  (deviceId : string) (ms : list UMetric) (acc : Staged) : Result Staged :=
  match ms with
  | [] => Ok acc
  | m :: rest =>
      match names m with
      | Some (String c n) =>
          let name := String c n in
          match fst (Metrics.getMetricValue m) with
          | Throw e => Throw e
          | Ok val =>
              if isNullish val then stageMetrics birth names deviceId rest acc
              else
                match Metrics.ts (timestamp m) with
                | Throw e => Throw e
                | Ok tstamp =>
                    stageMetrics birth names deviceId rest
                      {| newDevices := newDevices acc;
                         newMetrics :=
                           if birth then newMetrics acc ++ [(deviceId, name)]
                           else newMetrics acc;
                         metricValues :=
                           metricValues acc ++
                             [{| metricId := Repo.metricId deviceId name;
                                 ts := tstamp;
                                 value := val;
                                 fromBirth := birth |}] |}
                end
          end
      | _ => stageMetrics birth names deviceId rest acc
      end
  end.

Definition metricsOf (p : UPayload) : list UMetric :=
  match p_metrics p with
  | Some ms => ms
  | None => []
  end.

(** The body of [for (const evt of batch)]. *)
Definition stageEvent (evt : InboundEvent) (acc : Staged) : Result Staged :=
  match e_type evt with
  | DBIRTH =>
      match Topic.deviceId (Topic.parseCertificateTopic (e_topic evt)) with
      | Some (String c d) =>
          let deviceId := String c d in
          match Metrics.ts (p_timestamp (e_payload evt)) with
          | Throw e => Throw e
          | Ok birth =>
              stageMetrics true Metrics.resolveMetricName deviceId
                (metricsOf (e_payload evt))
                {| newDevices :=
                     newDevices acc ++
                       [{| deviceName := deviceId;
                           d_topic := e_topic evt;
                           birthTimestamp := birth |}];
                   newMetrics := newMetrics acc;
                   metricValues := metricValues acc |}
          end
      | _ => Ok acc
      end
  | DDATA =>
      match Topic.deviceId (Topic.parseTopic (e_topic evt)) with
      | Some (String c d) =>
          stageMetrics false name (String c d) (metricsOf (e_payload evt)) acc
      | _ => Ok acc
      end
  end.

Fixpoint stageBatch (batch : list InboundEvent) (acc : Staged)
  : Result Staged :=
  match batch with
  | [] => Ok acc
  | evt :: rest =>
      match stageEvent evt acc with
      | Throw e => Throw e
      | Ok acc' => stageBatch rest acc'
      end
  end.

(** *** The transaction of one batch *)

(** The statement of the transaction that the store refuses, if any. *)
Inductive Fault :=
| NoFault
| FailBegin
| FailUpsert (k : nat)
| FailInsertMetrics
| FailInsertValues
| FailCommit.

Definition isFailUpsert (f : Fault) (k : nat) : bool :=
  match f with
  | FailUpsert j => Nat.eqb j k
  | _ => false
  end.

(** Code that talks to the connection: it leaves the connection as it is
    at the end, or at the statement that raised. *)
Definition Db (A : Type) : Type := Repo.Conn -> Result A * Repo.Conn.

Definition ret {A} (a : A) : Db A := fun c => (Ok a, c).

Definition raise {A} (e : string) : Db A := fun c => (Throw e, c).

Definition bind {A B} (m : Db A) (k : A -> Db B) : Db B :=
  fun c =>
    match m c with
    | (Ok a, c') => k a c'
    | (Throw e, c') => (Throw e, c')
    end.

Notation "x <- m ;; k" := (bind m (fun x => k))
  (at level 61, m at next level, right associativity).

(** [conn.run(sql)]: a refused statement raises and writes nothing. *)
Definition run (refused : bool) (sql : string)
  (effect : Repo.Tables -> Repo.Tables) : Db unit :=
  fun c =>
    if refused then (Throw (sql ++ " failed"), c)
    else (Ok tt, Repo.onTables effect c).

(** [date.toISOString()] *)
Definition toISOString (date : option Z) : Db Z :=
  match date with
  | Some t => ret t
  | None => raise "RangeError: Invalid time value"
  end.

(** [deviceRepo.upsert], for the [k]-th device of the batch. *)
Definition upsert (f : Fault) (k : nat) (d : StagedDevice) : Db unit :=
  t <- toISOString (birthTimestamp d) ;;
  run (isFailUpsert f k) "insert into devices"
    (Repo.sqlUpsertDevice
       {| Repo.device_name := deviceName d;
          Repo.topic := d_topic d;
          Repo.birth_timestamp := Some t |}).

Fixpoint upsertAll (f : Fault) (k : nat) (ds : list StagedDevice) : Db unit :=
  match ds with
  | [] => ret tt
  | d :: rest => _ <- upsert f k d ;; upsertAll f (S k) rest
  end.

(** [metricRepo.insertMany] *)
Definition insertManyMetrics (f : Fault) (records : list (string * string))
  : Db unit :=
  match records with
  | [] => ret tt
  | _ =>
      run match f with FailInsertMetrics => true | _ => false end
        "insert into device_metrics"
        (Repo.sqlInsertMetrics (Repo.dedupe [] records))
  end.

Fixpoint valueRows (values : list StagedValue) : Db (list Repo.ValueRow) :=
  match values with
  | [] => ret []
  | v :: rest =>
      t <- toISOString (ts v) ;;
      rows <- valueRows rest ;;
      ret ({| Repo.metric_id := metricId v;
              Repo.v_ts := t;
              Repo.v_value := Repo.toStoredValue (value v);
              Repo.from_birth := fromBirth v |} :: rows)
  end.

(** [metricValueRepo.insertMany] *)
Definition insertManyValues (f : Fault) (values : list StagedValue)
  : Db unit :=
  match values with
  | [] => ret tt
  | _ =>
      rows <- valueRows values ;;
      run match f with FailInsertValues => true | _ => false end
        "insert into device_metric_values"
        (Repo.sqlInsertValues rows)
  end.

(** [COMMIT] *)
Definition commit (f : Fault) : Db unit :=
  fun c =>
    match f with
    | FailCommit => (Throw "COMMIT failed", c)
    | _ => (Ok tt, Repo.commitTransaction c)
    end.

(** The [try] block: the three steps, then [COMMIT]. *)
Definition transactionBody (f : Fault) (st : Staged) : Db unit :=
  _ <- upsertAll f 0 (newDevices st) ;;
  _ <- insertManyMetrics f (newMetrics st) ;;
  _ <- insertManyValues f (metricValues st) ;;
  commit f.

Inductive Outcome :=
| Committed
| RolledBack
| Aborted.

(** From [BEGIN TRANSACTION] to the end of the [catch]. A failure of
    [BEGIN] is outside the [try] and leaves [drainQueues]; a failure
    inside it is answered by [ROLLBACK] on the connection as the failed
    statement left it. *)
Definition commitBatch (f : Fault) (st : Staged) (c : Repo.Conn)
  : Outcome * Repo.Conn :=
  match f with
  | FailBegin => (Aborted, c)
  | _ =>
      match transactionBody f st (Repo.beginTransaction c) with
      | (Ok _, c') => (Committed, c')
      | (Throw _, c') => (RolledBack, Repo.rollback c')
      end
  end.

(** *** The scheduler *)

(** An event in a queue. [arrival] is history: the number of events that
    were enqueued before this one; no code reads it. *)
Record Queued := { arrival : nat; event : InboundEvent }.

Definition Batch : Type := list Queued.

(** The module-level variables, the batch whose transaction is running
    while [drainQueues] is suspended, the connection, and the history:
    the events enqueued so far and the batches whose processing ended,
    oldest first. *)
Record State := {
  birthQueue : list Queued;
  dataQueue : list Queued;
  drainScheduled : bool;
  timer : bool;
  draining : bool;
  inflight : option (Batch * Staged);
  conn : Repo.Conn;
  arrived : list InboundEvent;
  finished : list (Batch * Outcome);
}.

Definition MAX_BATCH_MESSAGES : nat := 500.

Definition initial (c : Repo.Conn) : State :=
  {| birthQueue := []; dataQueue := []; drainScheduled := false;
     timer := false; draining := false; inflight := None; conn := c;
     arrived := []; finished := [] |}.

(** [while (batch.length < n && queue.length) batch.push(queue.shift())]:
    the batch and what stays in the queue. *)
Fixpoint takeBatch (n : nat) (queue : list Queued) : Batch * list Queued :=
  match n, queue with
  | S n', e :: rest =>
      let '(batch, remaining) := takeBatch n' rest in (e :: batch, remaining)
  | _, _ => ([], queue)
  end.

Definition isEmpty {A} (l : list A) : bool :=
  match l with [] => true | _ => false end.

(** The end of [drainQueues]: [draining = false]. *)
Definition leaveDrain (s : State) : State :=
  {| birthQueue := birthQueue s; dataQueue := dataQueue s;
     drainScheduled := drainScheduled s; timer := timer s;
     draining := false; inflight := None; conn := conn s;
     arrived := arrived s; finished := finished s |}.

(** One turn of the [while] loop of [drainQueues], up to the [await] of
    [BEGIN TRANSACTION]: the loop ends when both queues are empty; else a
    batch is taken from the definition queue if it is not empty, from the
    update queue otherwise, and staged. An exception while staging leaves
    [drainQueues] and the batch is lost. *)
Definition drainTurn (s : State) : State :=
  if isEmpty (birthQueue s) && isEmpty (dataQueue s) then leaveDrain s
  else
    let processingBirth := negb (isEmpty (birthQueue s)) in
    let activeQueue := if processingBirth then birthQueue s else dataQueue s in
    let '(batch, remaining) := takeBatch MAX_BATCH_MESSAGES activeQueue in
    let taken :=
      {| birthQueue := if processingBirth then remaining else birthQueue s;
         dataQueue := if processingBirth then dataQueue s else remaining;
         drainScheduled := drainScheduled s; timer := timer s;
         draining := true; inflight := None; conn := conn s;
         arrived := arrived s; finished := finished s |} in
    match batch with
    | [] => leaveDrain taken
    | _ =>
        match stageBatch (map event batch) noneStaged with
        | Throw _ =>
            leaveDrain
              {| birthQueue := birthQueue taken; dataQueue := dataQueue taken;
                 drainScheduled := drainScheduled s; timer := timer s;
                 draining := true; inflight := None; conn := conn s;
                 arrived := arrived s;
                 finished := finished s ++ [(batch, Aborted)] |}
        | Ok st =>
            {| birthQueue := birthQueue taken; dataQueue := dataQueue taken;
               drainScheduled := drainScheduled s; timer := timer s;
               draining := true; inflight := Some (batch, st); conn := conn s;
               arrived := arrived s; finished := finished s |}
        end
    end.

(** [drainQueues], up to its first [await]. *)
Definition drainQueues (s : State) : State :=
  if draining s then s else drainTurn s.

(** [scheduleDrain] *)
Definition scheduleDrain (s : State) : State :=
  if drainScheduled s then s
  else
    {| birthQueue := birthQueue s; dataQueue := dataQueue s;
       drainScheduled := true; timer := true;
       draining := draining s; inflight := inflight s; conn := conn s;
       arrived := arrived s; finished := finished s |}.

(** [enqueueEvent] *)
Definition enqueueEvent (e : InboundEvent) (s : State) : State :=
  let q := {| arrival := List.length (arrived s); event := e |} in
  let birthQueue' :=
    match e_type e with DBIRTH => birthQueue s ++ [q] | DDATA => birthQueue s end in
  let dataQueue' :=
    match e_type e with DBIRTH => dataQueue s | DDATA => dataQueue s ++ [q] end in
  let full :=
    (MAX_BATCH_MESSAGES <=? List.length birthQueue' + List.length dataQueue')%nat in
  let pushed :=
    {| birthQueue := birthQueue'; dataQueue := dataQueue';
       drainScheduled := if full then false else drainScheduled s;
       timer := if full then false else timer s;
       draining := draining s; inflight := inflight s; conn := conn s;
       arrived := arrived s ++ [e]; finished := finished s |} in
  if full then drainQueues pushed else scheduleDrain pushed.

(** The callback of the timer. *)
Definition timerFires (s : State) : State :=
  drainQueues
    {| birthQueue := birthQueue s; dataQueue := dataQueue s;
       drainScheduled := false; timer := false;
       draining := draining s; inflight := inflight s; conn := conn s;
       arrived := arrived s; finished := finished s |}.

(** The batch leaves the transaction with its outcome and the connection
    as the transaction left it. *)
Definition recordOutcome (batch : Batch) (outcome : Outcome) (c : Repo.Conn)
  (s : State) : State :=
  {| birthQueue := birthQueue s; dataQueue := dataQueue s;
     drainScheduled := drainScheduled s; timer := timer s;
     draining := true; inflight := None; conn := c;
     arrived := arrived s;
     finished := finished s ++ [(batch, outcome)] |}.

(** [drainQueues] resumed: the transaction of the batch runs to its end
    and the loop takes its next turn, unless [BEGIN] failed. *)
Definition transactionEnds (f : Fault) (batch : Batch) (st : Staged)
  (s : State) : State :=
  let '(outcome, c) := commitBatch f st (conn s) in
  match outcome with
  | Aborted => leaveDrain (recordOutcome batch outcome c s)
  | _ => drainTurn (recordOutcome batch outcome c s)
  end.

(** What can happen next: an event is enqueued, the timer fires, or the
    running transaction ends, with or without a refused statement. *)
Inductive Action :=
| Enqueue (e : InboundEvent)
| TimerFires
| TransactionEnds (f : Fault).

Definition step (a : Action) (s : State) : option State :=
  match a with
  | Enqueue e => Some (enqueueEvent e s)
  | TimerFires => if timer s then Some (timerFires s) else None
  | TransactionEnds f =>
      match inflight s with
      | Some (batch, st) => Some (transactionEnds f batch st s)
      | None => None
      end
  end.

Fixpoint runActions (actions : list Action) (s : State) : option State :=
  match actions with
  | [] => Some s
  | a :: rest =>
      match step a s with
      | Some s' => runActions rest s'
      | None => None
      end
  end.

(** The states of the executions from an empty scheduler. *)
Definition reachable (s : State) : Prop :=
  exists c actions, Repo.snapshot c = None /\ runActions actions (initial c) = Some s.

(** *** The handler of the client's messages (main) *)

Record Config := { systemTopic : string }.

Definition isType (t : string) (c : Topic.MessageContext) : bool :=
  match Topic.messageType c with
  | Some m => String.eqb m t
  | None => false
  end.

Definition onMessage (config : Config) (topic : string) (payload : UPayload)
  (now : Z) (s : State) : State :=
  if Js.startsWith topic (systemTopic config) then
    let t := Topic.parseCertificateTopic topic in
    if (List.length (Topic.otherParts t) =? 0)%nat && isType "DBIRTH" t then
      enqueueEvent {| e_type := DBIRTH; e_topic := topic;
                      e_payload := payload; receivedAt := now |} s
    else s
  else if Js.startsWith topic "spBv1.0/" then
    let t := Topic.parseTopic topic in
    if isType "DDATA" t then
      enqueueEvent {| e_type := DDATA; e_topic := topic;
                      e_payload := payload; receivedAt := now |} s
    else s
  else s.

End WithNumbers.
End Ingest.

(* ===================================================================== *)
(** ** Status queries (index, registerApi) *)
(* ===================================================================== *)

Module Status.
Import Repo.

Inductive Color := grey | green | yellow | red.

(** [interval '1 day'], in milliseconds. *)
Definition day : Z := 86400000.
Definition hour : Z := 3600000.

(** [a left join b on ...]: every row of [a], with each row of [b] that
    matches it, or with [NULL] when none does. *)
Definition leftJoin {A B} (on : A -> B -> bool) (a : list A) (b : list B)
  : list (A * option B) :=
  flat_map (fun x =>
              match filter (on x) b with
              | [] => [(x, None)]
              | ys => map (fun y => (x, Some y)) ys
              end) a.

(** [max(v.ts)]: [NULL] when every row has [NULL]. *)
Fixpoint maxTs (rows : list (option Z)) : option Z :=
  match rows with
  | [] => None
  | None :: rest => maxTs rest
  | Some t :: rest =>
      match maxTs rest with
      | None => Some t
      | Some u => Some (Z.max t u)
      end
  end.

(** The column [ts] is a [timestamp] without a zone, and [insertMany]
    writes the UTC wall clock of the value into it ([toISOString] without
    its [Z]): a stored [ts] is the count of milliseconds of that wall
    clock. [current_timestamp] has a zone: it is an instant. To compare
    the two the store reads the wall clock in the time zone of the
    session, and it takes the days of an interval off an instant in that
    zone. Both belong to the store and its session. *)
Record TimeZone := {
  (* the instant at which a clock of the zone shows a wall clock *)
  instantOf : Z -> Z;
  (* [instant - interval 'n day'] *)
  daysBefore : Z -> Z -> Z;
}.

(** A zone whose clocks are [offset] milliseconds ahead of UTC. *)
Definition fixedOffset (offset : Z) : TimeZone :=
  {| instantOf := fun wall => (wall - offset)%Z;
     daysBefore := fun n instant => (instant - n * day)%Z |}.

Definition utc : TimeZone := fixedOffset 0.

(** The [case] expression of both queries, in a session of time zone
    [zone] at [current_timestamp = now]. *)
Definition caseStatus (zone : TimeZone) (now : Z) (last_ts : option Z)
  : Color :=
  match last_ts with
  | None => grey
  | Some t =>
      if (daysBefore zone 1 now <=? instantOf zone t)%Z then green
      else if (daysBefore zone 7 now <=? instantOf zone t)%Z then yellow
      else red
  end.

(** The two joins, the grouping by the input name and the select list,
    for an input list of names and the join condition of the metrics. *)
Definition statusQuery (onMetric : string -> MetricRow -> bool)
  (zone : TimeZone) (t : Tables) (now : Z) (input : list string)
  : list (string * Color) :=
  let joined :=
    leftJoin (fun (im : string * option MetricRow) v =>
                match snd im with
                | Some m => String.eqb (metric_id v) (id m)
                | None => false
                end)
      (leftJoin onMetric input (device_metrics t))
      (device_metric_values t) in
  map (fun i =>
         (i, caseStatus zone now
               (maxTs (map (fun r => option_map v_ts (snd r))
                         (filter (fun r => String.eqb (fst (fst r)) i) joined)))))
    (nodup string_dec (map (fun r => fst (fst r)) joined)).

(** [/api/devices/status], from the list of names of the request. *)
Definition devicesStatus (zone : TimeZone) (t : Tables) (now : Z)
  (names : list string) : list (string * Color) :=
  match names with
  | [] => []
  | _ =>
      statusQuery (fun i m => String.eqb (m_device_name m) i) zone t now names
  end.

(** [/api/devices/:device/metrics/status] *)
Definition metricsStatus (zone : TimeZone) (t : Tables) (now : Z)
  (device : string) (names : list string) : list (string * Color) :=
  match names with
  | [] => []
  | _ =>
      statusQuery (fun i m => String.eqb (m_device_name m) device &&
                              String.eqb (metric_name m) i) zone t now names
  end.

End Status.

(* ===================================================================== *)
(** ** Listing endpoints (index, registerApi) *)
(* ===================================================================== *)

Module Api.
Import Repo.

Definition API_MAX_LIMIT : Z := 10000.

(** The longest prefix of decimal digits. *)
Fixpoint digitPrefix (s : string) : string :=
  match s with
  | String c r => if Js.isDigit c then String c (digitPrefix r) else EmptyString
  | EmptyString => EmptyString
  end.

(** [parseInt(raw, 10)] of a query parameter, [undefined] when the
    parameter is absent; [None] is [NaN]. The digits are read as the
    integer they denote: rounding it to a Number changes nothing below
    [2^53] and keeps the order above. *)
Definition parseInt (raw : option string) : option Z :=
  match raw with
  | None => None
  | Some s =>
      let t := Js.trimStart s in
      let '(negative, body) :=
        match t with
        | String c r =>
            if Ascii.eqb c "-" then (true, r)
            else if Ascii.eqb c "+" then (false, r)
            else (false, t)
        | EmptyString => (false, t)
        end in
      match digitPrefix body with
      | EmptyString => None
      | ds =>
          match NilEmpty.uint_of_string ds with
          | Some d => Some (if negative then (- Z.of_uint d)%Z else Z.of_uint d)
          | None => None
          end
      end
  end.

(** [coerceLimit] *)
Definition coerceLimit (raw : option string) : Z :=
  match parseInt raw with
  | None => API_MAX_LIMIT
  | Some n =>
      if (n =? 0)%Z || (n <=? 0)%Z then API_MAX_LIMIT
      else Z.min n API_MAX_LIMIT
  end.

(** [$cursor is null or name > $cursor] *)
Definition afterCursor (cursor : option string) (name : string) : bool :=
  match cursor with
  | None => true
  | Some c => String.ltb c name
  end.

(** [order by key]: the rows sorted by their key, in the order of the code
    units; rows with the same key keep their order. *)
Fixpoint insertBy {A} (key : A -> string) (x : A) (sorted : list A) : list A :=
  match sorted with
  | [] => [x]
  | y :: rest =>
      if String.ltb (key y) (key x) then y :: insertBy key x rest
      else x :: sorted
  end.

Fixpoint orderBy {A} (key : A -> string) (rows : list A) : list A :=
  match rows with
  | [] => []
  | x :: rest => insertBy key x (orderBy key rest)
  end.

(** [select ... where <condition> and ($cursor is null or key > $cursor)
    order by key limit $limit] *)
Definition selectPage {A} (key : A -> string) (condition : A -> bool)
  (rows : list A) (cursor : option string) (lim : Z) : list A :=
  firstn (Z.to_nat lim)
    (orderBy key
       (filter (fun r => condition r && afterCursor cursor (key r)) rows)).

Record Page (A : Type) := {
  items : list A;
  count : nat;
  nextCursor : option string;
  limit : Z;
}.
Arguments items {A} _.
Arguments count {A} _.
Arguments nextCursor {A} _.
Arguments limit {A} _.

(** The answer of a listing: the cursor is the key of the last row when
    the page is full ([lim] is at least 1, so that row exists). The
    rendering of the timestamps is left out. *)
Definition respond {A} (key : A -> string) (rows : list A) (lim : Z) : Page A :=
  {| items := rows;
     count := List.length rows;
     nextCursor :=
       if (Z.of_nat (List.length rows) =? lim)%Z
       then option_map key (nth_error rows (List.length rows - 1))
       else None;
     limit := lim |}.

(** [cursor || null] *)
Definition cursorParam (cursor : option string) : option string :=
  if Js.truthy cursor then cursor else None.

(** [GET /api/devices] *)
Definition listDevices (t : Tables) (cursor limit : option string)
  : Page DeviceRow :=
  let lim := coerceLimit limit in
  respond device_name
    (selectPage device_name (fun _ => true) (devices t) (cursorParam cursor) lim)
    lim.

(** [GET /api/devices/:device/metrics] *)
Definition listMetrics (t : Tables) (device : string)
  (cursor limit : option string) : Page MetricRow :=
  let lim := coerceLimit limit in
  respond metric_name
    (selectPage metric_name (fun m => String.eqb (m_device_name m) device)
       (device_metrics t) (cursorParam cursor) lim)
    lim.

End Api.

(* ===================================================================== *)
(** ** The connection of the client (clients/sparkplug, init) *)
(* ===================================================================== *)

Module Connection.
Import Client.

(** What the MQTT client reports to the handlers of [init]. *)
Inductive TransportEvent :=
| TConnect
| TError (error : string)
| TClose
| TDisconnect
| TReconnect
| TOffline
| TEnd.

(** What a handler does: the events it emits to the listeners of the
    client, and its calls of the MQTT client. *)
Inductive Output :=
| EmitConnect
| EmitError (error : string)
| EmitClose
| EmitDisconnect
| EmitReconnect
| EmitOffline
| EmitEnd
| SubscribeAll
| EndClient.

(** The client when its constructor returns: [init] has set
    [connecting]. *)
Definition constructed : State :=
  {| seq := seq initial; connecting := true; connected := connected initial |}.

(** The handlers of [connect], [error], [close], [disconnect],
    [reconnect], [offline] and [end]. The callbacks the [connect] handler
    gives to the subscription (the second subscription and the birth
    message) run when the MQTT client calls them and are left out. *)
Definition handle (ev : TransportEvent) (c : State) : State * list Output :=
  match ev with
  | TConnect =>
      ({| seq := seq c; connecting := false; connected := true |},
       [SubscribeAll; EmitConnect])
  | TError e =>
      if connecting c then (c, [EmitError e; EndClient]) else (c, [])
  | TClose =>
      if connected c
      then ({| seq := seq c; connecting := connecting c; connected := false |},
            [EmitClose])
      else (c, [])
  | TDisconnect => (c, [EmitDisconnect])
  | TReconnect => (c, [EmitReconnect])
  | TOffline => (c, [EmitOffline])
  | TEnd => (c, [EmitEnd])
  end.

Fixpoint handleAll (evs : list TransportEvent) (c : State)
  : State * list Output :=
  match evs with
  | [] => (c, [])
  | ev :: rest =>
      let '(c1, out1) := handle ev c in
      let '(c2, out2) := handleAll rest c1 in
      (c2, out1 ++ out2)
  end.

End Connection.

(* ===================================================================== *)
(** ** The logger (common/logger) *)
(* ===================================================================== *)

Module Logger.

(** A logging method of a logger: the filtered call of the private
    method, or [emptyMethod]. *)
Inductive Method := Filtered | EmptyMethod.

(** A logger: its level, the truthiness of [_ctx.omitFromConsole], and its
    five methods. The other keys of the context are only printed. *)
Record MappedLogger := {
  _loglevel : LogLevel;
  omitFromConsole : bool;
  trace : Method;
  debug : Method;
  info : Method;
  warn : Method;
  error : Method;
}.

(** [new MappedLogger(level, ctx)]: the [switch] is on the argument, the
    field defaults to [INFO]. *)
Definition construct (level : option LogLevel) (omit : bool) : MappedLogger :=
  let quiet (l : LogLevel) : Method :=
    match level, l with
    | Some DEBUG, TRACE => EmptyMethod
    | Some INFO, (TRACE | DEBUG) => EmptyMethod
    | Some WARN, (TRACE | DEBUG | INFO) => EmptyMethod
    | Some ERROR, (TRACE | DEBUG | INFO | WARN) => EmptyMethod
    | _, _ => Filtered
    end in
  {| _loglevel := match level with Some l => l | None => INFO end;
     omitFromConsole := omit;
     trace := quiet TRACE; debug := quiet DEBUG; info := quiet INFO;
     warn := quiet WARN; error := quiet ERROR |}.

Definition method (l : LogLevel) (lg : MappedLogger) : Method :=
  match l with
  | TRACE => trace lg
  | DEBUG => debug lg
  | INFO => info lg
  | WARN => warn lg
  | ERROR => error lg
  end.

(** What a call of a logging method does: the message is written to the
    console, or only formatted (and sent to the listeners of the log
    events), or nothing happens. *)
Inductive Effect := Written (l : LogLevel) | FormattedOnly | Nothing.

(** [logger.trace(message)], ..., [logger.error(message)], through
    [_applyLogFilters]. *)
Definition call (l : LogLevel) (lg : MappedLogger) : Effect :=
  match method l lg with
  | EmptyMethod => Nothing
  | Filtered => if omitFromConsole lg then FormattedOnly else Written l
  end.

Definition isTraceEnabled (lg : MappedLogger) : bool :=
  match _loglevel lg with TRACE => true | _ => false end.

Definition isDebugEnabled (lg : MappedLogger) : bool :=
  match _loglevel lg with DEBUG => true | _ => isTraceEnabled lg end.

Definition getLevel (lg : MappedLogger) : LogLevel := _loglevel lg.

(** [logger.with().logger()], for a context that does not set
    [omitFromConsole]: a new logger at the level of this one. *)
Definition with_ (lg : MappedLogger) : MappedLogger :=
  construct (Some (_loglevel lg)) (omitFromConsole lg).

(** [getLogger()], for the value of [GLOBAL_LOG_LEVEL] if it names a
    level. *)
Definition getLogger (level : option LogLevel) : MappedLogger :=
  construct (Some match level with Some l => l | None => INFO end) false.

End Logger.

(* ===================================================================== *)
(** ** What the repository of the definitions returns (types) *)
(* ===================================================================== *)

Module Returned.
Import Repo.

(** [s.split(sep)] for a separator of one character. *)
Fixpoint splitOn (sep : ascii) (s : string) : list string :=
  match s with
  | EmptyString => [EmptyString]
  | String c r =>
      if Ascii.eqb c sep then EmptyString :: splitOn sep r
      else match splitOn sep r with
           | h :: t => String c h :: t
           | [] => [String c EmptyString]
           end
  end.

(** A [DeviceMetric] as [insertMany] builds it: a field is [None] when the
    destructuring of the split id leaves it [undefined]. *)
Record DeviceMetric := {
  dm_id : string;
  deviceName : option string;
  metricName : option string;
}.

(** [const [deviceName, metricName] = id.split(":", 2)] *)
Definition ofId (i : string) : DeviceMetric :=
  let parts := firstn 2 (splitOn ":" i) in
  {| dm_id := i;
     deviceName := nth_error parts 0;
     metricName := nth_error parts 1 |}.

(** What [DeviceMetricRepository.insertMany] returns when its statement is
    accepted: one record for each id it has seen, in the order of their
    first occurrence. *)
Definition insertManyReturns (records : list (string * string))
  : list DeviceMetric :=
  map (fun r => ofId (id r)) (dedupe [] records).

End Returned.

(* ===================================================================== *)
(** * Vocabulary of the properties *)
(* ===================================================================== *)

Section SchedulerVocabulary.
Import Ingest.
Context {N : JsNumber} {J : Repo.Json}.

(** The batches drained so far, oldest first: those whose processing
    ended, then the one whose transaction is running. *)
Definition batches (s : State) : list Batch :=
  map fst (finished s) ++
  match inflight s with
  | Some (b, _) => [b]
  | None => []
  end.

(** What holds of the queues [bq] and [dq], the arrivals [arr] and the
    drained batches [bs] in every state. *)
Record Inv (bq dq : list Queued) (arr : list InboundEvent) (bs : list Batch)
  : Prop := {
  inv_birth : forall q, In q bq ->
    e_type (event q) = DBIRTH /\ nth_error arr (arrival q) = Some (event q);
  inv_data : forall q, In q dq ->
    e_type (event q) = DDATA /\ nth_error arr (arrival q) = Some (event q);
  inv_bound : forall u, In u (List.concat bs) -> arrival u < List.length arr;
  inv_cover : forall j d, nth_error arr j = Some d -> e_type d = DBIRTH ->
    In {| arrival := j; event := d |} bq
    \/ In {| arrival := j; event := d |} (List.concat bs);
  inv_order : forall k b u, nth_error bs k = Some b -> In u b ->
    e_type (event u) = DDATA ->
    forall j d, j < arrival u -> nth_error arr j = Some d ->
      e_type d = DBIRTH ->
      In {| arrival := j; event := d |} (List.concat (firstn k bs));
}.

Definition invariant (s : State) : Prop :=
  Inv (birthQueue s) (dataQueue s) (arrived s) (batches s)
  /\ (draining s = false -> inflight s = None).

(** The fault names a statement that the transaction of the staged batch
    does send to the store. *)
Definition strikes (f : Fault) (st : Staged) : bool :=
  match f with
  | FailUpsert k => (k <? List.length (newDevices st))%nat
  | FailInsertMetrics => negb (isEmpty (newMetrics st))
  | FailInsertValues => negb (isEmpty (metricValues st))
  | FailCommit => true
  | NoFault | FailBegin => false
  end.

Definition throws {A} (r : Result A) : bool :=
  match r with
  | Throw _ => true
  | Ok _ => false
  end.

(** Code that never ends the transaction it runs in. *)
Definition keeps {A} (m : Db A) : Prop :=
  forall c, Repo.snapshot (snd (m c)) = Repo.snapshot c.

(** The three steps of the [try] block, without [COMMIT]. *)
Definition threeSteps (f : Fault) (st : Staged) : Db unit :=
  bind (upsertAll f 0 (newDevices st)) (fun _ =>
  bind (insertManyMetrics f (newMetrics st)) (fun _ =>
  insertManyValues f (metricValues st))).

End SchedulerVocabulary.

Section StagingVocabulary.
Import Payload Ingest.
Context {N : JsNumber} {J : Repo.Json}.

(** A metric the staging loop passes over: its name is unusable, or its
    value is [null] or [undefined]. *)
Definition unusable (names : UMetric -> option string) (m : UMetric) : Prop :=
  Js.truthy (names m) = false
  \/ exists v, fst (Metrics.getMetricValue m) = Ok v /\ isNullish v = true.

(** The event with other metrics in its payload. *)
Definition withMetrics (evt : InboundEvent) (ms : list UMetric)
  : InboundEvent :=
  {| e_type := e_type evt; e_topic := e_topic evt;
     e_payload :=
       {| p_timestamp := p_timestamp (e_payload evt);
          p_seq := p_seq (e_payload evt);
          p_uuid := p_uuid (e_payload evt);
          p_body := p_body (e_payload evt);
          p_metrics := Some ms |};
     receivedAt := receivedAt evt |}.

End StagingVocabulary.

Section TransportVocabulary.
Import Payload Client.
Context {N : JsNumber} {W : Wire}.



(** The algorithm an envelope names: the value of its first metric named
    [algorithm] when that value is a string, as [decompressPayload] reads
    it. *)
Definition algorithmOf (p : UPayload) : option string :=
  match find isAlgorithmMetric
          (match p_metrics p with Some ms => ms | None => [] end) with
  | Some (Metric _ _ _ (VString a) _) => Some a
  | _ => None
  end.



End TransportVocabulary.

(** A string without white space. *)
Fixpoint noSpace (s : string) : bool :=
  match s with
  | EmptyString => true
  | String c r => negb (Js.isSpace c) && noSpace r
  end.

Section StatusVocabulary.
Import Repo Status.

(** [last] is the greatest of the timestamps that satisfy [P], or there is
    none. *)
Definition latestOf (P : Z -> Prop) (last : option Z) : Prop :=
  match last with
  | None => forall t, ~ P t
  | Some t => P t /\ forall u, P u -> (u <= t)%Z
  end.

(** A value with timestamp [ts] is recorded for a metric that the join
    condition gives to the name [i]. *)
Definition recorded (onMetric : string -> MetricRow -> bool) (t : Tables)
  (i : string) (ts : Z) : Prop :=
  exists m v,
    In m (device_metrics t) /\ onMetric i m = true
    /\ In v (device_metric_values t) /\ metric_id v = id m /\ v_ts v = ts.

End StatusVocabulary.

(** ** Concrete runtimes, events, codecs and tables *)

(** A stand-in for [JSON.stringify] where a concrete runtime is needed. *)
#[export] Instance ZJson : Repo.Json (N := ZNumber) :=
  {| Repo.JSON_stringify := fun _ => "{}" |}.

Definition emptyConn : Repo.Conn :=
  {| Repo.tables := Repo.emptyTables; Repo.snapshot := None |}.

Definition emptyPayload : Payload.UPayload (N := ZNumber) :=
  {| Payload.p_timestamp := None; Payload.p_seq := None;
     Payload.p_uuid := None; Payload.p_body := None;
     Payload.p_metrics := None |}.

Section Examples.
Import Payload.

Definition at1000 : option (LongOrNumber (N := ZNumber)) :=
  Some (IsNumber 1000%Z).

Definition temperature (v : Z) : UMetric (N := ZNumber) :=
  Metric (Some "temperature") None "Int32" (VNumber v) at1000.

(** A metric of an unsupported type: it has no value. *)
Definition installed : UMetric (N := ZNumber) :=
  Metric (Some "installed") None "DateTime" (VNumber 5%Z) at1000.

Definition payloadOf (ms : list UMetric) : UPayload (N := ZNumber) :=
  {| p_timestamp := at1000; p_seq := Some 0%Z; p_uuid := None;
     p_body := None; p_metrics := Some ms |}.

Definition birthOfDev1 : Ingest.InboundEvent :=
  {| Ingest.e_type := Ingest.DBIRTH;
     Ingest.e_topic := "spBv1.0/sp_group/STATE/cert/DBIRTH/node1/dev1";
     Ingest.e_payload := payloadOf [installed; temperature 21];
     Ingest.receivedAt := 1000 |}.

Definition dataOfDev1 : Ingest.InboundEvent :=
  {| Ingest.e_type := Ingest.DDATA;
     Ingest.e_topic := "spBv1.0/sp_group/DDATA/node1/dev1";
     Ingest.e_payload := payloadOf [temperature 22];
     Ingest.receivedAt := 1001 |}.

Definition stateAfter (actions : list Ingest.Action) : Ingest.State :=
  match Ingest.runActions actions (Ingest.initial emptyConn) with
  | Some s => s
  | None => Ingest.initial emptyConn
  end.

(** The definition, then the update; the timer fires and the first
    transaction commits: the update is in the running batch. *)
Definition definitionThenUpdate : Ingest.State :=
  stateAfter [Ingest.Enqueue birthOfDev1; Ingest.Enqueue dataOfDev1;
              Ingest.TimerFires; Ingest.TransactionEnds Ingest.NoFault].

(** The definition alone, its transaction running. *)
Definition definitionRunning : Ingest.State :=
  stateAfter [Ingest.Enqueue birthOfDev1; Ingest.TimerFires].

Definition stagedDefinition : Ingest.Staged :=
  match Ingest.stageBatch [birthOfDev1] Ingest.noneStaged with
  | Ok st => st
  | Throw _ => Ingest.noneStaged
  end.

End Examples.

Section WireExamples.
Import Payload.

(** An envelope that names an algorithm the client does not have. *)
Definition lz4Envelope : UPayload (N := ZNumber) :=
  {| p_timestamp := None; p_seq := None;
     p_uuid := Some "SPBV1.0_COMPRESSED";
     p_body := Some [Byte.x04; Byte.x22];
     p_metrics :=
       Some [Metric (Some "algorithm") None "String" (VString "LZ4") None] |}.

(** A codec that decodes every message to that envelope. *)
Definition lz4Wire : Client.Wire (N := ZNumber) :=
  {| Client.encode := fun _ => [];
     Client.decode := fun _ => Some lz4Envelope;
     Client.deflate := fun b => b;
     Client.gzip := fun b => b;
     Client.inflate := fun b => Some b;
     Client.ungzip := fun b => Some b |}.

Definition long1000 : option (LongOrNumber (N := ZNumber)) :=
  Some (IsLong {| low := 1000; high := 0; unsigned := true |}).

(** The payload of a reading, with its timestamps as numbers. *)
Definition reading : UPayload (N := ZNumber) := payloadOf [temperature 21].

(** The reading as a protobuf codec gives it back: the 64-bit fields are
    [Long]s. *)
Definition readingDecoded : UPayload (N := ZNumber) :=
  {| p_timestamp := long1000; p_seq := Some 0%Z; p_uuid := None;
     p_body := None;
     p_metrics :=
       Some [Metric (Some "temperature") None "Int32" (VNumber 21%Z) long1000] |}.

(** The byte that stands for the algorithm of an envelope. *)
Definition algorithmByte (p : UPayload (N := ZNumber)) : Byte.byte :=
  match algorithmOf p with
  | Some a => if String.eqb a "GZIP" then Byte.x02 else Byte.x01
  | None => Byte.x00
  end.

(** A codec for envelopes and one reading: an envelope is written as
    [02], the byte of its algorithm and its body; every other payload
    stands for the reading, written as [01], which is read back with
    [Long] timestamps. The compressors put a header in front of the
    bytes. *)
Definition sampleWire : Client.Wire (N := ZNumber) :=
  {| Client.encode := fun p =>
       match p_uuid p with
       | Some _ =>
           Byte.x02 :: algorithmByte p
             :: match p_body p with Some b => b | None => [] end
       | None => [Byte.x01]
       end;
     Client.decode := fun b =>
       match b with
       | [Byte.x01] => Some readingDecoded
       | Byte.x02 :: a :: body =>
           Some {| p_timestamp := None; p_seq := None;
                   p_uuid := Some "SPBV1.0_COMPRESSED";
                   p_body := Some body;
                   p_metrics :=
                     Some (if Byte.eqb a Byte.x02
                           then [Metric (Some "algorithm") None "String"
                                   (VString "GZIP") None]
                           else if Byte.eqb a Byte.x01
                           then [Metric (Some "algorithm") None "String"
                                   (VString "DEFLATE") None]
                           else []) |}
       | _ => None
       end;
     Client.deflate := fun b => Byte.x78 :: Byte.x9c :: b;
     Client.gzip := fun b => Byte.x1f :: Byte.x8b :: b;
     Client.inflate := fun b =>
       match b with Byte.x78 :: Byte.x9c :: r => Some r | _ => None end;
     Client.ungzip := fun b =>
       match b with Byte.x1f :: Byte.x8b :: r => Some r | _ => None end |}.


Definition gzipOptions : Client.PayloadOptions :=
  {| Client.algorithm := Some "gzip"; Client.compress := Some true |}.

End WireExamples.

Definition oneValueTables : Repo.Tables :=
  {| Repo.devices :=
       [{| Repo.device_name := "dev1"; Repo.topic := "t";
           Repo.birth_timestamp := Some 0%Z |}];
     Repo.device_metrics :=
       [{| Repo.id := "dev1/temperature"; Repo.m_device_name := "dev1";
           Repo.metric_name := "temperature" |}];
     Repo.device_metric_values :=
       [{| Repo.metric_id := "dev1/temperature"; Repo.v_ts := 1000%Z;
           Repo.v_value := Some "21"; Repo.from_birth := true |}] |}.

(** A string without [/]: one segment of a topic. *)
Fixpoint noSlash (s : string) : bool :=
  match s with
  | EmptyString => true
  | String c r => negb (Ascii.eqb c "/") && noSlash r
  end.

Section StorageVocabulary.
Import Repo.

(** [select ... from devices where device_name = n] on a table with unique
    names. *)
Definition findDevice (n : string) (rows : list DeviceRow) : option DeviceRow :=
  find (fun r => String.eqb (device_name r) n) rows.


(** The id of the definition of a device and a metric. *)
Definition idOfPair (x : string * string) : string :=
  metricId (fst x) (snd x).

End StorageVocabulary.

Section CommitVocabulary.
Import Ingest.
Context {N : JsNumber} {J : Repo.Json}.

(** The rows of the staged devices and values, when all their dates are
    valid. *)
Fixpoint deviceRows (ds : list StagedDevice) : option (list Repo.DeviceRow) :=
  match ds with
  | [] => Some []
  | d :: rest =>
      match birthTimestamp d, deviceRows rest with
      | Some t, Some rows =>
          Some ({| Repo.device_name := deviceName d; Repo.topic := d_topic d;
                   Repo.birth_timestamp := Some t |} :: rows)
      | _, _ => None
      end
  end.

Fixpoint rowsOfValues (values : list StagedValue) : option (list Repo.ValueRow) :=
  match values with
  | [] => Some []
  | v :: rest =>
      match ts v, rowsOfValues rest with
      | Some t, Some rows =>
          Some ({| Repo.metric_id := metricId v; Repo.v_ts := t;
                   Repo.v_value := Repo.toStoredValue (value v);
                   Repo.from_birth := fromBirth v |} :: rows)
      | _, _ => None
      end
  end.

(** The tables after the three steps of a batch, all statements
    accepted. *)
Definition applied (ds : list Repo.DeviceRow) (records : list (string * string))
  (rows : list Repo.ValueRow) (t : Repo.Tables) : Repo.Tables :=
  let t1 := fold_left (fun t d => Repo.sqlUpsertDevice d t) ds t in
  {| Repo.devices := Repo.devices t1;
     Repo.device_metrics :=
       Repo.insertMetricRows (Repo.dedupe [] records) (Repo.device_metrics t1);
     Repo.device_metric_values := Repo.device_metric_values t1 ++ rows |}.

End CommitVocabulary.

Section QueueVocabulary.
Import Ingest.
Context {N : JsNumber} {J : Repo.Json}.

Definition isBirthQ (q : Queued) : bool :=
  match e_type (event q) with
  | DBIRTH => true
  | DDATA => false
  end.

Definition isDataQ (q : Queued) : bool := negb (isBirthQ q).

(** The events that arrived, each with its arrival number. *)
Definition tagged (arr : list InboundEvent) : list Queued :=
  map (fun p => {| arrival := fst p; event := snd p |})
    (combine (List.seq 0 (List.length arr)) arr).

(** A batch as the loop drains them: not empty, at most
    [MAX_BATCH_MESSAGES] events, all of one kind. *)
Definition wellFormedBatch (b : Batch) : Prop :=
  b <> [] /\ List.length b <= MAX_BATCH_MESSAGES
  /\ (forallb isBirthQ b = true \/ forallb isDataQ b = true).

(** The events of each kind are, in arrival order, those of the drained
    batches followed by those of their queue. *)
Record Fifo (bq dq : list Queued) (arr : list InboundEvent) (bs : list Batch)
  : Prop := {
  fifo_birth :
    filter isBirthQ (tagged arr) = filter isBirthQ (List.concat bs) ++ bq;
  fifo_data :
    filter isDataQ (tagged arr) = filter isDataQ (List.concat bs) ++ dq;
  fifo_bq : forallb isBirthQ bq = true;
  fifo_dq : forallb isDataQ dq = true;
  fifo_batches : Forall wellFormedBatch bs;
}.

Definition fifo (s : State) : Prop :=
  Fifo (birthQueue s) (dataQueue s) (arrived s) (batches s).

Definition isAborted (o : Outcome) : bool :=
  match o with
  | Aborted => true
  | _ => false
  end.

(** No batch was lost to an exception that left [drainQueues]. *)
Definition noAbort (s : State) : bool :=
  forallb (fun x => negb (isAborted (snd x))) (finished s).

Definition pending (s : State) : bool :=
  negb (isEmpty (birthQueue s) && isEmpty (dataQueue s)).

Definition running (s : State) : bool :=
  match inflight s with
  | Some _ => true
  | None => false
  end.

(** The flags of the scheduler agree, and queued events are not left
    alone. *)
Definition lively (s : State) : Prop :=
  drainScheduled s = timer s
  /\ draining s = running s
  /\ (noAbort s = true -> pending s = true ->
      timer s = true \/ running s = true).

End QueueVocabulary.

(** The definition and the update are queued; the timer is armed. *)
Definition bothQueued : Ingest.State :=
  stateAfter [Ingest.Enqueue birthOfDev1; Ingest.Enqueue dataOfDev1].

Section BacklogVocabulary.
Import Ingest.
Context {N : JsNumber} {J : Repo.Json}.

(** The events waiting in the two queues. *)
Definition backlog (s : State) : nat :=
  List.length (birthQueue s) + List.length (dataQueue s).

(** All the events of a batch are updates. *)
Definition updatesOnly (events : list InboundEvent) : bool :=
  forallb (fun e => match e_type e with DDATA => true | DBIRTH => false end)
    events.

End BacklogVocabulary.

(** The update of the device, staged. *)
Definition stagedUpdate : Ingest.Staged :=
  match Ingest.stageBatch [dataOfDev1] Ingest.noneStaged with
  | Ok st => st
  | Throw _ => Ingest.noneStaged
  end.

Section JoinVocabulary.
Import Payload Ingest.
Context {N : JsNumber} {J : Repo.Json}.

(** A metric the staging loop records a value for, under the name [n]:
    the name is not empty and the value is neither [null] nor
    [undefined]. *)
Definition valued (n : option string) (m : UMetric) : Prop :=
  Js.truthy n = true
  /\ exists v, fst (Metrics.getMetricValue m) = Ok v /\ isNullish v = false.

End JoinVocabulary.

(** The actions can be run one after the other from the empty
    scheduler. *)
Definition runs (actions : list Ingest.Action) : bool :=
  match Ingest.runActions actions (Ingest.initial emptyConn) with
  | Some _ => true
  | None => false
  end.

Section ListingVocabulary.
Context {A : Type}.

(** The loop of a reader of a listing: the first page, then the page
    after each cursor the server answers, until it answers none. *)
Fixpoint walk (request : option string -> Api.Page A) (fuel : nat)
  (cursor : option string) : list A :=
  let page := request cursor in
  match fuel, Api.nextCursor page with
  | S fuel', Some c => Api.items page ++ walk request fuel' (Some c)
  | _, _ => Api.items page
  end.

(** The key of [a] is before the key of [b]. *)
Definition keyBefore (key : A -> string) (a b : A) : Prop :=
  String.ltb (key a) (key b) = true.

End ListingVocabulary.
(** Three devices, not in the order of their names, and the definitions
    of two of them. *)
Definition threeDevices : Repo.Tables :=
  {| Repo.devices :=
       [{| Repo.device_name := "pump"; Repo.topic := "t1";
           Repo.birth_timestamp := Some 0%Z |};
        {| Repo.device_name := "fan"; Repo.topic := "t2";
           Repo.birth_timestamp := Some 0%Z |};
        {| Repo.device_name := "valve"; Repo.topic := "t3";
           Repo.birth_timestamp := None |}];
     Repo.device_metrics :=
       [{| Repo.id := "pump/rpm"; Repo.m_device_name := "pump";
           Repo.metric_name := "rpm" |};
        {| Repo.id := "fan/rpm"; Repo.m_device_name := "fan";
           Repo.metric_name := "rpm" |};
        {| Repo.id := "pump/flow"; Repo.m_device_name := "pump";
           Repo.metric_name := "flow" |}];
     Repo.device_metric_values := [] |}.

Section ConnectionVocabulary.
Import Connection.

Definition isEmitConnect (o : Output) : bool :=
  match o with EmitConnect => true | _ => false end.

Definition isEmitClose (o : Output) : bool :=
  match o with EmitClose => true | _ => false end.

(** An error passed on to the listeners, or the MQTT client ended. *)
Definition isErrorOutput (o : Output) : bool :=
  match o with EmitError _ | EndClient => true | _ => false end.

(** No [connect] among the reports. *)
Definition noConnect (evs : list TransportEvent) : bool :=
  forallb (fun ev => match ev with TConnect => false | _ => true end) evs.

(** What is done about the errors among the reports while the client is
    connecting. *)
Definition errorsOf (evs : list TransportEvent) : list Output :=
  flat_map (fun ev => match ev with
                      | TError e => [EmitError e; EndClient]
                      | _ => []
                      end) evs.

Definition countOf (f : Output -> bool) (out : list Output) : nat :=
  List.length (filter f out).

End ConnectionVocabulary.

(** The levels in the order of their severity. *)
Definition severity (l : LogLevel) : nat :=
  match l with
  | TRACE => 0
  | DEBUG => 1
  | INFO => 2
  | WARN => 3
  | ERROR => 4
  end.

Section KeyVocabulary.
Import Repo.

(** The definitions are keyed as the code keys them: the id of a row is
    the id of its device and its metric, and the device name holds no
    slash. *)
Definition wellKeyed (rows : list MetricRow) : Prop :=
  forall r, In r rows ->
    id r = metricId (m_device_name r) (metric_name r)
    /\ noSlash (m_device_name r) = true.

End KeyVocabulary.

Section StoreVocabulary.
Import Ingest.
Context {N : JsNumber} {J : Repo.Json}.

(** What the staging loop stages for a batch. *)
Definition stagedOf (b : Batch) : Result Staged :=
  stageBatch (map event b) noneStaged.

(** The batch whose transaction is running carries what was staged for
    it. *)
Definition inflightStaged (s : State) : Prop :=
  forall b st, inflight s = Some (b, st) -> stagedOf b = Ok st.

(** The value rows of a batch. *)
Definition rowsOfBatch (b : Batch) : list Repo.ValueRow :=
  match stagedOf b with
  | Ok st =>
      match rowsOfValues (metricValues st) with
      | Some rows => rows
      | None => []
      end
  | Throw _ => []
  end.

(** The value rows of the committed batches among the batches whose
    processing ended, oldest first. *)
Definition committedRows (done : list (Batch * Outcome)) : list Repo.ValueRow :=
  flat_map (fun x => match snd x with
                     | Committed => rowsOfBatch (fst x)
                     | _ => []
                     end) done.

(** The keys of the store: device names and definition ids are unique,
    and the definitions are keyed by device and metric. *)
Definition storeKeyed (t : Repo.Tables) : Prop :=
  NoDup (map Repo.device_name (Repo.devices t))
  /\ NoDup (map Repo.id (Repo.device_metrics t))
  /\ wellKeyed (Repo.device_metrics t).

(** What holds of the store and of the running batch, for the store [t0]
    the scheduler started with. *)
Definition storeInv (t0 : Repo.Tables) (s : State) : Prop :=
  Repo.snapshot (conn s) = None
  /\ inflightStaged s
  /\ Repo.device_metric_values (Repo.tables (conn s))
     = Repo.device_metric_values t0 ++ committedRows (finished s)
  /\ (storeKeyed t0 -> storeKeyed (Repo.tables (conn s))).

End StoreVocabulary.

Section ProgressVocabulary.
Import Ingest.
Context {N : JsNumber} {J : Repo.Json}.

(** The staging loop does not raise on the event. *)
Definition stageable (e : InboundEvent) : Prop :=
  forall acc, exists acc', stageEvent e acc = Ok acc'.

(** The scheduler left alone, no event arriving and no statement refused:
    the running transaction ends, or else the timer fires if it is armed,
    [fuel] times at most. *)
Fixpoint settle (fuel : nat) (s : State) : State :=
  match fuel with
  | O => s
  | S fuel' =>
      match inflight s with
      | Some (b, st) => settle fuel' (transactionEnds NoFault b st s)
      | None => if timer s then settle fuel' (timerFires s) else s
      end
  end.

(** What the scheduler has to do before it is at rest. *)
Definition work (s : State) : nat :=
  2 * backlog s + (if running s then 1 else 0) + (if timer s then 1 else 0).

End ProgressVocabulary.

(** A string without colon. *)
Fixpoint noColon (s : string) : bool :=
  match s with
  | EmptyString => true
  | String c r => negb (Ascii.eqb c ":") && noColon r
  end.

(* ===================================================================== *)
(** * Properties *)
(* ===================================================================== *)

(** ** The sequence number of the client *)

Section SequenceNumber.
Import Client.

Lemma incrementSeqNum_value (c : State) :
  (0 <= seq c <= 256)%Z ->
  fst (incrementSeqNum c) = (seq c mod 256)%Z /\
  (0 <= seq (snd (incrementSeqNum c)) <= 256)%Z /\
  seq (snd (incrementSeqNum c)) = (seq c mod 256 + 1)%Z.
Proof.
  intros Hc. unfold incrementSeqNum. cbn [fst snd seq].
  destruct (Z.eqb_spec (seq c) 256) as [E | E].
  - rewrite E. change (256 mod 256)%Z with 0%Z. lia.
  - rewrite Z.mod_small by lia. lia.
Qed.

Lemma afterAllocations_value (n : nat) :
  forall c, (0 <= seq c <= 256)%Z ->
  fst (incrementSeqNum (afterAllocations n c)) = ((seq c + Z.of_nat n) mod 256)%Z.
Proof.
  induction n as [| n IH]; intros c Hc.
  - cbn [afterAllocations]. rewrite Z.add_0_r.
    apply (incrementSeqNum_value c Hc).
  - cbn [afterAllocations].
    destruct (incrementSeqNum_value c Hc) as (_ & Hr & Hs).
    rewrite (IH _ Hr), Hs.
    replace (seq c + Z.of_nat (S n))%Z with (seq c + (1 + Z.of_nat n))%Z by lia.
    rewrite <- Z.add_assoc.
    rewrite Z.add_mod_idemp_l by lia. reflexivity.
Qed.

(** C8. The allocator returns 0, 1, ..., 255 in this order and then 0
    again: the first 256 allocations are the numbers from 0 to 255, the
    257th is 0, and in every state reached by allocations the value
    returned next is the number of allocations made so far modulo 256, so
    it lies between 0 and 255. *)
Theorem sequence_number_wraps :
  allocations 256 initial = map Z.of_nat (List.seq 0 256)
  /\ nth_error (allocations 257 initial) 256 = Some 0%Z
  /\ forall n : nat,
       fst (incrementSeqNum (afterAllocations n initial))
         = (Z.of_nat n mod 256)%Z
       /\ (0 <= fst (incrementSeqNum (afterAllocations n initial)) <= 255)%Z.
Proof.
  split; [vm_compute; reflexivity |].
  split; [vm_compute; reflexivity |].
  intros n.
  assert (H : fst (incrementSeqNum (afterAllocations n initial))
              = (Z.of_nat n mod 256)%Z).
  { rewrite afterAllocations_value by (cbn; lia). reflexivity. }
  split; [exact H |].
  rewrite H. pose proof (Z.mod_pos_bound (Z.of_nat n) 256). lia.
Qed.

End SequenceNumber.

(** ** Values of template metrics *)

Section TemplateValues.
Import Payload Metrics.
Context {N : JsNumber}.

(** The search of [getMetricValue] for the child named [value] is
    [Array.prototype.find]. *)
Lemma find_value_metric (ms : list UMetric) :
  (fix find (ms : list UMetric) : Logged (Result UValue) :=
     match ms with
     | [] => (Ok VNull, warn "Template does not have value metric")
     | m :: rest => if isValueMetric m then getMetricValue m else find rest
     end) ms
  = match List.find isValueMetric ms with
    | Some child => getMetricValue child
    | None => (Ok VNull, warn "Template does not have value metric")
    end.
Proof.
  induction ms as [| m rest IH]; [reflexivity |].
  cbn [List.find]. destruct (isValueMetric m); [reflexivity | exact IH].
Qed.

End TemplateValues.

(** C4. On a Template metric, [getMetricValue] yields no value for a
    definition; for an instance whose [templateRef] starts with
    [baja:Status] it yields what it yields on the first child metric named
    [value], found by search; for an instance without such a child or with
    another reference it yields no value and logs one warning. A Status
    template whose child [value] is the Int32 42 yields 42. *)
Theorem template_metric_value :
  (forall (N : JsNumber) name alias timestamp isDefinition templateRef metrics,
     Metrics.getMetricValue
       (Payload.Metric name alias "Template"
          (Payload.VTemplate isDefinition templateRef metrics) timestamp)
     = match isDefinition with
       | Some true => (Ok Payload.VNull, [])
       | _ =>
           if Js.startsWith templateRef "baja:Status" then
             match List.find Metrics.isValueMetric metrics with
             | Some child => Metrics.getMetricValue child
             | None =>
                 (Ok Payload.VNull,
                  [{| level := WARN;
                      message := "Template does not have value metric" |}])
             end
           else
             (Ok Payload.VNull,
              [{| level := WARN; message := "Unsupported template" |}])
       end)
  /\ Metrics.getMetricValue (N := ZNumber)
       (Payload.Metric (Some "Status") None "Template"
          (Payload.VTemplate (Some false) "baja:StatusNumeric"
             [Payload.Metric (Some "status") None "String"
                (Payload.VString "{ok}") None;
              Payload.Metric (Some "value") None "Int32"
                (Payload.VNumber 42%Z) None])
          None)
     = (Ok (Payload.VNumber 42%Z), []).
Proof.
  split; [| vm_compute; reflexivity].
  intros N name alias timestamp isDefinition templateRef metrics.
  cbn [Metrics.getMetricValue].
  change (Metrics.isNumericType "Template") with false.
  change (String.eqb "Template" "Boolean" || String.eqb "Template" "String")
    with false.
  change (String.eqb "Template" "Template") with true.
  cbv iota.
  destruct isDefinition as [[|] |]; try reflexivity;
    unfold Metrics.statusPrefix;
    destruct (Js.startsWith templateRef "baja:Status"); try reflexivity;
    apply find_value_metric.
Qed.

(** ** Which messages are enqueued *)

Section Enqueued.
Import Ingest.
Context {N : JsNumber} {J : Repo.Json}.

Lemma arrived_enqueueEvent (e : InboundEvent) (s : State) :
  arrived (enqueueEvent e s) = arrived s ++ [e].
Proof.
  unfold enqueueEvent.
  match goal with |- context [if ?b then _ else _] => destruct b end.
  - unfold drainQueues. cbn [draining].
    destruct (draining s); [reflexivity |].
    unfold drainTurn. cbn [birthQueue dataQueue].
    match goal with |- context [if ?b then _ else _] => destruct b end;
      [reflexivity |].
    match goal with |- context [takeBatch ?n ?q] => destruct (takeBatch n q) as [b r] end.
    destruct b as [| q0 b]; [reflexivity |].
    match goal with |- context [stageBatch ?l ?a] => destruct (stageBatch l a) end;
      reflexivity.
  - unfold scheduleDrain. cbn [drainScheduled].
    destruct (drainScheduled s); reflexivity.
Qed.

End Enqueued.

(** C10, as stated, fails: with the system topic [spBv1.0/sp_group], the
    topic [spBv1.0/sp_group/DDATA/node1/dev1] starts with [spBv1.0/] and
    parses to a DDATA message, and the handler enqueues nothing, because
    the topic also starts with the system topic and the first branch is
    taken. *)
Lemma update_under_system_topic_ignored :
  (Js.startsWith "spBv1.0/sp_group/DDATA/node1/dev1" "spBv1.0/" = true
   /\ Topic.messageType (Topic.parseTopic "spBv1.0/sp_group/DDATA/node1/dev1")
      = Some "DDATA")
  /\ Ingest.onMessage {| Ingest.systemTopic := "spBv1.0/sp_group" |}
       "spBv1.0/sp_group/DDATA/node1/dev1" emptyPayload 0
       (Ingest.initial emptyConn)
     = Ingest.initial emptyConn.
Proof. vm_compute. repeat split. Qed.

(** C10, amended. The handler enqueues a definition event when the topic
    starts with the system topic and, without its first two segments,
    parses to a DBIRTH message with no residual segment; it enqueues an
    update event when the topic does not start with the system topic,
    starts with [spBv1.0/] and parses to a DDATA message; in every other
    case the state (queues, store) is unchanged. An enqueued event is
    added to the history of arrivals. *)
Theorem message_enqueued_when :
  forall (N : JsNumber) (J : Repo.Json) config topic payload now s,
    let certificate := Topic.parseCertificateTopic topic in
    let plain := Topic.parseTopic topic in
    let definition :=
      Js.startsWith topic (Ingest.systemTopic config)
      && (List.length (Topic.otherParts certificate) =? 0)%nat
      && Ingest.isType "DBIRTH" certificate in
    let update :=
      negb (Js.startsWith topic (Ingest.systemTopic config))
      && Js.startsWith topic "spBv1.0/"
      && Ingest.isType "DDATA" plain in
    Ingest.onMessage config topic payload now s
    = (if definition then
         Ingest.enqueueEvent
           {| Ingest.e_type := Ingest.DBIRTH; Ingest.e_topic := topic;
              Ingest.e_payload := payload; Ingest.receivedAt := now |} s
       else if update then
         Ingest.enqueueEvent
           {| Ingest.e_type := Ingest.DDATA; Ingest.e_topic := topic;
              Ingest.e_payload := payload; Ingest.receivedAt := now |} s
       else s)
    /\ (forall e, Ingest.arrived (Ingest.enqueueEvent e s)
                  = Ingest.arrived s ++ [e]).
Proof.
  intros N J config topic payload now s certificate plain definition update.
  split; [| intros e; apply arrived_enqueueEvent].
  subst definition update certificate plain. unfold Ingest.onMessage.
  destruct (Js.startsWith topic (Ingest.systemTopic config)); cbn [andb negb].
  - destruct ((List.length (Topic.otherParts (Topic.parseCertificateTopic topic))
               =? 0)%nat && Ingest.isType "DBIRTH" (Topic.parseCertificateTopic topic));
      reflexivity.
  - destruct (Js.startsWith topic "spBv1.0/"); cbn [andb]; [| reflexivity].
    destruct (Ingest.isType "DDATA" (Topic.parseTopic topic)); reflexivity.
Qed.

(** ** Definitions before updates *)

Section Ordering.
Import Ingest.
Context {N : JsNumber} {J : Repo.Json}.

Lemma takeBatch_firstn_skipn (n : nat) :
  forall queue, takeBatch n queue = (firstn n queue, skipn n queue).
Proof.
  induction n as [| n IH]; intros [| e rest]; cbn; try reflexivity.
  rewrite IH. reflexivity.
Qed.

Lemma takeBatch_app (n : nat) (queue : list Queued) :
  fst (takeBatch n queue) ++ snd (takeBatch n queue) = queue.
Proof. rewrite takeBatch_firstn_skipn. apply firstn_skipn. Qed.

Lemma nth_error_snoc_old {A} (l : list A) (x : A) (j : nat) (y : A) :
  nth_error l j = Some y -> nth_error (l ++ [x]) j = Some y.
Proof.
  intros H. rewrite nth_error_app1; [exact H |].
  apply nth_error_Some. congruence.
Qed.

Lemma nth_error_snoc_inv {A} (l : list A) (x : A) (j : nat) (y : A) :
  nth_error (l ++ [x]) j = Some y ->
  nth_error l j = Some y \/ (j = List.length l /\ y = x).
Proof.
  intros H. destruct (Nat.lt_ge_cases j (List.length l)) as [Hlt | Hge].
  - left. rewrite nth_error_app1 in H by exact Hlt. exact H.
  - right. rewrite nth_error_app2 in H by exact Hge.
    destruct (j - List.length l) as [| r] eqn:E.
    + cbn in H. split; [lia | congruence].
    + cbn in H. destruct r; discriminate.
Qed.

(** Pushing an event on its queue. *)
Lemma Inv_push bq dq arr bs (e : InboundEvent) :
  Inv bq dq arr bs ->
  Inv (match e_type e with
       | DBIRTH => bq ++ [{| arrival := List.length arr; event := e |}]
       | DDATA => bq
       end)
      (match e_type e with
       | DBIRTH => dq
       | DDATA => dq ++ [{| arrival := List.length arr; event := e |}]
       end)
      (arr ++ [e]) bs.
Proof.
  intros [Hb Hd Hn Hc Ho].
  assert (Hnew : nth_error (arr ++ [e]) (List.length arr) = Some e).
  { rewrite nth_error_app2 by lia. rewrite Nat.sub_diag. reflexivity. }
  constructor.
  - intros q Hq. destruct (e_type e) eqn:Et.
    + apply in_app_or in Hq. destruct Hq as [Hq | [<- | []]].
      * destruct (Hb q Hq) as [H1 H2]. split; [exact H1 |].
        apply nth_error_snoc_old, H2.
      * cbn. split; [exact Et | exact Hnew].
    + destruct (Hb q Hq) as [H1 H2]. split; [exact H1 |].
      apply nth_error_snoc_old, H2.
  - intros q Hq. destruct (e_type e) eqn:Et.
    + destruct (Hd q Hq) as [H1 H2]. split; [exact H1 |].
      apply nth_error_snoc_old, H2.
    + apply in_app_or in Hq. destruct Hq as [Hq | [<- | []]].
      * destruct (Hd q Hq) as [H1 H2]. split; [exact H1 |].
        apply nth_error_snoc_old, H2.
      * cbn. split; [exact Et | exact Hnew].
  - intros u Hu. rewrite length_app. cbn. specialize (Hn u Hu). lia.
  - intros j d Hj Hty.
    destruct (nth_error_snoc_inv _ _ _ _ Hj) as [Hold | [-> ->]].
    + destruct (Hc j d Hold Hty) as [H | H]; [left | right; exact H].
      destruct (e_type e); [apply in_or_app; left |]; exact H.
    + left. rewrite Hty. apply in_or_app. right. left. reflexivity.
  - intros k b u Hk Hu Hty j d Hlt Hj Hd'.
    assert (Hin : In u (List.concat bs)).
    { apply in_concat. exists b. split; [| exact Hu].
      eapply nth_error_In, Hk. }
    specialize (Hn u Hin).
    destruct (nth_error_snoc_inv _ _ _ _ Hj) as [Hold | [-> _]]; [| lia].
    exact (Ho k b u Hk Hu Hty j d Hlt Hold Hd').
Qed.

(** Draining a batch from the queue the loop chooses. *)
Lemma Inv_take bq dq arr bs (n : nat) :
  Inv bq dq arr bs ->
  let active := if negb (isEmpty bq) then bq else dq in
  Inv (if negb (isEmpty bq) then snd (takeBatch n active) else bq)
      (if negb (isEmpty bq) then dq else snd (takeBatch n active))
      arr (bs ++ [fst (takeBatch n active)]).
Proof.
  intros [Hb Hd Hn Hc Ho] active.
  pose proof (takeBatch_app n active) as Happ.
  set (batch := fst (takeBatch n active)) in *.
  set (rest := snd (takeBatch n active)) in *.
  assert (Hactive : forall q, In q active ->
            nth_error arr (arrival q) = Some (event q)).
  { intros q Hq. subst active. destruct (negb (isEmpty bq)).
    - apply (Hb q Hq).
    - apply (Hd q Hq). }
  assert (Hbatch : forall q, In q batch -> In q active).
  { intros q Hq. rewrite <- Happ. apply in_or_app. left. exact Hq. }
  assert (Hrest : forall q, In q rest -> In q active).
  { intros q Hq. rewrite <- Happ. apply in_or_app. right. exact Hq. }
  constructor.
  - intros q Hq. apply Hb. subst active.
    destruct (negb (isEmpty bq)); [apply Hrest |]; exact Hq.
  - intros q Hq. apply Hd. subst active.
    destruct (negb (isEmpty bq)); [| apply Hrest]; exact Hq.
  - intros u Hu. rewrite concat_app in Hu. cbn in Hu. rewrite app_nil_r in Hu.
    apply in_app_or in Hu. destruct Hu as [Hu | Hu]; [apply Hn, Hu |].
    apply nth_error_Some. rewrite (Hactive u (Hbatch u Hu)). discriminate.
  - intros j d Hj Hty. rewrite concat_app. cbn. rewrite app_nil_r.
    destruct (Hc j d Hj Hty) as [H | H].
    + subst active. destruct bq as [| q0 bq']; [destruct H |].
      cbn [isEmpty negb] in *. rewrite <- Happ in H.
      apply in_app_or in H. destruct H as [H | H].
      * right. apply in_or_app. right. exact H.
      * left. exact H.
    + right. apply in_or_app. left. exact H.
  - intros k b u Hk Hu Hty j d Hlt Hj Hd'.
    destruct (Nat.lt_ge_cases k (List.length bs)) as [Hlt' | Hge].
    + rewrite nth_error_app1 in Hk by exact Hlt'.
      rewrite firstn_app.
      replace (k - List.length bs) with 0 by lia. cbn. rewrite app_nil_r.
      exact (Ho k b u Hk Hu Hty j d Hlt Hj Hd').
    + rewrite nth_error_app2 in Hk by exact Hge.
      destruct (k - List.length bs) as [| r] eqn:E;
        [| cbn in Hk; destruct r; discriminate].
      cbn in Hk. injection Hk as <-.
      assert (Hk : k = List.length bs) by lia. subst k.
      rewrite firstn_app, firstn_all, Nat.sub_diag. cbn. rewrite app_nil_r.
      subst active. destruct bq as [| q0 bq'].
      * cbn [isEmpty negb] in *.
        destruct (Hc j d Hj Hd') as [[] | H]. exact H.
      * cbn [isEmpty negb] in *.
        destruct (Hb u (Hbatch u Hu)) as [Hty' _]. congruence.
Qed.

(** The two ways a turn of the loop can go: nothing is drained and
    [drainQueues] returns, or the next batch is drained from the queue the
    loop chooses. *)
Lemma drainTurn_cases (s : State) :
  inflight s = None ->
  let active :=
    if negb (isEmpty (birthQueue s)) then birthQueue s else dataQueue s in
  arrived (drainTurn s) = arrived s /\
  conn (drainTurn s) = conn s /\
  (draining (drainTurn s) = false -> inflight (drainTurn s) = None) /\
  ((birthQueue (drainTurn s) = birthQueue s /\
    dataQueue (drainTurn s) = dataQueue s /\
    batches (drainTurn s) = batches s)
   \/
   (birthQueue (drainTurn s)
      = (if negb (isEmpty (birthQueue s))
         then snd (takeBatch MAX_BATCH_MESSAGES active) else birthQueue s) /\
    dataQueue (drainTurn s)
      = (if negb (isEmpty (birthQueue s))
         then dataQueue s else snd (takeBatch MAX_BATCH_MESSAGES active)) /\
    batches (drainTurn s)
      = batches s ++ [fst (takeBatch MAX_BATCH_MESSAGES active)])).
Proof.
  intros Hin active. unfold drainTurn, batches. rewrite Hin.
  destruct (isEmpty (birthQueue s) && isEmpty (dataQueue s)) eqn:Hempty.
  - cbn. repeat split; auto.
  - fold active.
    pose proof (takeBatch_app MAX_BATCH_MESSAGES active) as Happ.
    destruct (takeBatch MAX_BATCH_MESSAGES active) as [batch remaining].
    cbn [fst snd] in *.
    destruct batch as [| q0 batch].
    + cbn in Happ. subst remaining. cbn.
      repeat split; auto. left. subst active.
      destruct (isEmpty (birthQueue s)); cbn; auto.
    + destruct (stageBatch (map event (q0 :: batch)) noneStaged); cbn.
      * repeat split; auto; try discriminate. right.
        rewrite app_nil_r. auto.
      * repeat split; auto. right.
        rewrite map_app, !app_nil_r. cbn. auto.
Qed.

Lemma invariant_drainTurn (s : State) :
  invariant s -> inflight s = None -> invariant (drainTurn s).
Proof.
  intros [HI _] Hin.
  destruct (drainTurn_cases s Hin) as (Ha & _ & Hf & [(Hb & Hd & Hbs) | (Hb & Hd & Hbs)]);
    split; try exact Hf; rewrite Ha, Hb, Hd, Hbs.
  - exact HI.
  - apply (Inv_take _ _ _ _ MAX_BATCH_MESSAGES HI).
Qed.

Lemma invariant_drainQueues (s : State) :
  invariant s -> invariant (drainQueues s).
Proof.
  intros H. unfold drainQueues. destruct (draining s) eqn:E; [exact H |].
  apply invariant_drainTurn; [exact H |]. apply H, E.
Qed.

Lemma invariant_scheduleDrain (s : State) :
  invariant s -> invariant (scheduleDrain s).
Proof.
  intros H. unfold scheduleDrain. destruct (drainScheduled s); exact H.
Qed.

Lemma invariant_enqueueEvent (e : InboundEvent) (s : State) :
  invariant s -> invariant (enqueueEvent e s).
Proof.
  intros [HI Hf]. unfold enqueueEvent.
  match goal with
  | |- invariant (if ?full then drainQueues ?p else scheduleDrain ?p) =>
      assert (Hp : invariant p);
      [| destruct full;
         [apply invariant_drainQueues | apply invariant_scheduleDrain];
         exact Hp]
  end.
  split; [| exact Hf]. apply (Inv_push _ _ _ _ e HI).
Qed.

Lemma invariant_timerFires (s : State) :
  invariant s -> invariant (timerFires s).
Proof.
  intros H. unfold timerFires. apply invariant_drainQueues. exact H.
Qed.

Lemma invariant_recordOutcome batch st outcome c (s : State) :
  invariant s -> inflight s = Some (batch, st) ->
  invariant (recordOutcome batch outcome c s).
Proof.
  intros [HI _] Hin. split; [| reflexivity].
  unfold batches in *. cbn.
  rewrite Hin in HI. rewrite map_app, app_nil_r. exact HI.
Qed.

Lemma invariant_transactionEnds f batch st (s : State) :
  invariant s -> inflight s = Some (batch, st) ->
  invariant (transactionEnds f batch st s).
Proof.
  intros H Hin. unfold transactionEnds.
  destruct (commitBatch f st (conn s)) as [outcome c].
  pose proof (invariant_recordOutcome batch st outcome c s H Hin) as Hp.
  destruct outcome.
  - apply invariant_drainTurn; [exact Hp | reflexivity].
  - apply invariant_drainTurn; [exact Hp | reflexivity].
  - split; [| reflexivity]. exact (proj1 Hp).
Qed.

Lemma invariant_step a (s s' : State) :
  invariant s -> step a s = Some s' -> invariant s'.
Proof.
  intros H Hs. destruct a as [e | | f]; cbn in Hs.
  - injection Hs as <-. apply invariant_enqueueEvent, H.
  - destruct (timer s); [| discriminate].
    injection Hs as <-. apply invariant_timerFires, H.
  - destruct (inflight s) as [[batch st] |] eqn:E; [| discriminate].
    injection Hs as <-. apply invariant_transactionEnds; assumption.
Qed.

Lemma invariant_reachable (s : State) : reachable s -> invariant s.
Proof.
  intros (c & actions & _ & Hrun).
  assert (H0 : invariant (initial c)).
  { split; [| reflexivity]. constructor; cbn.
    - intros q [].
    - intros q [].
    - intros u [].
    - intros [| j] d Hj; discriminate.
    - intros [| k] b u Hk; discriminate. }
  revert Hrun. generalize (initial c) H0. clear H0.
  induction actions as [| a rest IH]; intros s0 H0 Hrun; cbn in Hrun.
  - injection Hrun as <-. exact H0.
  - destruct (step a s0) as [s1 |] eqn:E; [| discriminate].
    apply (IH s1); [| exact Hrun]. eapply invariant_step; eassumption.
Qed.

(** While the definition queue is not empty, a turn of the loop drains a
    batch of definition events, the oldest of that queue, and leaves the
    update queue as it is. *)
Lemma definitions_drained_first (s : State) :
  inflight s = None -> birthQueue s <> [] ->
  dataQueue (drainTurn s) = dataQueue s
  /\ exists q batch,
       (q :: batch) ++ birthQueue (drainTurn s) = birthQueue s
       /\ batches (drainTurn s) = batches s ++ [q :: batch].
Proof.
  intros Hin Hne.
  destruct (drainTurn_cases s Hin) as (_ & _ & _ & H).
  pose proof (takeBatch_app MAX_BATCH_MESSAGES (birthQueue s)) as Happ.
  destruct (birthQueue s) as [| q0 rest] eqn:Eb; [congruence |].
  cbn [isEmpty negb] in H.
  change (takeBatch MAX_BATCH_MESSAGES (q0 :: rest))
    with (let '(batch, remaining) := takeBatch 499 rest in
          (q0 :: batch, remaining)) in *.
  destruct (takeBatch 499 rest) as [batch remaining]. cbn [fst snd] in *.
  destruct H as [(Hb & Hd & Hbs) | (Hb & Hd & Hbs)].
  - exfalso. revert Hb Hbs. unfold drainTurn, batches. rewrite Hin, Eb.
    cbn [isEmpty andb negb].
    change (takeBatch MAX_BATCH_MESSAGES (q0 :: rest))
      with (let '(batch, remaining) := takeBatch 499 rest in
            (q0 :: batch, remaining)).
    destruct (takeBatch 499 rest) as [batch' remaining'].
    destruct (stageBatch (map event (q0 :: batch')) noneStaged); cbn;
      intros Hb Hbs.
    + apply (f_equal (@List.length _)) in Hbs.
      rewrite !length_app in Hbs. cbn in Hbs. lia.
    + apply (f_equal (@List.length _)) in Hbs.
      rewrite !length_app, !length_map, length_app in Hbs. cbn in Hbs. lia.
  - split; [exact Hd |]. exists q0, batch. rewrite Hb. split; [exact Happ | exact Hbs].
Qed.

Lemma in_concat_firstn {A} (x : A) (k : nat) :
  forall bs, In x (List.concat (firstn k bs)) ->
  exists k' b, k' < k /\ nth_error bs k' = Some b /\ In x b.
Proof.
  induction k as [| k IH]; intros bs H.
  - destruct H.
  - destruct bs as [| b0 bs]; [destruct H |].
    cbn in H. apply in_app_or in H. destruct H as [H | H].
    + exists 0, b0. repeat split; [lia | exact H].
    + destruct (IH bs H) as (k' & b & Hlt & Hn & Hx).
      exists (S k'), b. repeat split; [lia | exact Hn | exact Hx].
Qed.

End Ordering.

(** C1. In every execution of the scheduler (events enqueued, the timer
    firing and transactions ending, with or without failure, in any
    order), an update event is drained into a batch only after every
    definition event enqueued before it was drained into an earlier
    batch: if the [k]-th batch drained holds an update event that arrived
    as number [arrival u], then every definition event that arrived with a
    smaller number is in a batch drained before the [k]-th. Batches are
    handed to the committer in the order in which they are drained. *)
Theorem definitions_drained_before_updates :
  forall (N : JsNumber) (J : Repo.Json) (s : Ingest.State),
    Ingest.reachable s ->
    forall k b u,
      nth_error (batches s) k = Some b -> In u b ->
      Ingest.e_type (Ingest.event u) = Ingest.DDATA ->
      forall j d,
        j < Ingest.arrival u ->
        nth_error (Ingest.arrived s) j = Some d ->
        Ingest.e_type d = Ingest.DBIRTH ->
        exists k' b',
          k' < k /\ nth_error (batches s) k' = Some b'
          /\ In {| Ingest.arrival := j; Ingest.event := d |} b'.
Proof.
  intros N J s Hs k b u Hk Hu Hty j d Hlt Hj Hd.
  destruct (invariant_reachable s Hs) as [HI _].
  apply in_concat_firstn.
  exact (inv_order _ _ _ _ HI k b u Hk Hu Hty j d Hlt Hj Hd).
Qed.

(** ** All or nothing *)

Section Atomicity.
Import Ingest.
Context {N : JsNumber} {J : Repo.Json}.

Lemma keeps_ret {A} (a : A) : keeps (ret a).
Proof. intros c. reflexivity. Qed.

Lemma keeps_raise {A} (e : string) : keeps (@raise A e).
Proof. intros c. reflexivity. Qed.

Lemma keeps_bind {A B} (m : Db A) (k : A -> Db B) :
  keeps m -> (forall a, keeps (k a)) -> keeps (bind m k).
Proof.
  intros Hm Hk c. unfold bind. specialize (Hm c).
  destruct (m c) as [[a | e] c']; cbn in *.
  - rewrite Hk. exact Hm.
  - exact Hm.
Qed.

Lemma keeps_run refused sql effect : keeps (run refused sql effect).
Proof. intros c. unfold run. destruct refused; reflexivity. Qed.

Lemma keeps_toISOString date : keeps (toISOString date).
Proof. destruct date; [apply keeps_ret | apply keeps_raise]. Qed.

Lemma keeps_upsert f k d : keeps (upsert f k d).
Proof.
  apply keeps_bind; [apply keeps_toISOString | intros t; apply keeps_run].
Qed.

Lemma keeps_upsertAll f ds : forall k, keeps (upsertAll f k ds).
Proof.
  induction ds as [| d rest IH]; intros k; cbn [upsertAll].
  - apply keeps_ret.
  - apply keeps_bind; [apply keeps_upsert | intros _; apply IH].
Qed.

Lemma keeps_insertManyMetrics f records : keeps (insertManyMetrics f records).
Proof. destruct records; [apply keeps_ret | apply keeps_run]. Qed.

Lemma keeps_valueRows values : keeps (valueRows values).
Proof.
  induction values as [| v rest IH]; cbn [valueRows].
  - apply keeps_ret.
  - apply keeps_bind; [apply keeps_toISOString |].
    intros t. apply keeps_bind; [exact IH | intros rows; apply keeps_ret].
Qed.

Lemma keeps_insertManyValues f values : keeps (insertManyValues f values).
Proof.
  destruct values as [| v rest]; [apply keeps_ret |].
  unfold insertManyValues.
  apply keeps_bind; [apply keeps_valueRows | intros rows; apply keeps_run].
Qed.

Lemma keeps_threeSteps f st : keeps (threeSteps f st).
Proof.
  apply keeps_bind; [apply keeps_upsertAll |]. intros _.
  apply keeps_bind; [apply keeps_insertManyMetrics |]. intros _.
  apply keeps_insertManyValues.
Qed.

Lemma transactionBody_threeSteps f st c :
  transactionBody f st c
  = match threeSteps f st c with
    | (Ok _, c') => commit f c'
    | (Throw e, c') => (Throw e, c')
    end.
Proof.
  unfold transactionBody, threeSteps, bind.
  destruct (upsertAll f 0 (newDevices st) c) as [[[] | e] c1]; [| reflexivity].
  destruct (insertManyMetrics f (newMetrics st) c1) as [[[] | e] c2];
    [| reflexivity].
  destruct (insertManyValues f (metricValues st) c2) as [[[] | e] c3];
    reflexivity.
Qed.

(** A [try] block that raises leaves the transaction open, so [ROLLBACK]
    restores the tables as they were at [BEGIN]. *)
Lemma transactionBody_throw_keeps f st c e :
  fst (transactionBody f st c) = Throw e ->
  Repo.snapshot (snd (transactionBody f st c)) = Repo.snapshot c.
Proof.
  rewrite transactionBody_threeSteps.
  pose proof (keeps_threeSteps f st c) as Hk.
  destruct (threeSteps f st c) as [[[] | e'] c']; cbn [fst snd] in *.
  - unfold commit. destruct f; cbn; intros H; try discriminate. exact Hk.
  - intros _. exact Hk.
Qed.

Lemma transactionBody_ok_commits f st c u :
  fst (transactionBody f st c) = Ok u ->
  Repo.snapshot (snd (transactionBody f st c)) = None.
Proof.
  rewrite transactionBody_threeSteps.
  destruct (threeSteps f st c) as [[[] | e'] c']; cbn [fst snd].
  - unfold commit. destruct f; cbn; intros H; try discriminate; reflexivity.
  - discriminate.
Qed.

(** Every batch is all or nothing on the tables. *)
Lemma commitBatch_all_or_nothing f st c :
  Repo.snapshot c = None ->
  Repo.snapshot (snd (commitBatch f st c)) = None /\
  (fst (commitBatch f st c) <> Committed ->
   Repo.tables (snd (commitBatch f st c)) = Repo.tables c).
Proof.
  intros Hc. unfold commitBatch.
  assert (H : forall c0, c0 = Repo.beginTransaction c ->
    Repo.snapshot
      (snd match transactionBody f st c0 with
           | (Ok _, c') => (Committed, c')
           | (Throw _, c') => (RolledBack, Repo.rollback c')
           end) = None /\
    (fst match transactionBody f st c0 with
         | (Ok _, c') => (Committed, c')
         | (Throw _, c') => (RolledBack, Repo.rollback c')
         end <> Committed ->
     Repo.tables
       (snd match transactionBody f st c0 with
            | (Ok _, c') => (Committed, c')
            | (Throw _, c') => (RolledBack, Repo.rollback c')
            end) = Repo.tables c)).
  { intros c0 ->.
    pose proof (transactionBody_throw_keeps f st (Repo.beginTransaction c)) as Ht.
    pose proof (transactionBody_ok_commits f st (Repo.beginTransaction c)) as Ho.
    destruct (transactionBody f st (Repo.beginTransaction c)) as [[u | e] c'];
      cbn [fst snd] in *.
    - split; [apply (Ho u); reflexivity | congruence].
    - split; [reflexivity |]. intros _.
      unfold Repo.rollback. cbn [Repo.tables].
      rewrite (Ht e eq_refl). reflexivity. }
  destruct f; try (apply H; reflexivity).
  cbn. split; [exact Hc | reflexivity].
Qed.

Lemma bind_throws_l {A B} (m : Db A) (k : A -> Db B) c :
  throws (fst (m c)) = true -> throws (fst (bind m k c)) = true.
Proof. unfold bind. destruct (m c) as [[a | e] c']; cbn; congruence. Qed.

Lemma bind_throws_r {A B} (m : Db A) (k : A -> Db B) c :
  (forall a c', throws (fst (k a c')) = true) ->
  throws (fst (bind m k c)) = true.
Proof.
  intros H. unfold bind. destruct (m c) as [[a | e] c']; cbn; [apply H | reflexivity].
Qed.

Lemma upsertAll_throws k ds :
  forall i c, i <= k -> k - i < List.length ds ->
  throws (fst (upsertAll (FailUpsert k) i ds c)) = true.
Proof.
  induction ds as [| d rest IH]; intros i c Hi Hlen; cbn in Hlen; [lia |].
  cbn [upsertAll]. destruct (Nat.eq_dec i k) as [-> | Hne].
  - apply bind_throws_l. unfold upsert, bind, toISOString.
    destruct (birthTimestamp d); cbn; [| reflexivity].
    unfold run. rewrite Nat.eqb_refl. reflexivity.
  - apply bind_throws_r. intros _ c'. apply IH; lia.
Qed.

(** A refused statement makes the [try] block raise. *)
Lemma strikes_throws f st c :
  strikes f st = true -> throws (fst (transactionBody f st c)) = true.
Proof.
  intros Hs. destruct f; cbn in Hs; try discriminate.
  - unfold transactionBody. apply bind_throws_l.
    apply upsertAll_throws; [lia |]. apply Nat.ltb_lt in Hs. lia.
  - unfold transactionBody. apply bind_throws_r. intros _ c1.
    apply bind_throws_l.
    destruct (newMetrics st); [discriminate | reflexivity].
  - unfold transactionBody. apply bind_throws_r. intros _ c1.
    apply bind_throws_r. intros _ c2. apply bind_throws_l.
    destruct (metricValues st) as [| v rest]; [discriminate |].
    unfold insertManyValues. apply bind_throws_r. intros rows c3. reflexivity.
  - unfold transactionBody. apply bind_throws_r. intros _ c1.
    apply bind_throws_r. intros _ c2. apply bind_throws_r. intros _ c3.
    reflexivity.
Qed.

Lemma strikes_rolls_back f st c :
  strikes f st = true -> fst (commitBatch f st c) = RolledBack.
Proof.
  intros Hs. pose proof (strikes_throws f st (Repo.beginTransaction c) Hs) as Ht.
  unfold commitBatch.
  destruct f; try discriminate Hs;
    destruct (transactionBody _ st (Repo.beginTransaction c)) as [[u | e] c'];
    cbn in Ht; try discriminate; reflexivity.
Qed.

(** A turn of the loop pushes nothing on the queues and leaves the
    connection alone; it adds at most one batch to the history. *)
Lemma drainTurn_shrinks (s : State) :
  conn (drainTurn s) = conn s
  /\ (exists more, finished (drainTurn s) = finished s ++ more)
  /\ (exists p, birthQueue s = p ++ birthQueue (drainTurn s))
  /\ (exists p, dataQueue s = p ++ dataQueue (drainTurn s)).
Proof.
  unfold drainTurn.
  destruct (isEmpty (birthQueue s) && isEmpty (dataQueue s)).
  - cbn. repeat split; try (exists []; rewrite ?app_nil_r; reflexivity).
  - set (active := if negb (isEmpty (birthQueue s)) then birthQueue s
                   else dataQueue s).
    pose proof (takeBatch_app MAX_BATCH_MESSAGES active) as Happ.
    destruct (takeBatch MAX_BATCH_MESSAGES active) as [batch remaining].
    cbn [fst snd] in Happ.
    assert (Hq : (exists p, birthQueue s
                     = p ++ (if negb (isEmpty (birthQueue s)) then remaining
                             else birthQueue s))
                 /\ (exists p, dataQueue s
                     = p ++ (if negb (isEmpty (birthQueue s)) then dataQueue s
                             else remaining))).
    { subst active. destruct (negb (isEmpty (birthQueue s))); split;
        try (exists []; reflexivity); exists batch; symmetry; exact Happ. }
    destruct batch as [| q0 batch].
    + cbn. repeat split; try apply Hq. exists []. rewrite app_nil_r. reflexivity.
    + destruct (stageBatch (map event (q0 :: batch)) noneStaged); cbn;
        repeat split; try apply Hq.
      * exists []. rewrite app_nil_r. reflexivity.
      * eexists. reflexivity.
Qed.

Lemma conn_enqueueEvent (e : InboundEvent) (s : State) :
  conn (enqueueEvent e s) = conn s.
Proof.
  unfold enqueueEvent.
  match goal with |- context [if ?b then _ else _] => destruct b end.
  - unfold drainQueues. cbn [draining].
    destruct (draining s); [reflexivity |].
    rewrite (proj1 (drainTurn_shrinks _)). reflexivity.
  - unfold scheduleDrain. cbn [drainScheduled].
    destruct (drainScheduled s); reflexivity.
Qed.

(** Between the steps of the scheduler no transaction is open. *)
Lemma reachable_no_open_transaction (s : State) :
  reachable s -> Repo.snapshot (conn s) = None.
Proof.
  intros (c & actions & Hc & Hrun).
  assert (H0 : Repo.snapshot (conn (initial c)) = None) by exact Hc.
  revert Hrun. generalize (initial c) H0. clear H0.
  induction actions as [| a rest IH]; intros s0 H0 Hrun; cbn in Hrun.
  - injection Hrun as <-. exact H0.
  - destruct (step a s0) as [s1 |] eqn:E; [| discriminate].
    apply (IH s1); [| exact Hrun]. clear IH Hrun.
    destruct a as [e | | f]; cbn in E.
    + injection E as <-. rewrite conn_enqueueEvent. exact H0.
    + destruct (timer s0); [| discriminate]. injection E as <-.
      unfold timerFires, drainQueues. cbn [draining].
      destruct (draining s0); [exact H0 |].
      rewrite (proj1 (drainTurn_shrinks _)). exact H0.
    + destruct (inflight s0) as [[batch st] |]; [| discriminate].
      injection E as <-. unfold transactionEnds.
      pose proof (commitBatch_all_or_nothing f st (conn s0) H0) as [Hs _].
      destruct (commitBatch f st (conn s0)) as [outcome c']. cbn in Hs.
      destruct outcome; try rewrite (proj1 (drainTurn_shrinks _)); exact Hs.
Qed.

End Atomicity.

(** C2. When the transaction of a batch ends, the batch goes to the
    history with its outcome and is pushed on neither queue. If the store
    refuses an upsert, the insert of the definitions, the insert of the
    values or the [COMMIT], the outcome is a rollback; and whenever the
    outcome is not a commit, the tables are those from before the batch:
    no device, definition or value row of the batch is in them. *)
Theorem failed_batch_leaves_no_row :
  forall (N : JsNumber) (J : Repo.Json) f (s s' : Ingest.State) batch st,
    Repo.snapshot (Ingest.conn s) = None ->
    Ingest.inflight s = Some (batch, st) ->
    Ingest.step (Ingest.TransactionEnds f) s = Some s' ->
    exists outcome more,
      Ingest.finished s' = Ingest.finished s ++ (batch, outcome) :: more
      /\ (strikes f st = true -> outcome = Ingest.RolledBack)
      /\ (outcome <> Ingest.Committed ->
          Repo.tables (Ingest.conn s') = Repo.tables (Ingest.conn s))
      /\ Repo.snapshot (Ingest.conn s') = None
      /\ (exists p, Ingest.birthQueue s = p ++ Ingest.birthQueue s')
      /\ (exists p, Ingest.dataQueue s = p ++ Ingest.dataQueue s').
Proof.
  intros N J f s s' batch st Hsnap Hin Hstep.
  cbn in Hstep. rewrite Hin in Hstep. injection Hstep as <-.
  unfold Ingest.transactionEnds.
  pose proof (commitBatch_all_or_nothing f st (Ingest.conn s) Hsnap) as [Hs Ht].
  pose proof (strikes_rolls_back f st (Ingest.conn s)) as Hr.
  destruct (Ingest.commitBatch f st (Ingest.conn s)) as [outcome c].
  cbn [fst snd] in *. exists outcome.
  assert (Hturn :
    exists more,
      Ingest.finished (Ingest.drainTurn (Ingest.recordOutcome batch outcome c s))
      = Ingest.finished s ++ (batch, outcome) :: more
      /\ Ingest.conn (Ingest.drainTurn (Ingest.recordOutcome batch outcome c s)) = c
      /\ (exists p, Ingest.birthQueue s = p ++
            Ingest.birthQueue (Ingest.drainTurn (Ingest.recordOutcome batch outcome c s)))
      /\ (exists p, Ingest.dataQueue s = p ++
            Ingest.dataQueue (Ingest.drainTurn (Ingest.recordOutcome batch outcome c s)))).
  { destruct (drainTurn_shrinks (Ingest.recordOutcome batch outcome c s))
      as (Hc & [more Hf] & Hb & Hd).
    exists more. cbn in Hc, Hf, Hb, Hd.
    rewrite Hf, <- app_assoc. cbn. auto. }
  destruct outcome.
  - destruct Hturn as (more & Hf & Hc & Hb & Hd). exists more.
    rewrite Hc. repeat split; auto.
  - destruct Hturn as (more & Hf & Hc & Hb & Hd). exists more.
    rewrite Hc. repeat split; auto.
  - exists []. cbn. repeat split; auto; exists []; reflexivity.
Qed.

(** ** Metrics without a usable value *)

Section Staging.
Import Payload Ingest.
Context {N : JsNumber} {J : Repo.Json}.

Lemma stageMetrics_skip birth names d m rest acc :
  unusable names m ->
  stageMetrics birth names d (m :: rest) acc
  = stageMetrics birth names d rest acc.
Proof.
  intros [Hn | (v & Hv & Hnull)]; cbn [stageMetrics].
  - destruct (names m) as [[| c n] |]; try reflexivity. discriminate.
  - destruct (names m) as [[| c n] |]; try reflexivity.
    rewrite Hv, Hnull. reflexivity.
Qed.

Lemma stageMetrics_app birth names d ms1 :
  forall ms2 acc,
  stageMetrics birth names d (ms1 ++ ms2) acc
  = match stageMetrics birth names d ms1 acc with
    | Ok acc' => stageMetrics birth names d ms2 acc'
    | Throw e => Throw e
    end.
Proof.
  induction ms1 as [| m rest IH]; intros ms2 acc; [reflexivity |].
  cbn [app stageMetrics].
  destruct (names m) as [[| c n] |]; try apply IH.
  destruct (fst (Metrics.getMetricValue m)) as [val | e]; [| reflexivity].
  destruct (isNullish val); [apply IH |].
  destruct (Metrics.ts (timestamp m)); [apply IH | reflexivity].
Qed.

Lemma stageMetrics_remove birth names d before m after acc :
  unusable names m ->
  stageMetrics birth names d (before ++ m :: after) acc
  = stageMetrics birth names d (before ++ after) acc.
Proof.
  intros H. rewrite !stageMetrics_app.
  destruct (stageMetrics birth names d before acc); [| reflexivity].
  apply stageMetrics_skip, H.
Qed.

Lemma stageBatch_app batch1 :
  forall batch2 acc,
  stageBatch (batch1 ++ batch2) acc
  = match stageBatch batch1 acc with
    | Ok acc' => stageBatch batch2 acc'
    | Throw e => Throw e
    end.
Proof.
  induction batch1 as [| evt rest IH]; intros batch2 acc; [reflexivity |].
  cbn [app stageBatch]. destruct (stageEvent evt acc); [apply IH | reflexivity].
Qed.

(** The definitions a run of the inner loop registers come from metrics
    with a usable name and a value that is neither [null] nor
    [undefined]. *)
Lemma stageMetrics_registered names d ms :
  forall acc st,
  stageMetrics true names d ms acc = Ok st ->
  newDevices st = newDevices acc /\
  forall x, In x (newMetrics st) ->
    In x (newMetrics acc)
    \/ exists m n v,
         In m ms /\ names m = Some n /\ x = (d, n)
         /\ fst (Metrics.getMetricValue m) = Ok v /\ isNullish v = false.
Proof.
  induction ms as [| m rest IH]; intros acc st H; cbn [stageMetrics] in H.
  - injection H as <-. split; [reflexivity |]. intros x Hx. left. exact Hx.
  - assert (Hrest : forall acc',
              stageMetrics true names d rest acc' = Ok st ->
              newDevices acc' = newDevices acc ->
              (forall x, In x (newMetrics acc') -> In x (newMetrics acc) \/
                 exists m' n v, In m' (m :: rest) /\ names m' = Some n /\
                   x = (d, n) /\ fst (Metrics.getMetricValue m') = Ok v /\
                   isNullish v = false) ->
              newDevices st = newDevices acc /\
              forall x, In x (newMetrics st) -> In x (newMetrics acc) \/
                 exists m' n v, In m' (m :: rest) /\ names m' = Some n /\
                   x = (d, n) /\ fst (Metrics.getMetricValue m') = Ok v /\
                   isNullish v = false).
    { intros acc' H' Hd Hacc. destruct (IH acc' st H') as [Hd' Hm].
      split; [congruence |]. intros x Hx.
      destruct (Hm x Hx) as [Hin | (m' & n & v & Hin & Hrest)].
      - apply Hacc, Hin.
      - right. exists m', n, v. split; [right; exact Hin | exact Hrest]. }
    destruct (names m) as [[| c n] |] eqn:En;
      try (apply (Hrest acc H eq_refl); intros x Hx; left; exact Hx).
    destruct (fst (Metrics.getMetricValue m)) as [val | e] eqn:Ev;
      [| discriminate].
    destruct (isNullish val) eqn:Enull;
      [apply (Hrest acc H eq_refl); intros x Hx; left; exact Hx |].
    destruct (Metrics.ts (timestamp m)) as [tstamp | e]; [| discriminate].
    apply (Hrest _ H eq_refl). cbn [newMetrics]. intros x Hx.
    apply in_app_or in Hx. destruct Hx as [Hx | [<- | []]].
    + left. exact Hx.
    + right. exists m, (String c n), val.
      repeat split; auto. left. reflexivity.
Qed.

Lemma stageMetrics_update_registers_nothing names d ms :
  forall acc st,
  stageMetrics false names d ms acc = Ok st ->
  newDevices st = newDevices acc /\ newMetrics st = newMetrics acc.
Proof.
  induction ms as [| m rest IH]; intros acc st H; cbn [stageMetrics] in H.
  - injection H as <-. split; reflexivity.
  - destruct (names m) as [[| c n] |]; try (apply IH; exact H).
    destruct (fst (Metrics.getMetricValue m)) as [val | e]; [| discriminate].
    destruct (isNullish val); [apply IH; exact H |].
    destruct (Metrics.ts (timestamp m)) as [tstamp | e]; [| discriminate].
    apply IH in H. exact H.
Qed.

(** The same for a whole batch. *)
Lemma stageBatch_registered batch :
  forall acc st,
  stageBatch batch acc = Ok st ->
  forall x, In x (newMetrics st) ->
    In x (newMetrics acc)
    \/ exists evt m n v,
         In evt batch /\ e_type evt = DBIRTH
         /\ In m (metricsOf (e_payload evt))
         /\ Metrics.resolveMetricName m = Some n /\ snd x = n
         /\ fst (Metrics.getMetricValue m) = Ok v /\ isNullish v = false.
Proof.
  induction batch as [| evt rest IH]; intros acc st H x Hx; cbn [stageBatch] in H.
  - injection H as <-. left. exact Hx.
  - destruct (stageEvent evt acc) as [acc' | e] eqn:Ee; [| discriminate].
    destruct (IH acc' st H x Hx) as [Hin | (evt' & m & n & v & Hin & Hrest)].
    + unfold stageEvent in Ee. destruct (e_type evt) eqn:Et.
      * destruct (Topic.deviceId (Topic.parseCertificateTopic (e_topic evt)))
          as [[| c d] |]; try (injection Ee as <-; left; exact Hin).
        destruct (Metrics.ts (p_timestamp (e_payload evt))) as [birth | e];
          [| discriminate].
        destruct (stageMetrics_registered _ _ _ _ _ Ee) as [_ Hm].
        destruct (Hm x Hin) as [Hacc | (m & n & v & Hm1 & Hm2 & Hm3 & Hm4)].
        -- left. exact Hacc.
        -- right. exists evt, m, n, v. subst x.
           split; [left; reflexivity |]. split; [exact Et |].
           split; [exact Hm1 |]. split; [exact Hm2 |].
           split; [reflexivity | exact Hm4].
      * destruct (Topic.deviceId (Topic.parseTopic (e_topic evt)))
          as [[| c d] |]; try (injection Ee as <-; left; exact Hin).
        apply stageMetrics_update_registers_nothing in Ee.
        left. destruct Ee as [_ <-]. exact Hin.
    + right. exists evt', m, n, v. split; [right; exact Hin | exact Hrest].
Qed.

Lemma stageEvent_remove evt before m after acc :
  e_type evt = DBIRTH ->
  p_metrics (e_payload evt) = Some (before ++ m :: after) ->
  unusable Metrics.resolveMetricName m ->
  stageEvent evt acc = stageEvent (withMetrics evt (before ++ after)) acc.
Proof.
  intros Et Em Hm. unfold stageEvent. cbn [withMetrics e_type e_topic e_payload].
  rewrite Et. unfold metricsOf. cbn [p_metrics p_timestamp]. rewrite Em.
  destruct (Topic.deviceId (Topic.parseCertificateTopic (e_topic evt)))
    as [[| c d] |]; try reflexivity.
  destruct (Metrics.ts (p_timestamp (e_payload evt))); [| reflexivity].
  apply stageMetrics_remove, Hm.
Qed.

End Staging.

(** C7. When a batch is staged, a metric of a definition event whose name
    is unusable or whose value is [null] or [undefined] contributes no
    row: the staged devices, definitions and values are those of the same
    batch without that metric. And every definition that is staged has the
    resolved name of a metric of a definition event of the batch whose
    value is neither [null] nor [undefined]. *)
Theorem unusable_metric_not_registered :
  forall (N : JsNumber) (J : Repo.Json) batch1 evt batch2 before m after,
    Ingest.e_type evt = Ingest.DBIRTH ->
    Payload.p_metrics (Ingest.e_payload evt) = Some (before ++ m :: after) ->
    unusable Metrics.resolveMetricName m ->
    Ingest.stageBatch (batch1 ++ evt :: batch2) Ingest.noneStaged
    = Ingest.stageBatch
        (batch1 ++ withMetrics evt (before ++ after) :: batch2)
        Ingest.noneStaged
    /\ forall st,
         Ingest.stageBatch (batch1 ++ evt :: batch2) Ingest.noneStaged = Ok st ->
         forall device metric,
           In (device, metric) (Ingest.newMetrics st) ->
           exists evt' m' v,
             In evt' (batch1 ++ evt :: batch2)
             /\ Ingest.e_type evt' = Ingest.DBIRTH
             /\ In m' (Ingest.metricsOf (Ingest.e_payload evt'))
             /\ Metrics.resolveMetricName m' = Some metric
             /\ fst (Metrics.getMetricValue m') = Ok v
             /\ Payload.isNullish v = false.
Proof.
  intros N J batch1 evt batch2 before m after Et Em Hm. split.
  - rewrite !stageBatch_app.
    destruct (Ingest.stageBatch batch1 Ingest.noneStaged); [| reflexivity].
    cbn [Ingest.stageBatch].
    rewrite (stageEvent_remove evt before m after a Et Em Hm). reflexivity.
  - intros st Hst device metric Hin.
    destruct (stageBatch_registered _ _ _ Hst _ Hin)
      as [[] | (evt' & m' & n & v & H1 & H2 & H3 & H4 & H5 & H6 & H7)].
    cbn in H5. subst n. exists evt', m', v. repeat split; assumption.
Qed.

(** ** Transport messages: decode failures and compression *)

Section Transport.
Import Payload Client.
Context {N : JsNumber} {W : Wire}.

(** A message the codec rejects is dropped with one line at debug level. *)
Lemma undecodable_message_dropped topic message :
  decode message = None ->
  onTransportMessage topic message
  = (Dropped,
     [{| level := DEBUG;
         message := "Received message with unsupported payload version: "
                    ++ topic |}]).
Proof.
  intros H. unfold onTransportMessage, decodePayload. rewrite H. reflexivity.
Qed.

Lemma maybeDecompressPayload_compressed payload :
  p_uuid payload = Some compressed ->
  maybeDecompressPayload payload
  = match decompressPayload payload with
    | (Ok b, l) => (decodePayload b, l)
    | (Throw e, l) => (Throw e, l)
    end.
Proof. intros H. unfold maybeDecompressPayload. rewrite H. reflexivity. Qed.

(** Without an [algorithm] metric the body is inflated. *)
Lemma decompressPayload_default payload :
  find isAlgorithmMetric
    (match p_metrics payload with Some ms => ms | None => [] end) = None ->
  fst (decompressPayload payload)
  = orThrow "inflate"
      (inflate (match p_body payload with Some b => b | None => [] end)).
Proof. intros H. unfold decompressPayload. rewrite H. reflexivity. Qed.





End Transport.

(** C3, where the code departs from it. A message that decodes to a
    compressed envelope whose decompression raises, or whose body
    decompresses to bytes the codec rejects, is not dropped: the exception
    leaves the handler. *)
Theorem compressed_failure_escapes :
  forall (N : JsNumber) (W : Client.Wire) topic message decoded,
    Client.decode message = Some decoded ->
    Payload.p_uuid decoded = Some Client.compressed ->
    (forall b, fst (Client.decompressPayload decoded) = Ok b ->
               Client.decode b = None) ->
    exists e, fst (Client.onTransportMessage topic message) = Client.Escaped e.
Proof.
  intros N W topic message decoded Hd Hu Hfail.
  unfold Client.onTransportMessage, Client.decodePayload at 1. rewrite Hd.
  rewrite (maybeDecompressPayload_compressed decoded Hu).
  destruct (Client.decompressPayload decoded) as [[b | e] l] eqn:E.
  - unfold Client.decodePayload. rewrite (Hfail b eq_refl).
    eexists. reflexivity.
  - eexists. reflexivity.
Qed.


(** ** Stored values *)

Section StoredValues.

Lemma digit_not_space c : Js.isDigit c = true -> Js.isSpace c = false.
Proof.
  destruct c as [[|] [|] [|] [|] [|] [|] [|] [|]]; vm_compute; congruence.
Qed.

Lemma allDigits_noSpace s : Js.allDigits s = true -> noSpace s = true.
Proof.
  induction s as [| c r IH]; [reflexivity |]. cbn.
  intros H. apply andb_prop in H. destruct H as [Hc Hr].
  rewrite (digit_not_space c Hc), (IH Hr). reflexivity.
Qed.

Lemma digits1_noSpace s :
  forall seen rest,
  Js.digits1 s seen = Some rest -> noSpace rest = true -> noSpace s = true.
Proof.
  induction s as [| c r IH]; intros seen rest H Hrest; cbn in H.
  - reflexivity.
  - destruct (Js.isDigit c) eqn:Ec.
    + cbn. rewrite (digit_not_space c Ec). cbn. exact (IH _ _ H Hrest).
    + destruct seen; [| discriminate]. injection H as <-. exact Hrest.
Qed.

Lemma numeral_noSpace s : Js.isDecimalNumeral s = true -> noSpace s = true.
Proof.
  unfold Js.isDecimalNumeral. intros H.
  assert (Hu : forall u, 
            match Js.digits1 u false with
            | None => false
            | Some EmptyString => true
            | Some (String c frac) =>
                Ascii.eqb c "." &&
                match frac with
                | EmptyString => false
                | _ => Js.allDigits frac
                end
            end = true -> noSpace u = true).
  { intros u Hm. destruct (Js.digits1 u false) as [rest |] eqn:E;
      [| discriminate].
    apply (digits1_noSpace _ _ _ E).
    destruct rest as [| c frac]; [reflexivity |].
    apply andb_prop in Hm. destruct Hm as [Hc Hf].
    apply Ascii.eqb_eq in Hc. subst c. cbn.
    destruct frac; [discriminate |]. apply allDigits_noSpace, Hf. }
  destruct s as [| c r]; [discriminate |].
  destruct (Ascii.eqb c "+" || Ascii.eqb c "-") eqn:Es.
  - cbn. rewrite (Hu r H), andb_true_r.
    apply orb_prop in Es. destruct Es as [Es | Es];
      apply Ascii.eqb_eq in Es; subst c; reflexivity.
  - apply Hu, H.
Qed.

Lemma trimEnd_noSpace s : noSpace s = true -> Js.trimEnd s = s.
Proof.
  induction s as [| c r IH]; [reflexivity |]. cbn.
  intros H. apply andb_prop in H. destruct H as [Hc Hr].
  rewrite (IH Hr). apply negb_true_iff in Hc. rewrite Hc.
  destruct r; reflexivity.
Qed.

Lemma trim_noSpace s : noSpace s = true -> Js.trim s = s.
Proof.
  intros H. unfold Js.trim.
  assert (Hs : Js.trimStart s = s).
  { destruct s as [| c r]; [reflexivity |]. cbn in *.
    apply andb_prop in H. destruct H as [Hc _].
    apply negb_true_iff in Hc. rewrite Hc. reflexivity. }
  rewrite Hs. apply trimEnd_noSpace, H.
Qed.

Context {N : JsNumber} {J : Repo.Json}.

(** A decimal numeral in the [value] column is read back as the number it
    denotes, unless that is [NaN]. *)
Lemma parseStoredValue_numeral s :
  Js.isDecimalNumeral s = true ->
  Repo.parseStoredValue (Some s)
  = if negb (Number_isNaN (String_toNumber s))
    then Payload.VNumber (String_toNumber s) else Payload.VString s.
Proof.
  intros H. unfold Repo.parseStoredValue.
  rewrite (trim_noSpace s (numeral_noSpace s H)).
  destruct (String.eqb_spec s "true") as [-> | _]; [discriminate |].
  destruct (String.eqb_spec s "false") as [-> | _]; [discriminate |].
  rewrite H. reflexivity.
Qed.

End StoredValues.

(** The decimal rendering of the integers obeys the two laws. *)
#[export] Instance ZNumber_laws : JsNumberLaws ZNumber.
Proof.
  constructor.
  - intros z. cbn. rewrite NilEmpty.isi. apply DecimalZ.of_to.
  - intros s _. reflexivity.
Qed.

(** C9. Writing a value with [toStoredValue] and reading it back with
    [parseStoredValue] gives the value again for every boolean and for
    every number whose rendering is an optionally signed integer or
    decimal fraction. It does not for strings: the strings [true] and
    [false] come back as booleans and a string that is such a numeral
    comes back as a number. *)
Theorem stored_value_round_trip :
  forall (N : JsNumber) (L : JsNumberLaws N) (J : Repo.Json),
    (forall b, Repo.parseStoredValue (Repo.toStoredValue (Payload.VBoolean b))
               = Payload.VBoolean b)
    /\ (forall n, Js.isDecimalNumeral (Number_toString n) = true ->
          Repo.parseStoredValue (Repo.toStoredValue (Payload.VNumber n))
          = Payload.VNumber n)
    /\ Repo.parseStoredValue (Repo.toStoredValue (Payload.VString "true"))
       = Payload.VBoolean true
    /\ Repo.parseStoredValue (Repo.toStoredValue (Payload.VString "false"))
       = Payload.VBoolean false
    /\ (forall s, Js.isDecimalNumeral s = true ->
          Repo.parseStoredValue (Repo.toStoredValue (Payload.VString s))
          = Payload.VNumber (String_toNumber s)
          /\ Repo.parseStoredValue (Repo.toStoredValue (Payload.VString s))
             <> Payload.VString s).
Proof.
  intros N L J. split; [intros [|]; reflexivity |].
  split.
  { intros n H. cbn [Repo.toStoredValue].
    rewrite (parseStoredValue_numeral _ H).
    rewrite (numeral_not_NaN _ H), toNumber_toString. reflexivity. }
  split; [reflexivity |]. split; [reflexivity |].
  intros s H. cbn [Repo.toStoredValue].
  rewrite (parseStoredValue_numeral _ H), (numeral_not_NaN _ H).
  split; [reflexivity | discriminate].
Qed.

(** ** Status colors *)

Section StatusColors.
Import Repo Status.

Lemma leftJoin_In {A B} (on : A -> B -> bool) a b x :
  In x (leftJoin on a b) <->
  In (fst x) a /\
  match snd x with
  | Some y => In y b /\ on (fst x) y = true
  | None => forall y, In y b -> on (fst x) y = false
  end.
Proof.
  unfold leftJoin. rewrite in_flat_map. split.
  - intros (x0 & Hx0 & Hin).
    destruct (filter (on x0) b) as [| y0 ys] eqn:Ef.
    + destruct Hin as [<- | []]. cbn. split; [exact Hx0 |].
      intros y Hy. destruct (on x0 y) eqn:Eo; [| reflexivity].
      assert (Hf : In y (filter (on x0) b)) by (apply filter_In; auto).
      rewrite Ef in Hf. destruct Hf.
    + apply in_map_iff in Hin. destruct Hin as (y & <- & Hy). cbn.
      rewrite <- Ef in Hy. apply filter_In in Hy. auto.
  - destruct x as [x0 [y |]]; cbn.
    + intros (Hx0 & Hy & Ho). exists x0. split; [exact Hx0 |].
      assert (Hf : In y (filter (on x0) b)) by (apply filter_In; auto).
      destruct (filter (on x0) b) as [| y0 ys]; [destruct Hf |].
      exact (in_map (fun y => (x0, Some y)) _ _ Hf).
    + intros (Hx0 & Hnone). exists x0. split; [exact Hx0 |].
      destruct (filter (on x0) b) as [| y0 ys] eqn:Ef; [left; reflexivity |].
      assert (Hf : In y0 (filter (on x0) b)) by (rewrite Ef; left; reflexivity).
      apply filter_In in Hf. destruct Hf as [Hy0 Ho].
      rewrite (Hnone y0 Hy0) in Ho. discriminate.
Qed.

Lemma leftJoin_keeps_left {A B} (on : A -> B -> bool) a b x :
  In x a -> exists y, In (x, y) (leftJoin on a b).
Proof.
  intros Hx. destruct (filter (on x) b) as [| y0 ys] eqn:Ef.
  - exists None. apply leftJoin_In. cbn. split; [exact Hx |].
    intros y Hy. destruct (on x y) eqn:Eo; [| reflexivity].
    assert (Hf : In y (filter (on x) b)) by (apply filter_In; auto).
    rewrite Ef in Hf. destruct Hf.
  - exists (Some y0). apply leftJoin_In. cbn. split; [exact Hx |].
    assert (Hf : In y0 (filter (on x) b)) by (rewrite Ef; left; reflexivity).
    apply filter_In in Hf. exact Hf.
Qed.

Lemma maxTs_latest rows :
  latestOf (fun t => In (Some t) rows) (maxTs rows).
Proof.
  induction rows as [| [t |] rest IH]; cbn.
  - intros t [].
  - destruct (maxTs rest) as [u |]; cbn in *.
    + destruct IH as [Hu Hmax]. split.
      * destruct (Z.max_spec t u) as [[_ ->] | [_ ->]]; auto.
      * intros w [Hw | Hw]; [injection Hw as ->; lia |].
        specialize (Hmax w Hw). lia.
    + split; [left; reflexivity |].
      intros w [Hw | Hw]; [injection Hw as ->; lia |].
      destruct (IH w Hw).
  - destruct (maxTs rest) as [u |]; cbn in *.
    + destruct IH as [Hu Hmax]. split; [right; exact Hu |].
      intros w [Hw | Hw]; [discriminate | apply Hmax, Hw].
    + intros w [Hw | Hw]; [discriminate | apply (IH w Hw)].
Qed.

Lemma latestOf_iff (P Q : Z -> Prop) last :
  (forall t, P t <-> Q t) -> latestOf P last -> latestOf Q last.
Proof.
  intros H. destruct last as [t |]; cbn.
  - intros [Ht Hmax]. split; [apply H, Ht |].
    intros u Hu. apply Hmax, H, Hu.
  - intros Hn t Ht. apply (Hn t), H, Ht.
Qed.

Lemma statusQuery_spec onMetric zone t now input name :
  In name input ->
  NoDup (map fst (statusQuery onMetric zone t now input))
  /\ exists last,
       latestOf (recorded onMetric t name) last
       /\ forall c, In (name, c) (statusQuery onMetric zone t now input)
                    <-> c = caseStatus zone now last.
Proof.
  intros Hname. unfold statusQuery.
  set (on2 := fun (im : string * option MetricRow) (v : ValueRow) =>
                match snd im with
                | Some m => String.eqb (metric_id v) (id m)
                | None => false
                end).
  set (j1 := leftJoin onMetric input (device_metrics t)).
  set (joined := leftJoin on2 j1 (device_metric_values t)).
  set (rowsOf := fun i : string =>
                   map (fun r : string * option MetricRow * option ValueRow =>
                          option_map v_ts (snd r))
                     (filter (fun r => String.eqb (fst (fst r)) i) joined)).
  split.
  - rewrite map_map. cbn. rewrite map_id. apply NoDup_nodup.
  - exists (maxTs (rowsOf name)). split.
    + apply (latestOf_iff (fun ts => In (Some ts) (rowsOf name)));
        [| apply maxTs_latest].
      intros ts. unfold rowsOf, recorded. rewrite in_map_iff. split.
      * intros ([[i om] ov] & Hts & Hr). apply filter_In in Hr.
        destruct Hr as [Hr Hi]. cbn in Hi, Hts.
        apply String.eqb_eq in Hi. subst i.
        destruct ov as [v |]; [| discriminate]. cbn in Hts.
        injection Hts as <-.
        apply leftJoin_In in Hr. cbn in Hr. destruct Hr as (H1 & Hv & Ho).
        unfold on2 in Ho. cbn in Ho. destruct om as [m |]; [| discriminate].
        apply String.eqb_eq in Ho.
        apply leftJoin_In in H1. cbn in H1. destruct H1 as (_ & Hm & Hom).
        exists m, v. auto.
      * intros (m & v & Hm & Hom & Hv & Hid & Hts).
        exists ((name, Some m), Some v). split; [cbn; congruence |].
        apply filter_In. split; [| cbn; apply String.eqb_refl].
        apply leftJoin_In. cbn. split.
        -- apply leftJoin_In. cbn. auto.
        -- split; [exact Hv |]. unfold on2. cbn. apply String.eqb_eq, Hid.
    + intros c. rewrite in_map_iff. split.
      * intros (i & Hi & _). injection Hi as -> <-. reflexivity.
      * intros ->. exists name. split; [reflexivity |].
        apply nodup_In. apply in_map_iff.
        destruct (leftJoin_keeps_left onMetric input (device_metrics t) name Hname)
          as [om Hom].
        destruct (leftJoin_keeps_left on2 j1 (device_metric_values t) (name, om) Hom)
          as [ov Hov].
        exists ((name, om), ov). split; [reflexivity | exact Hov].
Qed.

End StatusColors.

(** C6, where the code departs from it. For a queried device, and for a
    queried metric of a device, the answer has one entry, and its color is
    the [case] of the latest timestamp among the values recorded for it
    (for a device: the values of its registered metrics): grey without a
    value, and otherwise green, yellow or red as the instant the session
    reads in that timestamp is from one day before the evaluation time
    on, from seven days before on, or before that. The timestamp is a UTC
    wall clock, so the bounds are those of the claim for a session in UTC
    only, where 23 hours before is green and 25 hours before is yellow; in
    a session [offset] ahead of UTC every bound is moved by [offset]: two
    hours east of UTC a value stamped 23 hours before is yellow, two hours
    west a value stamped 25 hours before is green. *)
Theorem status_color_by_latest_value :
  forall (zone : Status.TimeZone) (t : Repo.Tables) (now : Z)
         (device : string) (names : list string) (name : string),
    In name names ->
    (NoDup (map fst (Status.devicesStatus zone t now names))
     /\ exists last,
          latestOf
            (recorded (fun i m => String.eqb (Repo.m_device_name m) i) t name)
            last
          /\ forall c, In (name, c) (Status.devicesStatus zone t now names)
                       <-> c = Status.caseStatus zone now last)
    /\ (NoDup (map fst (Status.metricsStatus zone t now device names))
        /\ exists last,
             latestOf
               (recorded (fun i m => String.eqb (Repo.m_device_name m) device
                                     && String.eqb (Repo.metric_name m) i)
                  t name)
               last
             /\ forall c,
                  In (name, c) (Status.metricsStatus zone t now device names)
                  <-> c = Status.caseStatus zone now last)
    /\ Status.caseStatus zone now None = Status.grey
    /\ (forall last,
          (Status.daysBefore zone 1 now <= Status.instantOf zone last)%Z ->
          Status.caseStatus zone now (Some last) = Status.green)
    /\ (forall last,
          (Status.daysBefore zone 7 now <= Status.instantOf zone last
           < Status.daysBefore zone 1 now)%Z ->
          Status.caseStatus zone now (Some last) = Status.yellow)
    /\ (forall last,
          (Status.instantOf zone last < Status.daysBefore zone 1 now)%Z ->
          (Status.instantOf zone last < Status.daysBefore zone 7 now)%Z ->
          Status.caseStatus zone now (Some last) = Status.red)
    /\ (forall offset last,
          ((now + offset - Status.day <= last)%Z ->
           Status.caseStatus (Status.fixedOffset offset) now (Some last)
           = Status.green)
          /\ ((now + offset - 7 * Status.day <= last
                < now + offset - Status.day)%Z ->
              Status.caseStatus (Status.fixedOffset offset) now (Some last)
              = Status.yellow)
          /\ ((last < now + offset - 7 * Status.day)%Z ->
              Status.caseStatus (Status.fixedOffset offset) now (Some last)
              = Status.red))
    /\ Status.caseStatus Status.utc now (Some (now - 23 * Status.hour)%Z)
       = Status.green
    /\ Status.caseStatus Status.utc now (Some (now - 25 * Status.hour)%Z)
       = Status.yellow
    /\ Status.caseStatus (Status.fixedOffset (2 * Status.hour)) now
         (Some (now - 23 * Status.hour)%Z)
       = Status.yellow
    /\ Status.caseStatus (Status.fixedOffset (- (2 * Status.hour))) now
         (Some (now - 25 * Status.hour)%Z)
       = Status.green.
Proof.
  intros zone t now device names name Hname.
  assert (Hcase : forall offset last,
            ((now + offset - Status.day <= last)%Z ->
             Status.caseStatus (Status.fixedOffset offset) now (Some last)
             = Status.green)
            /\ ((now + offset - 7 * Status.day <= last
                  < now + offset - Status.day)%Z ->
                Status.caseStatus (Status.fixedOffset offset) now (Some last)
                = Status.yellow)
            /\ ((last < now + offset - 7 * Status.day)%Z ->
                Status.caseStatus (Status.fixedOffset offset) now (Some last)
                = Status.red)).
  { intros offset last. unfold Status.caseStatus, Status.fixedOffset.
    cbn [Status.instantOf Status.daysBefore]. unfold Status.day.
    destruct (Z.leb_spec (now - 1 * 86400000) (last - offset));
      destruct (Z.leb_spec (now - 7 * 86400000) (last - offset));
      repeat split; intros; try reflexivity; lia. }
  split.
  { unfold Status.devicesStatus. destruct names as [| n0 rest]; [destruct Hname |].
    apply statusQuery_spec, Hname. }
  split.
  { unfold Status.metricsStatus. destruct names as [| n0 rest]; [destruct Hname |].
    apply statusQuery_spec, Hname. }
  split; [reflexivity |].
  split.
  { intros last H. unfold Status.caseStatus.
    destruct (Z.leb_spec (Status.daysBefore zone 1 now)
                (Status.instantOf zone last)); [reflexivity | lia]. }
  split.
  { intros last H. unfold Status.caseStatus.
    destruct (Z.leb_spec (Status.daysBefore zone 1 now)
                (Status.instantOf zone last)); [lia |].
    destruct (Z.leb_spec (Status.daysBefore zone 7 now)
                (Status.instantOf zone last)); [reflexivity | lia]. }
  split.
  { intros last H1 H7. unfold Status.caseStatus.
    destruct (Z.leb_spec (Status.daysBefore zone 1 now)
                (Status.instantOf zone last)); [lia |].
    destruct (Z.leb_spec (Status.daysBefore zone 7 now)
                (Status.instantOf zone last)); [lia | reflexivity]. }
  split; [exact Hcase |].
  unfold Status.utc.
  repeat split; apply Hcase; unfold Status.day, Status.hour; lia.
Qed.

(* ===================================================================== *)
(** * The properties on concrete runs *)
(* ===================================================================== *)

(** The update was enqueued first and the definition second, both before
    the timer fired: the definition is drained and committed first. *)
Example definition_overtakes_update :
  map (map Ingest.event)
    (batches
       (stateAfter [Ingest.Enqueue dataOfDev1; Ingest.Enqueue birthOfDev1;
                    Ingest.TimerFires; Ingest.TransactionEnds Ingest.NoFault]))
  = [[birthOfDev1]; [dataOfDev1]].
Proof. vm_compute. reflexivity. Qed.

Lemma definitions_drained_before_updates_witness :
  Ingest.reachable definitionThenUpdate
  /\ exists k' b',
       k' < 1 /\ nth_error (batches definitionThenUpdate) k' = Some b'
       /\ In {| Ingest.arrival := 0; Ingest.event := birthOfDev1 |} b'.
Proof.
  assert (Hr : Ingest.reachable definitionThenUpdate).
  { exists emptyConn.
    exists [Ingest.Enqueue birthOfDev1; Ingest.Enqueue dataOfDev1;
            Ingest.TimerFires; Ingest.TransactionEnds Ingest.NoFault].
    split; [reflexivity | vm_compute; reflexivity]. }
  split; [exact Hr |].
  apply (definitions_drained_before_updates ZNumber ZJson definitionThenUpdate
           Hr 1 [{| Ingest.arrival := 1; Ingest.event := dataOfDev1 |}]
           {| Ingest.arrival := 1; Ingest.event := dataOfDev1 |}).
  - vm_compute. reflexivity.
  - left. reflexivity.
  - reflexivity.
  - cbn. lia.
  - vm_compute. reflexivity.
  - reflexivity.
Defined.

(** The insert of the values is refused after the device and the
    definition were written: the tables are empty as before. *)
Lemma failed_batch_leaves_no_row_witness :
  Repo.tables
    (Ingest.conn
       (Ingest.transactionEnds Ingest.FailInsertValues
          [{| Ingest.arrival := 0; Ingest.event := birthOfDev1 |}]
          stagedDefinition definitionRunning))
  = Repo.emptyTables.
Proof.
  destruct (failed_batch_leaves_no_row ZNumber ZJson Ingest.FailInsertValues
              definitionRunning
              (Ingest.transactionEnds Ingest.FailInsertValues
                 [{| Ingest.arrival := 0; Ingest.event := birthOfDev1 |}]
                 stagedDefinition definitionRunning)
              [{| Ingest.arrival := 0; Ingest.event := birthOfDev1 |}]
              stagedDefinition)
    as (outcome & more & _ & Hrb & Htables & _).
  - reflexivity.
  - vm_compute. reflexivity.
  - vm_compute. reflexivity.
  - rewrite Htables; [reflexivity |].
    rewrite (Hrb eq_refl). discriminate.
Defined.

(** The exception that leaves the handler on the envelope above. *)
Example unknown_algorithm_escapes :
  fst (Client.onTransportMessage (W := lz4Wire)
         "spBv1.0/sp_group/DDATA/node1/dev1" [Byte.x00])
  = Client.Escaped "Unknown or unsupported algorithm LZ4".
Proof. vm_compute. reflexivity. Qed.

Lemma compressed_failure_escapes_witness :
  exists e,
    fst (Client.onTransportMessage (W := lz4Wire)
           "spBv1.0/sp_group/DDATA/node1/dev1" [Byte.x00])
    = Client.Escaped e.
Proof.
  apply (compressed_failure_escapes ZNumber lz4Wire
           "spBv1.0/sp_group/DDATA/node1/dev1" [Byte.x00] lz4Envelope).
  - reflexivity.
  - reflexivity.
  - intros b H. vm_compute in H. discriminate H.
Defined.


(** The three envelopes of the reading on the wire, handed to the message
    handler: each is emitted as the reading the codec gives back. *)
Example reading_through_each_algorithm :
  forall options,
    In options [None; Some gzipOptions;
                Some {| Client.algorithm := Some "Deflate";
                        Client.compress := None |}] ->
    exists env,
      fst (Client.compressPayload (W := sampleWire)
             (Client.encode (Wire := sampleWire) reading) options) = Ok env
      /\ fst (Client.onTransportMessage (W := sampleWire)
                "spBv1.0/sp_group/DDATA/node1/dev1"
                (Client.encode (Wire := sampleWire) env))
         = Client.Emitted "spBv1.0/sp_group/DDATA/node1/dev1" readingDecoded
             (Topic.parseTopic "spBv1.0/sp_group/DDATA/node1/dev1").
Proof.
  intros options [<- | [<- | [<- | []]]]; eexists; split; reflexivity.
Qed.

(** In a session in UTC, 23 hours after the only value of the device the
    device is green, and 25 hours after it the metric is yellow. *)
Example status_after_23_hours :
  Status.devicesStatus Status.utc oneValueTables (1000 + 23 * Status.hour)
    ["dev1"; "dev2"]
  = [("dev1", Status.green); ("dev2", Status.grey)]
  /\ Status.metricsStatus Status.utc oneValueTables (1000 + 25 * Status.hour)
       "dev1" ["temperature"]
     = [("temperature", Status.yellow)].
Proof. vm_compute. split; reflexivity. Qed.

(** In a session two hours east of UTC the device and its metric are
    yellow 23 hours after the value already. *)
Example status_after_23_hours_east_of_utc :
  Status.devicesStatus (Status.fixedOffset (2 * Status.hour)) oneValueTables
    (1000 + 23 * Status.hour) ["dev1"; "dev2"]
  = [("dev1", Status.yellow); ("dev2", Status.grey)]
  /\ Status.metricsStatus (Status.fixedOffset (2 * Status.hour))
       oneValueTables (1000 + 23 * Status.hour) "dev1" ["temperature"]
     = [("temperature", Status.yellow)].
Proof. vm_compute. split; reflexivity. Qed.

(** The session is two hours east of UTC and the only value of the device
    was stamped 23 hours before the request. *)
Lemma status_color_by_latest_value_witness :
  In "dev1" ["dev1"; "dev2"]
  /\ NoDup (map fst (Status.devicesStatus (Status.fixedOffset (2 * Status.hour))
                       oneValueTables (1000 + 23 * Status.hour)
                       ["dev1"; "dev2"]))
  /\ exists last,
       latestOf
         (recorded (fun i m => String.eqb (Repo.m_device_name m) i)
            oneValueTables "dev1")
         last
       /\ forall c,
            In ("dev1", c)
              (Status.devicesStatus (Status.fixedOffset (2 * Status.hour))
                 oneValueTables (1000 + 23 * Status.hour) ["dev1"; "dev2"])
            <-> c = Status.caseStatus (Status.fixedOffset (2 * Status.hour))
                      (1000 + 23 * Status.hour) last.
Proof.
  split; [left; reflexivity |].
  apply (status_color_by_latest_value (Status.fixedOffset (2 * Status.hour))
           oneValueTables (1000 + 23 * Status.hour) "dev1"
           ["dev1"; "dev2"] "dev1").
  left. reflexivity.
Defined.

Lemma unusable_metric_not_registered_witness :
  Ingest.stageBatch ([] ++ birthOfDev1 :: [dataOfDev1]) Ingest.noneStaged
  = Ingest.stageBatch
      ([] ++ withMetrics birthOfDev1 ([] ++ [temperature 21]) :: [dataOfDev1])
      Ingest.noneStaged.
Proof.
  apply (unusable_metric_not_registered ZNumber ZJson [] birthOfDev1
           [dataOfDev1] [] installed [temperature 21]).
  - reflexivity.
  - reflexivity.
  - right. exists Payload.VNull. split; reflexivity.
Defined.

Lemma stored_value_round_trip_witness :
  Js.isDecimalNumeral (Number_toString (JsNumber := ZNumber) (-42)%Z) = true
  /\ Repo.parseStoredValue
       (Repo.toStoredValue (Payload.VNumber (N := ZNumber) (-42)%Z))
     = Payload.VNumber (-42)%Z.
Proof.
  split; [reflexivity |].
  apply (stored_value_round_trip ZNumber ZNumber_laws ZJson).
  reflexivity.
Defined.

(** What comes back from the [value] column. *)
Example stored_values_read_back :
  Repo.parseStoredValue (N := ZNumber) (Some " true ") = Payload.VBoolean true
  /\ Repo.parseStoredValue (N := ZNumber) (Some " -17 ") = Payload.VNumber (-17)%Z
  /\ Repo.parseStoredValue (N := ZNumber) (Some "1e5") = Payload.VString "1e5"
  /\ Repo.parseStoredValue (N := ZNumber) None = Payload.VNull.
Proof. vm_compute. repeat split. Qed.

(** The definition batch is rolled back and the update batch that follows
    is committed: the tables hold the value of the update alone. *)
Example update_committed_after_rollback :
  map snd
    (Ingest.finished
       (stateAfter [Ingest.Enqueue birthOfDev1; Ingest.Enqueue dataOfDev1;
                    Ingest.TimerFires;
                    Ingest.TransactionEnds Ingest.FailInsertMetrics;
                    Ingest.TransactionEnds Ingest.NoFault]))
  = [Ingest.RolledBack; Ingest.Committed]
  /\ Repo.tables
       (Ingest.conn
          (stateAfter [Ingest.Enqueue birthOfDev1; Ingest.Enqueue dataOfDev1;
                       Ingest.TimerFires;
                       Ingest.TransactionEnds Ingest.FailInsertMetrics;
                       Ingest.TransactionEnds Ingest.NoFault]))
     = {| Repo.devices := [];
          Repo.device_metrics := [];
          Repo.device_metric_values :=
            [{| Repo.metric_id := "dev1/temperature"; Repo.v_ts := 1000%Z;
                Repo.v_value := Some "22"; Repo.from_birth := false |}] |}.
Proof. vm_compute. split; reflexivity. Qed.

(* ===================================================================== *)
(** * Further properties *)
(* ===================================================================== *)

(** ** Topics and their segments *)

Section TopicSegments.

Lemma split_segment (x : string) :
  forall r, noSlash x = true ->
  Js.split (x ++ String "/" r)%string = x :: Js.split r.
Proof.
  induction x as [| c x IH]; intros r H; cbn in *.
  - reflexivity.
  - apply andb_prop in H. destruct H as [Hc Hx].
    apply negb_true_iff in Hc. rewrite Hc, (IH r Hx). reflexivity.
Qed.

Lemma split_one (x : string) : noSlash x = true -> Js.split x = [x].
Proof.
  induction x as [| c x IH]; intros H; cbn in *; [reflexivity |].
  apply andb_prop in H. destruct H as [Hc Hx].
  apply negb_true_iff in Hc. rewrite Hc, (IH Hx). reflexivity.
Qed.

Lemma split_not_nil (s : string) : Js.split s <> [].
Proof.
  destruct s as [| c r]; cbn; [discriminate |].
  destruct (Ascii.eqb c "/"); [discriminate |].
  destruct (Js.split r); discriminate.
Qed.

Lemma split_noSlash (s : string) : Forall (fun p => noSlash p = true) (Js.split s).
Proof.
  induction s as [| c r IH]; cbn.
  - constructor; [reflexivity | constructor].
  - destruct (Ascii.eqb c "/") eqn:Ec.
    + constructor; [reflexivity | exact IH].
    + destruct (Js.split r) as [| h t]; inversion IH; subst.
      * constructor; [cbn; rewrite Ec; reflexivity | constructor].
      * constructor; [cbn; rewrite Ec; assumption | assumption].
Qed.

Lemma join_cons (x : string) (y : string) (rest : list string) :
  Js.join (x :: y :: rest) = (x ++ String "/" (Js.join (y :: rest)))%string.
Proof. reflexivity. Qed.

Lemma join_split (s : string) : Js.join (Js.split s) = s.
Proof.
  induction s as [| c r IH]; [reflexivity |]. cbn [Js.split].
  pose proof (split_not_nil r) as Hne.
  destruct (Ascii.eqb_spec c "/") as [-> | Hc].
  - destruct (Js.split r) as [| h t]; [congruence |].
    rewrite join_cons, IH. reflexivity.
  - destruct (Js.split r) as [| h t]; [congruence |].
    destruct t as [| h' t'].
    + cbn in IH |- *. rewrite IH. reflexivity.
    + rewrite join_cons in IH. rewrite join_cons, <- IH. reflexivity.
Qed.

Lemma split_join (parts : list string) :
  parts <> [] -> Forall (fun p => noSlash p = true) parts ->
  Js.split (Js.join parts) = parts.
Proof.
  induction parts as [| x rest IH]; intros Hne H; [congruence |].
  inversion H as [| ? ? Hx Hrest]; subst.
  destruct rest as [| y rest'].
  - cbn. apply split_one, Hx.
  - rewrite join_cons, (split_segment x _ Hx), IH; [reflexivity | discriminate | exact Hrest].
Qed.

Lemma deviceId_noSlash topic d :
  Topic.deviceId (Topic.parseTopic topic) = Some d -> noSlash d = true.
Proof.
  intros Hd. unfold Topic.parseTopic in Hd.
  cbn [Topic.deviceId] in Hd.
  destruct (5 <=? List.length (Js.split topic))%nat; [| discriminate Hd].
  apply nth_error_In in Hd.
  pose proof (split_noSlash topic) as Hall.
  rewrite Forall_forall in Hall. apply Hall, Hd.
Qed.

End TopicSegments.

(** X1. [parseCertificateTopic] drops exactly the first two segments: a
    topic made of two segments, a slash and a rest parses as the rest
    does. *)
Theorem certificate_prefix_dropped :
  forall a b rest,
    noSlash a = true -> noSlash b = true ->
    Topic.parseCertificateTopic (a ++ String "/" (b ++ String "/" rest))%string
    = Topic.parseTopic rest.
Proof.
  intros a b rest Ha Hb. unfold Topic.parseCertificateTopic.
  rewrite (split_segment a _ Ha), (split_segment b _ Hb).
  unfold Js.slice. cbn [skipn]. rewrite join_split. reflexivity.
Qed.

Lemma certificate_prefix_dropped_witness :
  Topic.parseCertificateTopic
    ("spBv1.0" ++ String "/" ("sp_group" ++ String "/" "STATE/c/DBIRTH/n/d"))%string
  = Topic.parseTopic "STATE/c/DBIRTH/n/d".
Proof.
  apply (certificate_prefix_dropped "spBv1.0" "sp_group" "STATE/c/DBIRTH/n/d");
    reflexivity.
Defined.

(** X2. [parseTopic] reads the fields off the segments: for segments
    without slash joined by slashes, the first four fields are the first
    four segments, the device is the fifth segment when there is one, and
    the residual list is what follows the fifth. The device of any topic
    has no slash in it. *)
Theorem topic_fields_are_segments :
  forall parts,
    parts <> [] -> Forall (fun p => noSlash p = true) parts ->
    Topic.parseTopic (Js.join parts)
    = {| Topic.namespace := nth_error parts 0;
         Topic.groupId := nth_error parts 1;
         Topic.messageType := nth_error parts 2;
         Topic.edgeNodeId := nth_error parts 3;
         Topic.deviceId := nth_error parts 4;
         Topic.otherParts := skipn 5 parts |}
    /\ forall topic d,
         Topic.deviceId (Topic.parseTopic topic) = Some d -> noSlash d = true.
Proof.
  intros parts Hne H. split.
  - unfold Topic.parseTopic. rewrite (split_join parts Hne H).
    unfold Js.slice. f_equal.
    + destruct (Nat.leb_spec 5 (List.length parts)); [reflexivity |].
      symmetry. apply nth_error_None. lia.
    + destruct (Nat.ltb_spec 5 (List.length parts)); [reflexivity |].
      symmetry. apply skipn_all2. lia.
  - intros topic d Hd. apply (deviceId_noSlash topic d Hd).
Qed.

Lemma topic_fields_are_segments_witness :
  Topic.deviceId
    (Topic.parseTopic (Js.join ["spBv1.0"; "g"; "DDATA"; "n"; "d"; "x"]))
  = Some "d".
Proof.
  destruct (topic_fields_are_segments ["spBv1.0"; "g"; "DDATA"; "n"; "d"; "x"])
    as [H _].
  - discriminate.
  - repeat constructor.
  - rewrite H. reflexivity.
Defined.

(** ** The statements of the repositories *)

Section Statements.
Import Repo.

Lemma upsertDeviceRow_names d rows :
  map device_name (upsertDeviceRow d rows)
  = if existsb (fun r => String.eqb (device_name r) (device_name d)) rows
    then map device_name rows
    else map device_name rows ++ [device_name d].
Proof.
  induction rows as [| r rest IH]; cbn; [reflexivity |].
  destruct (String.eqb (device_name r) (device_name d)) eqn:E; cbn.
  - reflexivity.
  - rewrite IH.
    destruct (existsb (fun r0 => String.eqb (device_name r0) (device_name d)) rest);
      reflexivity.
Qed.

Lemma findDevice_upsert_same d rows :
  findDevice (device_name d) (upsertDeviceRow d rows)
  = Some {| device_name := device_name d;
            topic := topic d;
            birth_timestamp :=
              match birth_timestamp d with
              | Some t => Some t
              | None =>
                  match findDevice (device_name d) rows with
                  | Some old => birth_timestamp old
                  | None => None
                  end
              end |}.
Proof.
  unfold findDevice. induction rows as [| r rest IH]; cbn.
  - rewrite String.eqb_refl. destruct d as [n tp [b |]]; reflexivity.
  - destruct (String.eqb_spec (device_name r) (device_name d)) as [E | E]; cbn.
    + rewrite E, String.eqb_refl. reflexivity.
    + destruct (String.eqb_spec (device_name r) (device_name d)); [congruence |].
      exact IH.
Qed.

Lemma findDevice_upsert_other d rows n :
  n <> device_name d ->
  findDevice n (upsertDeviceRow d rows) = findDevice n rows.
Proof.
  intros Hn. unfold findDevice. induction rows as [| r rest IH]; cbn.
  - destruct (String.eqb_spec (device_name d) n); [congruence | reflexivity].
  - destruct (String.eqb_spec (device_name r) (device_name d)) as [E | E]; cbn.
    + destruct (String.eqb_spec (device_name r) n); [congruence | reflexivity].
    + destruct (String.eqb (device_name r) n); [reflexivity | exact IH].
Qed.

Lemma existsb_name_In n rows :
  existsb (fun r => String.eqb (device_name r) n) rows = true
  <-> In n (map device_name rows).
Proof.
  rewrite existsb_exists, in_map_iff. split.
  - intros (r & Hr & E). apply String.eqb_eq in E. exists r. auto.
  - intros (r & E & Hr). exists r. split; [exact Hr |].
    apply String.eqb_eq, E.
Qed.

Lemma insertMetricRows_prefix new :
  forall rows, exists added, insertMetricRows new rows = rows ++ added.
Proof.
  induction new as [| r rest IH]; intros rows; cbn.
  - exists []. rewrite app_nil_r. reflexivity.
  - destruct (hasMetric (id r) rows).
    + apply IH.
    + destruct (IH (rows ++ [r])) as [added H].
      exists (r :: added). rewrite H, <- app_assoc. reflexivity.
Qed.

Lemma hasMetric_In i rows :
  hasMetric i rows = true <-> In i (map id rows).
Proof.
  unfold hasMetric. rewrite existsb_exists, in_map_iff. split.
  - intros (r & Hr & E). apply String.eqb_eq in E. exists r. auto.
  - intros (r & E & Hr). exists r. split; [exact Hr |].
    apply String.eqb_eq, E.
Qed.

Lemma hasMetric_app i rows more :
  hasMetric i rows = true -> hasMetric i (rows ++ more) = true.
Proof.
  rewrite !hasMetric_In, map_app, in_app_iff. auto.
Qed.

Lemma insertMetricRows_NoDup new :
  forall rows, NoDup (map id rows) ->
  NoDup (map id (insertMetricRows new rows)).
Proof.
  induction new as [| r rest IH]; intros rows H; cbn; [exact H |].
  destruct (hasMetric (id r) rows) eqn:E; [apply IH, H |].
  apply IH. rewrite map_app. cbn.
  apply NoDup_app; [exact H | apply NoDup_cons; [intros [] | apply NoDup_nil] |].
  intros i Hi [<- | []].
  apply hasMetric_In in Hi. congruence.
Qed.

Lemma insertMetricRows_keeps new i :
  forall rows, hasMetric i rows = true ->
  hasMetric i (insertMetricRows new rows) = true.
Proof.
  intros rows H. destruct (insertMetricRows_prefix new rows) as [added ->].
  apply hasMetric_app, H.
Qed.

Lemma insertMetricRows_has new :
  forall rows r, In r new -> hasMetric (id r) (insertMetricRows new rows) = true.
Proof.
  induction new as [| r0 rest IH]; intros rows r Hin; [destruct Hin |].
  destruct Hin as [<- | Hr]; cbn.
  - destruct (hasMetric (id r0) rows) eqn:E.
    + apply insertMetricRows_keeps, E.
    + apply insertMetricRows_keeps. apply hasMetric_In.
      rewrite map_app, in_app_iff. right. left. reflexivity.
  - apply IH, Hr.
Qed.

Lemma insertMetricRows_known new :
  forall rows, (forall r, In r new -> hasMetric (id r) rows = true) ->
  insertMetricRows new rows = rows.
Proof.
  induction new as [| r rest IH]; intros rows H; cbn; [reflexivity |].
  rewrite (H r (or_introl eq_refl)). apply IH.
  intros r' Hr'. apply H. right. exact Hr'.
Qed.

Lemma insertMetricRows_idempotent new rows :
  insertMetricRows new (insertMetricRows new rows) = insertMetricRows new rows.
Proof.
  apply insertMetricRows_known. intros r Hr. apply insertMetricRows_has, Hr.
Qed.

Lemma dedupe_ids records :
  forall seen,
  NoDup (map id (dedupe seen records))
  /\ (forall i, In i (map id (dedupe seen records)) -> ~ In i seen)
  /\ (forall d m, In (d, m) records ->
        In (metricId d m) seen \/ In (metricId d m) (map id (dedupe seen records))).
Proof.
  induction records as [| [d0 m0] rest IH]; intros seen; cbn.
  - split; [constructor |]. split; [intros i [] | intros d m []].
  - destruct (existsb (String.eqb (metricId d0 m0)) seen) eqn:E.
    + destruct (IH seen) as (H1 & H2 & H3).
      split; [exact H1 |]. split; [exact H2 |].
      intros d m [Hd | Hd]; [| apply H3, Hd].
      injection Hd as <- <-. left.
      apply existsb_exists in E. destruct E as (x & Hx & Ex).
      apply String.eqb_eq in Ex. subst x. exact Hx.
    + destruct (IH (metricId d0 m0 :: seen)) as (H1 & H2 & H3). cbn.
      split.
      { constructor; [| exact H1]. intros Hin. apply (H2 _ Hin). left. reflexivity. }
      split.
      { intros i [<- | Hi] Hs.
        - assert (Hex : existsb (String.eqb (metricId d0 m0)) seen = true).
          { apply existsb_exists. exists (metricId d0 m0).
            split; [exact Hs | apply String.eqb_refl]. }
          congruence.
        - apply (H2 _ Hi). right. exact Hs. }
      intros d m [Hd | Hd].
      * injection Hd as <- <-. right. left. reflexivity.
      * destruct (H3 d m Hd) as [[<- | Hs] | Hi]; auto.
Qed.

End Statements.

(** X3. The upsert of a device leaves one row for its name, with the new
    topic and the new birth timestamp, or the old timestamp when the new
    one is [NULL]; every other device is as before, names stay unique and
    no name leaves the table. *)
Theorem device_upsert_effect :
  forall d rows,
    findDevice (Repo.device_name d) (Repo.upsertDeviceRow d rows)
    = Some {| Repo.device_name := Repo.device_name d;
              Repo.topic := Repo.topic d;
              Repo.birth_timestamp :=
                match Repo.birth_timestamp d with
                | Some t => Some t
                | None =>
                    match findDevice (Repo.device_name d) rows with
                    | Some old => Repo.birth_timestamp old
                    | None => None
                    end
                end |}
    /\ (forall n, n <> Repo.device_name d ->
          findDevice n (Repo.upsertDeviceRow d rows) = findDevice n rows)
    /\ (NoDup (map Repo.device_name rows) ->
        NoDup (map Repo.device_name (Repo.upsertDeviceRow d rows)))
    /\ (forall n, In n (map Repo.device_name rows) ->
          In n (map Repo.device_name (Repo.upsertDeviceRow d rows))).
Proof.
  intros d rows.
  split; [apply findDevice_upsert_same |].
  split; [intros n Hn; apply findDevice_upsert_other, Hn |].
  rewrite upsertDeviceRow_names.
  destruct (existsb (fun r => String.eqb (Repo.device_name r) (Repo.device_name d)) rows)
    eqn:E.
  - split; auto.
  - split.
    + intros H.
      apply NoDup_app; [exact H | apply NoDup_cons; [intros [] | apply NoDup_nil] |].
      intros n Hn [<- | []].
      apply existsb_name_In in Hn. congruence.
    + intros n Hn. apply in_or_app. left. exact Hn.
Qed.

(** X4. [DeviceMetricRepository.insertMany] never touches a definition that
    is there: the old rows stay first and unchanged, ids stay unique, every
    record of the call has its id in the table afterwards, and the same
    call again changes nothing. *)
Theorem definitions_insert_effect :
  forall records rows,
    let rows' := Repo.insertMetricRows (Repo.dedupe [] records) rows in
    (exists added, rows' = rows ++ added)
    /\ (NoDup (map Repo.id rows) -> NoDup (map Repo.id rows'))
    /\ (forall d m, In (d, m) records ->
          Repo.hasMetric (Repo.metricId d m) rows' = true)
    /\ Repo.insertMetricRows (Repo.dedupe [] records) rows' = rows'.
Proof.
  intros records rows rows'. subst rows'.
  split; [apply insertMetricRows_prefix |].
  split; [apply insertMetricRows_NoDup |].
  split; [| apply insertMetricRows_idempotent].
  intros d m Hin.
  destruct (dedupe_ids records []) as (_ & _ & H).
  destruct (H d m Hin) as [[] | Hi].
  apply in_map_iff in Hi. destruct Hi as (r & <- & Hr).
  apply insertMetricRows_has, Hr.
Qed.

(** ** What a batch leaves in the tables *)

Section CommitEffect.
Import Ingest.
Context {N : JsNumber} {J : Repo.Json}.

Lemma valueRows_pure values c :
  valueRows values c
  = (match rowsOfValues values with
     | Some rows => Ok rows
     | None => Throw "RangeError: Invalid time value"
     end, c).
Proof.
  induction values as [| v rest IH]; [reflexivity |].
  cbn [valueRows rowsOfValues]. unfold bind, toISOString.
  destruct (ts v) as [t |]; cbn; [| reflexivity].
  rewrite IH. destruct (rowsOfValues rest); reflexivity.
Qed.

Lemma upsertAll_ok f ds :
  forall k c c' u,
  upsertAll f k ds c = (Ok u, c') ->
  exists rows,
    deviceRows ds = Some rows
    /\ Repo.tables c'
       = fold_left (fun t d => Repo.sqlUpsertDevice d t) rows (Repo.tables c)
    /\ Repo.snapshot c' = Repo.snapshot c.
Proof.
  induction ds as [| d rest IH]; intros k c c' u H; cbn [upsertAll] in H.
  - injection H as _ <-. exists []. repeat split.
  - unfold bind at 1 in H. unfold upsert, bind, toISOString, run in H.
    cbn [deviceRows].
    destruct (birthTimestamp d) as [t |]; cbn in H; [| discriminate].
    destruct (isFailUpsert f k); [discriminate |].
    destruct (IH _ _ _ _ H) as (rows & Hr & Ht & Hs).
    rewrite Hr. eexists. split; [reflexivity |]. split; [exact Ht | exact Hs].
Qed.

Lemma upsertAll_accepted f ds :
  forall k c rows,
  deviceRows ds = Some rows ->
  (forall j, k <= j < k + List.length ds -> isFailUpsert f j = false) ->
  exists c', upsertAll f k ds c = (Ok tt, c').
Proof.
  induction ds as [| d rest IH]; intros k c rows Hr Hf; cbn [upsertAll].
  - eexists. reflexivity.
  - cbn [deviceRows] in Hr.
    destruct (birthTimestamp d) as [t |] eqn:Et; [| discriminate].
    destruct (deviceRows rest) as [rows' |] eqn:Er; [| discriminate].
    unfold bind at 1. unfold upsert, bind, toISOString, run. rewrite Et. cbn.
    rewrite (Hf k) by (cbn; lia).
    apply (IH (S k) _ rows' eq_refl). intros j Hj. apply Hf. cbn. lia.
Qed.

(** The tables at the end of a [try] block that did not raise. *)
Lemma transactionBody_ok f st c c' u :
  transactionBody f st c = (Ok u, c') ->
  exists ds rows,
    deviceRows (newDevices st) = Some ds
    /\ rowsOfValues (metricValues st) = Some rows
    /\ Repo.tables c' = applied ds (newMetrics st) rows (Repo.tables c).
Proof.
  unfold transactionBody. unfold bind at 1.
  destruct (upsertAll f 0 (newDevices st) c) as [[[] | e] c1] eqn:E1;
    [| discriminate].
  destruct (upsertAll_ok _ _ _ _ _ _ E1) as (ds & Hds & Ht1 & _).
  unfold bind at 1.
  destruct (insertManyMetrics f (newMetrics st) c1) as [[[] | e] c2] eqn:E2;
    [| discriminate].
  unfold bind at 1.
  destruct (insertManyValues f (metricValues st) c2) as [[[] | e] c3] eqn:E3;
    [| discriminate].
  intros Hc. exists ds.
  assert (H2 : Repo.devices (Repo.tables c2) = Repo.devices (Repo.tables c1)
               /\ Repo.device_metrics (Repo.tables c2)
                  = Repo.insertMetricRows (Repo.dedupe [] (newMetrics st))
                      (Repo.device_metrics (Repo.tables c1))
               /\ Repo.device_metric_values (Repo.tables c2)
                  = Repo.device_metric_values (Repo.tables c1)).
  { unfold insertManyMetrics in E2. destruct (newMetrics st) as [| r rs].
    - injection E2 as <-. repeat split.
    - unfold run in E2. destruct f; try discriminate;
        injection E2 as <-; repeat split. }
  assert (H3 : exists rows,
               rowsOfValues (metricValues st) = Some rows
               /\ Repo.devices (Repo.tables c3) = Repo.devices (Repo.tables c2)
               /\ Repo.device_metrics (Repo.tables c3)
                  = Repo.device_metrics (Repo.tables c2)
               /\ Repo.device_metric_values (Repo.tables c3)
                  = Repo.device_metric_values (Repo.tables c2) ++ rows).
  { unfold insertManyValues in E3. destruct (metricValues st) as [| v vs] eqn:Ev.
    - injection E3 as <-. exists []. rewrite app_nil_r. repeat split.
    - unfold bind in E3. rewrite valueRows_pure in E3.
      destruct (rowsOfValues (v :: vs)) as [rows |]; [| discriminate].
      exists rows. unfold run in E3.
      destruct f; try discriminate; injection E3 as <-; repeat split. }
  destruct H3 as (rows & Hrows & H3a & H3b & H3c). exists rows.
  split; [exact Hds |]. split; [exact Hrows |].
  assert (Ht3 : Repo.tables c' = Repo.tables c3).
  { unfold commit in Hc. destruct f; try discriminate; injection Hc as _ <-;
      reflexivity. }
  rewrite Ht3. unfold applied. rewrite <- Ht1.
  destruct H2 as (H2a & H2b & H2c).
  destruct (Repo.tables c3) as [d3 m3 v3]. cbn in *.
  rewrite H3a, H3b, H3c, H2a, H2b, H2c. reflexivity.
Qed.

Lemma fold_upsert_fields ds :
  forall t,
  Repo.device_metrics (fold_left (fun t d => Repo.sqlUpsertDevice d t) ds t)
  = Repo.device_metrics t
  /\ Repo.device_metric_values
       (fold_left (fun t d => Repo.sqlUpsertDevice d t) ds t)
     = Repo.device_metric_values t
  /\ (forall n, In n (map Repo.device_name (Repo.devices t)) ->
        In n (map Repo.device_name
                (Repo.devices
                   (fold_left (fun t d => Repo.sqlUpsertDevice d t) ds t))))
  /\ (forall d, In d ds ->
        In (Repo.device_name d)
           (map Repo.device_name
              (Repo.devices
                 (fold_left (fun t d => Repo.sqlUpsertDevice d t) ds t)))).
Proof.
  induction ds as [| d rest IH]; intros t; cbn [fold_left].
  - repeat split; auto. intros d [].
  - destruct (IH (Repo.sqlUpsertDevice d t)) as (H1 & H2 & H3 & H4).
    assert (Hkeep : forall n, In n (map Repo.device_name (Repo.devices t)) ->
              In n (map Repo.device_name
                      (Repo.devices (Repo.sqlUpsertDevice d t)))).
    { intros n Hn. cbn. rewrite upsertDeviceRow_names.
      destruct (existsb _ (Repo.devices t)); [exact Hn |].
      apply in_or_app. left. exact Hn. }
    split; [exact H1 |]. split; [exact H2 |]. split.
    + intros n Hn. apply H3, Hkeep, Hn.
    + intros d' [<- | Hd']; [| apply H4, Hd'].
      apply H3. cbn. rewrite upsertDeviceRow_names.
      destruct (existsb _ (Repo.devices t)) eqn:E.
      * apply existsb_name_In, E.
      * apply in_or_app. right. left. reflexivity.
Qed.






End CommitEffect.

(** X5. A batch is committed exactly when [BEGIN] is accepted, no
    statement the transaction sends is refused and every staged date is
    valid; the tables are then those of before with the devices upserted
    in order, the definitions inserted where their id is new, and one
    value row appended per staged value, in order. *)
Theorem committed_batch_effect :
  forall (N : JsNumber) (J : Repo.Json) f st c,
    (fst (Ingest.commitBatch f st c) = Ingest.Committed ->
     exists ds rows,
       deviceRows (Ingest.newDevices st) = Some ds
       /\ rowsOfValues (Ingest.metricValues st) = Some rows
       /\ Repo.tables (snd (Ingest.commitBatch f st c))
          = applied ds (Ingest.newMetrics st) rows (Repo.tables c))
    /\ (forall ds rows,
          deviceRows (Ingest.newDevices st) = Some ds ->
          rowsOfValues (Ingest.metricValues st) = Some rows ->
          strikes f st = false -> f <> Ingest.FailBegin ->
          fst (Ingest.commitBatch f st c) = Ingest.Committed).
Proof.
  intros N J f st c. split.
  - intros H. unfold Ingest.commitBatch in *.
    destruct f; try discriminate;
      destruct (Ingest.transactionBody _ st (Repo.beginTransaction c))
        as [[u | e] c'] eqn:E; try discriminate;
      apply (transactionBody_ok _ _ _ _ _ E).
  - intros ds rows Hds Hrows Hs Hf.
    assert (Hup : forall k, exists c1,
              Ingest.upsertAll f 0 (Ingest.newDevices st) k = (Ok tt, c1)).
    { intros k. apply (upsertAll_accepted f _ 0 k ds Hds).
      intros j Hj. destruct f; try reflexivity. cbn in Hs |- *.
      apply Nat.ltb_ge in Hs. apply Nat.eqb_neq. lia. }
    unfold Ingest.commitBatch.
    assert (Hbody : exists c',
              Ingest.transactionBody f st (Repo.beginTransaction c) = (Ok tt, c')).
    { unfold Ingest.transactionBody. unfold Ingest.bind at 1.
      destruct (Hup (Repo.beginTransaction c)) as [c1 ->].
      unfold Ingest.bind at 1.
      assert (Hm : exists c2,
                Ingest.insertManyMetrics f (Ingest.newMetrics st) c1 = (Ok tt, c2)).
      { unfold Ingest.insertManyMetrics.
        destruct (Ingest.newMetrics st) eqn:Em; [eexists; reflexivity |].
        unfold Ingest.run. destruct f; try (eexists; reflexivity).
        cbn in Hs. rewrite Em in Hs. discriminate. }
      destruct Hm as [c2 ->]. unfold Ingest.bind at 1.
      assert (Hv : exists c3,
                Ingest.insertManyValues f (Ingest.metricValues st) c2 = (Ok tt, c3)).
      { unfold Ingest.insertManyValues.
        destruct (Ingest.metricValues st) eqn:Ev; [eexists; reflexivity |].
        unfold Ingest.bind. rewrite valueRows_pure, Hrows.
        unfold Ingest.run. destruct f; try (eexists; reflexivity).
        cbn in Hs. rewrite Ev in Hs. discriminate. }
      destruct Hv as [c3 ->]. unfold Ingest.commit.
      destruct f; try (eexists; reflexivity). discriminate. }
    destruct Hbody as [c' Hb].
    destruct f; try congruence; rewrite Hb; reflexivity.
Qed.

Lemma committed_batch_effect_witness :
  fst (Ingest.commitBatch Ingest.NoFault stagedDefinition emptyConn)
  = Ingest.Committed.
Proof.
  destruct (committed_batch_effect ZNumber ZJson Ingest.NoFault stagedDefinition
              emptyConn) as [_ H].
  eapply H.
  - vm_compute. reflexivity.
  - vm_compute. reflexivity.
  - reflexivity.
  - discriminate.
Defined.


(** ** Definitions and their values *)

Section DefinitionsAndValues.
Import Payload Ingest.
Context {N : JsNumber} {J : Repo.Json}.

(** While only definition events are staged, the staged values and the
    staged definitions go in pairs. *)
Lemma stageMetrics_pairs names d ms :
  forall acc st,
  stageMetrics true names d ms acc = Ok st ->
  map metricId (metricValues acc) = map idOfPair (newMetrics acc) ->
  map metricId (metricValues st) = map idOfPair (newMetrics st).
Proof.
  induction ms as [| m rest IH]; intros acc st H P; cbn [stageMetrics] in H.
  - injection H as <-. exact P.
  - destruct (names m) as [[| c n] |]; try (apply (IH acc st H P)).
    destruct (fst (Metrics.getMetricValue m)) as [val | e]; [| discriminate].
    destruct (isNullish val); [apply (IH acc st H P) |].
    destruct (Metrics.ts (timestamp m)) as [tstamp | e]; [| discriminate].
    apply (IH _ st H). cbn. rewrite !map_app, P. reflexivity.
Qed.

Lemma stageBatch_pairs batch :
  forall acc st,
  Forall (fun e => e_type e = DBIRTH) batch ->
  stageBatch batch acc = Ok st ->
  map metricId (metricValues acc) = map idOfPair (newMetrics acc) ->
  map metricId (metricValues st) = map idOfPair (newMetrics st).
Proof.
  induction batch as [| evt rest IH]; intros acc st Hall H P; cbn [stageBatch] in H.
  - injection H as <-. exact P.
  - inversion Hall as [| ? ? Hevt Hrest]; subst.
    destruct (stageEvent evt acc) as [acc' | e] eqn:Ee; [| discriminate].
    apply (IH acc' st Hrest H).
    unfold stageEvent in Ee. rewrite Hevt in Ee.
    destruct (Topic.deviceId (Topic.parseCertificateTopic (e_topic evt)))
      as [[| c d] |]; try (injection Ee as <-; exact P).
    destruct (Metrics.ts (p_timestamp (e_payload evt))) as [birth | e];
      [| discriminate].
    apply (stageMetrics_pairs _ _ _ _ _ Ee). exact P.
Qed.

Lemma rowsOfValues_ids values :
  forall rows, rowsOfValues values = Some rows ->
  map Repo.metric_id rows = map metricId values.
Proof.
  induction values as [| v rest IH]; intros rows H; cbn in H.
  - injection H as <-. reflexivity.
  - destruct (ts v) as [t |]; [| discriminate].
    destruct (rowsOfValues rest) as [rows' |]; [| discriminate].
    injection H as <-. cbn. rewrite (IH rows' eq_refl). reflexivity.
Qed.

Lemma commitBatch_committed f st c :
  fst (commitBatch f st c) = Committed ->
  exists ds rows,
    deviceRows (newDevices st) = Some ds
    /\ rowsOfValues (metricValues st) = Some rows
    /\ Repo.tables (snd (commitBatch f st c))
       = applied ds (newMetrics st) rows (Repo.tables c).
Proof.
  intros H. unfold commitBatch in *.
  destruct f; try discriminate;
    destruct (transactionBody _ st (Repo.beginTransaction c))
      as [[u | e] c'] eqn:E; try discriminate;
    apply (transactionBody_ok _ _ _ _ _ E).
Qed.

(** The device of every staged definition is a topic segment. *)
Lemma stageBatch_devices batch :
  forall acc st,
  stageBatch batch acc = Ok st ->
  forall x, In x (newMetrics st) ->
    In x (newMetrics acc) \/ noSlash (fst x) = true.
Proof.
  induction batch as [| evt rest IH]; intros acc st H x Hx; cbn [stageBatch] in H.
  - injection H as <-. left. exact Hx.
  - destruct (stageEvent evt acc) as [acc' | e] eqn:Ee; [| discriminate].
    destruct (IH acc' st H x Hx) as [Hin | Hs]; [| right; exact Hs].
    unfold stageEvent in Ee. destruct (e_type evt).
    + destruct (Topic.deviceId (Topic.parseCertificateTopic (e_topic evt)))
        as [[| c d] |] eqn:Ed; try (injection Ee as <-; left; exact Hin).
      destruct (Metrics.ts (p_timestamp (e_payload evt))) as [birth | e];
        [| discriminate].
      destruct (stageMetrics_registered _ _ _ _ _ Ee) as [_ Hm].
      destruct (Hm x Hin) as [Hacc | (m & n & v & _ & _ & -> & _)].
      * left. exact Hacc.
      * right. cbn [fst]. unfold Topic.parseCertificateTopic in Ed.
        apply (deviceId_noSlash _ _ Ed).
    + destruct (Topic.deviceId (Topic.parseTopic (e_topic evt)))
        as [[| c d] |]; try (injection Ee as <-; left; exact Hin).
      apply stageMetrics_update_registers_nothing in Ee.
      left. destruct Ee as [_ <-]. exact Hin.
Qed.

Lemma metricId_injective d1 :
  forall d2 m1 m2,
  noSlash d1 = true -> noSlash d2 = true ->
  Repo.metricId d1 m1 = Repo.metricId d2 m2 -> d1 = d2 /\ m1 = m2.
Proof.
  unfold Repo.metricId.
  induction d1 as [| c d1 IH]; intros [| c2 d2] m1 m2 H1 H2 E; cbn in *.
  - injection E as ->. auto.
  - injection E as <- _. discriminate.
  - injection E as -> _. discriminate.
  - injection E as -> E.
    apply andb_prop in H1. apply andb_prop in H2.
    destruct (IH d2 m1 m2 (proj2 H1) (proj2 H2) E) as [-> ->]. auto.
Qed.

End DefinitionsAndValues.

(** X7. In a committed batch of definition events every value has its
    definition: the value rows the batch appends are as many as the staged
    values, and the metric id of each is the id of a row of the
    definitions table after the commit. *)
Theorem definition_batch_values_have_definitions :
  forall (N : JsNumber) (J : Repo.Json) batch st f c,
    Forall (fun e => Ingest.e_type e = Ingest.DBIRTH) batch ->
    Ingest.stageBatch batch Ingest.noneStaged = Ok st ->
    fst (Ingest.commitBatch f st c) = Ingest.Committed ->
    exists added,
      Repo.device_metric_values (Repo.tables (snd (Ingest.commitBatch f st c)))
      = Repo.device_metric_values (Repo.tables c) ++ added
      /\ List.length added = List.length (Ingest.metricValues st)
      /\ forall row, In row added ->
           Repo.hasMetric (Repo.metric_id row)
             (Repo.device_metrics
                (Repo.tables (snd (Ingest.commitBatch f st c)))) = true.
Proof.
  intros N J batch st f c Hall Hst Hc.
  destruct (commitBatch_committed f st c Hc) as (ds & rows & Hds & Hrows & ->).
  pose proof (rowsOfValues_ids _ _ Hrows) as Hids.
  pose proof (stageBatch_pairs batch _ st Hall Hst eq_refl) as Hpairs.
  destruct (fold_upsert_fields ds (Repo.tables c)) as (H1 & H2 & _ & _).
  exists rows. unfold applied.
  cbn [Repo.device_metric_values Repo.device_metrics]. rewrite H1, H2.
  split; [reflexivity |]. split.
  - rewrite <- (length_map Repo.metric_id rows), Hids. apply length_map.
  - intros row Hrow.
    assert (Hin : In (Repo.metric_id row) (map idOfPair (Ingest.newMetrics st))).
    { rewrite <- Hpairs, <- Hids. apply in_map, Hrow. }
    apply in_map_iff in Hin. destruct Hin as ([d m] & Hid & Hdm).
    unfold idOfPair in Hid. cbn [fst snd] in Hid. rewrite <- Hid.
    destruct (dedupe_ids (Ingest.newMetrics st) []) as (_ & _ & H).
    destruct (H d m Hdm) as [[] | Hi].
    apply in_map_iff in Hi. destruct Hi as (r & <- & Hr).
    apply insertMetricRows_has, Hr.
Qed.

Lemma definition_batch_values_have_definitions_witness :
  exists added,
    Repo.device_metric_values
      (Repo.tables
         (snd (Ingest.commitBatch Ingest.NoFault stagedDefinition emptyConn)))
    = Repo.device_metric_values (Repo.tables emptyConn) ++ added
    /\ List.length added = List.length (Ingest.metricValues stagedDefinition)
    /\ forall row, In row added ->
         Repo.hasMetric (Repo.metric_id row)
           (Repo.device_metrics
              (Repo.tables
                 (snd (Ingest.commitBatch Ingest.NoFault stagedDefinition
                         emptyConn)))) = true.
Proof.
  apply (definition_batch_values_have_definitions ZNumber ZJson [birthOfDev1]).
  - repeat constructor.
  - vm_compute. reflexivity.
  - vm_compute. reflexivity.
Defined.

(** X8. The id of a staged definition tells its device and its metric: two
    definitions staged in a batch with the same id have the same device
    and the same metric name, because a device is a topic segment and has
    no slash. *)
Theorem staged_definition_ids_are_unique :
  forall (N : JsNumber) (J : Repo.Json) batch st d1 n1 d2 n2,
    Ingest.stageBatch batch Ingest.noneStaged = Ok st ->
    In (d1, n1) (Ingest.newMetrics st) ->
    In (d2, n2) (Ingest.newMetrics st) ->
    Repo.metricId d1 n1 = Repo.metricId d2 n2 ->
    d1 = d2 /\ n1 = n2.
Proof.
  intros N J batch st d1 n1 d2 n2 Hst H1 H2 E.
  destruct (stageBatch_devices batch _ st Hst _ H1) as [[] | S1].
  destruct (stageBatch_devices batch _ st Hst _ H2) as [[] | S2].
  apply (metricId_injective d1 d2 n1 n2 S1 S2 E).
Qed.

Lemma staged_definition_ids_are_unique_witness :
  "dev1" = "dev1" /\ "temperature" = "temperature".
Proof.
  apply (staged_definition_ids_are_unique ZNumber ZJson [birthOfDev1]
           stagedDefinition "dev1" "temperature" "dev1" "temperature").
  - vm_compute. reflexivity.
  - vm_compute. left. reflexivity.
  - vm_compute. left. reflexivity.
  - reflexivity.
Defined.

(** ** The queues and the flags of the scheduler *)

Section Queues.
Import Ingest.
Context {N : JsNumber} {J : Repo.Json}.

Lemma takeBatch_cons n q rest :
  takeBatch (S n) (q :: rest)
  = (q :: fst (takeBatch n rest), snd (takeBatch n rest)).
Proof. cbn. destruct (takeBatch n rest). reflexivity. Qed.

(** What a turn of the loop does when no transaction is running: it
    returns with both queues empty, or it drains the first events of the
    queue it chooses and either suspends in the transaction of the batch or
    loses the batch to an exception of the staging. *)
Lemma drainTurn_outcome (s : State) :
  inflight s = None ->
  timer (drainTurn s) = timer s
  /\ drainScheduled (drainTurn s) = drainScheduled s
  /\ arrived (drainTurn s) = arrived s
  /\ ((pending s = false /\ drainTurn s = leaveDrain s)
      \/ exists q batch remaining,
           (if negb (isEmpty (birthQueue s)) then birthQueue s else dataQueue s)
           = (q :: batch) ++ remaining
           /\ List.length (q :: batch) <= MAX_BATCH_MESSAGES
           /\ birthQueue (drainTurn s)
              = (if negb (isEmpty (birthQueue s)) then remaining
                 else birthQueue s)
           /\ dataQueue (drainTurn s)
              = (if negb (isEmpty (birthQueue s)) then dataQueue s
                 else remaining)
           /\ ((exists st, inflight (drainTurn s) = Some (q :: batch, st)
                           /\ draining (drainTurn s) = true
                           /\ finished (drainTurn s) = finished s)
               \/ (inflight (drainTurn s) = None
                   /\ draining (drainTurn s) = false
                   /\ finished (drainTurn s)
                      = finished s ++ [(q :: batch, Aborted)]))).
Proof.
  intros Hin. unfold drainTurn, pending.
  destruct (isEmpty (birthQueue s) && isEmpty (dataQueue s)) eqn:Hempty.
  - cbn. repeat split. left. auto.
  - set (active := if negb (isEmpty (birthQueue s)) then birthQueue s
                   else dataQueue s).
    assert (Hact : exists q rest, active = q :: rest).
    { subst active. destruct (birthQueue s) as [| q rest]; cbn in *.
      - destruct (dataQueue s) as [| q rest]; [discriminate |]. eauto.
      - eauto. }
    destruct Hact as (q & rest & Hact). rewrite Hact.
    change MAX_BATCH_MESSAGES with (S 499).
    rewrite takeBatch_cons.
    pose proof (takeBatch_app 499 rest) as Happ.
    assert (Hfs : List.length (fst (takeBatch 499 rest)) <= 499).
    { rewrite takeBatch_firstn_skipn. apply firstn_le_length. }
    destruct (takeBatch 499 rest) as [batch remaining]. cbn [fst snd] in *.
    assert (Hlen : List.length (q :: batch) <= S 499).
    { cbn [List.length]. lia. }
    destruct (stageBatch (map event (q :: batch)) noneStaged) as [st | e]; cbn.
    + repeat split. right. exists q, batch, remaining.
      rewrite <- Happ. repeat split; auto. left. exists st. auto.
    + repeat split. right. exists q, batch, remaining.
      rewrite <- Happ. repeat split; auto.
Qed.

Lemma tagged_snoc arr e :
  tagged (arr ++ [e])
  = tagged arr ++ [{| arrival := List.length arr; event := e |}].
Proof.
  unfold tagged. rewrite length_app. cbn [List.length].
  rewrite Nat.add_1_r, seq_S. cbn [Nat.add].
  assert (H : forall (l1 : list nat) (l2 : list InboundEvent) a b,
            List.length l1 = List.length l2 ->
            combine (l1 ++ [a]) (l2 ++ [b]) = combine l1 l2 ++ [(a, b)]).
  { induction l1 as [| x l1 IH]; intros [| y l2] a b Hl; cbn in *;
      try discriminate; [reflexivity |].
    rewrite IH by lia. reflexivity. }
  rewrite H by apply length_seq. rewrite map_app. reflexivity.
Qed.

Lemma filter_all {A} (p : A -> bool) l : forallb p l = true -> filter p l = l.
Proof.
  induction l as [| x l IH]; cbn; [reflexivity |].
  intros H. apply andb_prop in H. destruct H as [Hx Hl].
  rewrite Hx, (IH Hl). reflexivity.
Qed.

Lemma filter_none {A} (p q : A -> bool) l :
  (forall x, p x = true -> q x = false) ->
  forallb p l = true -> filter q l = [].
Proof.
  intros Hpq. induction l as [| x l IH]; cbn; [reflexivity |].
  intros H. apply andb_prop in H. destruct H as [Hx Hl].
  rewrite (Hpq x Hx). apply IH, Hl.
Qed.

Lemma birth_not_data q : isBirthQ q = true -> isDataQ q = false.
Proof. unfold isDataQ. intros ->. reflexivity. Qed.

Lemma data_not_birth q : isDataQ q = true -> isBirthQ q = false.
Proof. unfold isDataQ. destruct (isBirthQ q); [discriminate | reflexivity]. Qed.

Lemma Fifo_push bq dq arr bs (e : InboundEvent) :
  Fifo bq dq arr bs ->
  Fifo (match e_type e with
        | DBIRTH => bq ++ [{| arrival := List.length arr; event := e |}]
        | DDATA => bq
        end)
       (match e_type e with
        | DBIRTH => dq
        | DDATA => dq ++ [{| arrival := List.length arr; event := e |}]
        end)
       (arr ++ [e]) bs.
Proof.
  intros [Hb Hd Hbq Hdq Hbs].
  assert (Hq : isBirthQ {| arrival := List.length arr; event := e |}
               = match e_type e with DBIRTH => true | DDATA => false end)
    by reflexivity.
  assert (Hq' : isDataQ {| arrival := List.length arr; event := e |}
                = match e_type e with DBIRTH => false | DDATA => true end).
  { unfold isDataQ. rewrite Hq. destruct (e_type e); reflexivity. }
  constructor.
  - rewrite tagged_snoc, filter_app. cbn [filter]. rewrite Hq, Hb.
    destruct (e_type e).
    + rewrite app_assoc. reflexivity.
    + rewrite app_nil_r. reflexivity.
  - rewrite tagged_snoc, filter_app. cbn [filter]. rewrite Hq', Hd.
    destruct (e_type e).
    + rewrite app_nil_r. reflexivity.
    + rewrite app_assoc. reflexivity.
  - destruct (e_type e) eqn:Et; [| exact Hbq].
    rewrite forallb_app, Hbq. cbn [forallb]. rewrite Hq. reflexivity.
  - destruct (e_type e) eqn:Et; [exact Hdq |].
    rewrite forallb_app, Hdq. cbn [forallb]. rewrite Hq'. reflexivity.
  - exact Hbs.
Qed.

Lemma Fifo_take bq dq arr bs q batch remaining :
  Fifo bq dq arr bs ->
  (if negb (isEmpty bq) then bq else dq) = (q :: batch) ++ remaining ->
  List.length (q :: batch) <= MAX_BATCH_MESSAGES ->
  Fifo (if negb (isEmpty bq) then remaining else bq)
       (if negb (isEmpty bq) then dq else remaining)
       arr (bs ++ [q :: batch]).
Proof.
  intros [Hb Hd Hbq Hdq Hbs] Hact Hlen.
  destruct bq as [| q0 bq']; cbn [isEmpty negb] in *.
  - rewrite Hact in Hdq, Hd. rewrite forallb_app in Hdq.
    apply andb_prop in Hdq. destruct Hdq as [Hbatch Hrem].
    constructor; rewrite ?concat_app, ?filter_app; cbn [List.concat];
      rewrite ?app_nil_r.
    + rewrite (filter_none isDataQ isBirthQ _ data_not_birth Hbatch).
      rewrite ?app_nil_r in *. exact Hb.
    + rewrite (filter_all _ _ Hbatch), Hd, app_assoc. reflexivity.
    + reflexivity.
    + exact Hrem.
    + apply Forall_app. split; [exact Hbs |]. constructor; [| constructor].
      split; [discriminate |]. split; [exact Hlen | right; exact Hbatch].
  - rewrite Hact in Hbq, Hb. rewrite forallb_app in Hbq.
    apply andb_prop in Hbq. destruct Hbq as [Hbatch Hrem].
    constructor; rewrite ?concat_app, ?filter_app; cbn [List.concat];
      rewrite ?app_nil_r.
    + rewrite (filter_all _ _ Hbatch), Hb, app_assoc. reflexivity.
    + rewrite (filter_none isBirthQ isDataQ _ birth_not_data Hbatch).
      rewrite ?app_nil_r in *. exact Hd.
    + exact Hrem.
    + exact Hdq.
    + apply Forall_app. split; [exact Hbs |]. constructor; [| constructor].
      split; [discriminate |]. split; [exact Hlen | left; exact Hbatch].
Qed.

Lemma fifo_drainTurn (s : State) :
  fifo s -> inflight s = None -> fifo (drainTurn s).
Proof.
  intros HF Hin. unfold fifo in *.
  destruct (drainTurn_outcome s Hin) as (_ & _ & Ha & [[_ ->] | H]).
  - unfold batches in *. cbn. rewrite Hin in HF. exact HF.
  - destruct H as (q & batch & remaining & Hact & Hlen & Hb & Hd & Hcase).
    assert (Hbs : batches (drainTurn s) = batches s ++ [q :: batch]).
    { unfold batches. rewrite Hin.
      destruct Hcase as [(st & -> & _ & ->) | (-> & _ & ->)].
      - rewrite app_nil_r. reflexivity.
      - rewrite map_app, !app_nil_r. reflexivity. }
    rewrite Ha, Hb, Hd, Hbs. apply (Fifo_take _ _ _ _ _ _ _ HF Hact Hlen).
Qed.

Lemma lively_drainTurn (s : State) :
  drainScheduled s = timer s -> inflight s = None ->
  lively (drainTurn s).
Proof.
  intros Hflags Hin.
  destruct (drainTurn_outcome s Hin) as (Ht & Hd & _ & [[Hp ->] | H]).
  - unfold lively, running, pending in *. cbn.
    split; [exact Hflags |]. split; [reflexivity |].
    intros _ Hq. rewrite Hp in Hq. discriminate.
  - destruct H as (q & batch & remaining & _ & _ & _ & _ & Hcase).
    unfold lively, running. rewrite Ht, Hd.
    split; [exact Hflags |].
    destruct Hcase as [(st & -> & -> & _) | (-> & -> & Hf)].
    + split; [reflexivity |]. auto.
    + split; [reflexivity |]. intros Hna. exfalso.
      unfold noAbort in Hna. rewrite Hf, forallb_app in Hna.
      apply andb_prop in Hna. destruct Hna as [_ Hna]. discriminate.
Qed.

Lemma fifo_step a (s s' : State) :
  fifo s -> draining s = running s -> step a s = Some s' -> fifo s'.
Proof.
  intros HF Hd E. unfold running in Hd.
  destruct a as [e | | f]; cbn in E.
  - injection E as <-. unfold enqueueEvent.
    match goal with
    | |- fifo (if ?full then drainQueues ?p else scheduleDrain ?p) =>
        assert (Hp : fifo p) by (apply (Fifo_push _ _ _ _ e HF));
        destruct full
    end.
    + unfold drainQueues. cbn [draining].
      destruct (draining s) eqn:Ed; [exact Hp |].
      apply fifo_drainTurn; [exact Hp |]. cbn.
      destruct (inflight s); [discriminate | reflexivity].
    + unfold scheduleDrain. cbn [drainScheduled].
      destruct (drainScheduled s); exact Hp.
  - destruct (timer s); [| discriminate]. injection E as <-.
    unfold timerFires, drainQueues. cbn [draining].
    destruct (draining s) eqn:Ed; [exact HF |].
    apply fifo_drainTurn; [exact HF |]. cbn.
    destruct (inflight s); [discriminate | reflexivity].
  - destruct (inflight s) as [[batch st] |] eqn:Ei; [| discriminate].
    injection E as <-. unfold transactionEnds.
    destruct (commitBatch f st (conn s)) as [outcome c].
    assert (Hp : fifo (recordOutcome batch outcome c s)).
    { unfold fifo, batches in *. cbn. rewrite Ei in HF.
      rewrite map_app, app_nil_r. exact HF. }
    destruct outcome; try (apply fifo_drainTurn; [exact Hp | reflexivity]).
    exact Hp.
Qed.

Lemma lively_step a (s s' : State) :
  lively s -> step a s = Some s' -> lively s'.
Proof.
  intros (Hflags & Hd & Hlive) E. unfold running in Hd.
  destruct a as [e | | f]; cbn in E.
  - injection E as <-. unfold enqueueEvent.
    match goal with
    | |- lively (if ?full then drainQueues ?p else scheduleDrain ?p) =>
        destruct full
    end.
    + unfold drainQueues. cbn [draining].
      destruct (draining s) eqn:Ed.
      * unfold lively, running. cbn.
        destruct (inflight s); [| discriminate]. auto.
      * apply lively_drainTurn; [reflexivity |]. cbn.
        destruct (inflight s); [discriminate | reflexivity].
    + unfold scheduleDrain. cbn [drainScheduled].
      destruct (drainScheduled s) eqn:Es; unfold lively, running; cbn.
      * split; [exact Hflags |]. split; [exact Hd |].
        intros _ _. left. symmetry. exact Hflags.
      * split; [reflexivity |]. split; [exact Hd |]. auto.
  - destruct (timer s); [| discriminate]. injection E as <-.
    unfold timerFires, drainQueues. cbn [draining].
    destruct (draining s) eqn:Ed.
    + unfold lively, running. cbn.
      destruct (inflight s); [| discriminate]. auto.
    + apply lively_drainTurn; [reflexivity |]. cbn.
      destruct (inflight s); [discriminate | reflexivity].
  - destruct (inflight s) as [[batch st] |] eqn:Ei; [| discriminate].
    injection E as <-. unfold transactionEnds.
    destruct (commitBatch f st (conn s)) as [outcome c].
    destruct outcome; try (apply lively_drainTurn; [exact Hflags | reflexivity]).
    unfold lively, running, noAbort. cbn.
    split; [exact Hflags |]. split; [reflexivity |].
    intros Hna. rewrite forallb_app in Hna. apply andb_prop in Hna.
    destruct Hna as [_ Hna]. discriminate.
Qed.

Lemma reachable_fifo_lively (s : State) :
  reachable s -> fifo s /\ lively s.
Proof.
  intros (c & actions & _ & Hrun).
  assert (H0 : fifo (initial c) /\ lively (initial c)).
  { split.
    - constructor; cbn; try reflexivity. constructor.
    - unfold lively, running, pending. cbn.
      split; [reflexivity |]. split; [reflexivity |].
      intros _ H. discriminate H. }
  revert Hrun. generalize (initial c) H0. clear H0.
  induction actions as [| a rest IH]; intros s0 [HF HL] Hrun; cbn in Hrun.
  - injection Hrun as <-. auto.
  - destruct (step a s0) as [s1 |] eqn:E; [| discriminate].
    apply (IH s1); [| exact Hrun]. split.
    + apply (fifo_step a s0 s1 HF (proj1 (proj2 HL)) E).
    + apply (lively_step a s0 s1 HL E).
Qed.

End Queues.

(** X9. No event is lost or drained twice, and each kind is drained in
    arrival order: in every reachable state the definition events that
    arrived are, in arrival order, those of the drained batches followed
    by the definition queue, and likewise for the update events. *)
Theorem events_drained_once_in_order :
  forall (N : JsNumber) (J : Repo.Json) (s : Ingest.State),
    Ingest.reachable s ->
    filter isBirthQ (tagged (Ingest.arrived s))
    = filter isBirthQ (List.concat (batches s)) ++ Ingest.birthQueue s
    /\ filter isDataQ (tagged (Ingest.arrived s))
       = filter isDataQ (List.concat (batches s)) ++ Ingest.dataQueue s.
Proof.
  intros N J s Hs. destruct (reachable_fifo_lively s Hs) as [[Hb Hd _ _ _] _].
  split; assumption.
Qed.

(** X10. Every batch the loop drains is not empty, holds at most 500
    events and holds events of one kind only. *)
Theorem drained_batches_well_formed :
  forall (N : JsNumber) (J : Repo.Json) (s : Ingest.State) b,
    Ingest.reachable s -> In b (batches s) ->
    b <> [] /\ List.length b <= 500
    /\ (forallb isBirthQ b = true \/ forallb isDataQ b = true).
Proof.
  intros N J s b Hs Hb.
  destruct (reachable_fifo_lively s Hs) as [[_ _ _ _ Hall] _].
  rewrite Forall_forall in Hall. apply (Hall b Hb).
Qed.

(** X11. The timer is armed exactly when a drain is scheduled, the drain
    flag is set exactly while a transaction is running, and as long as no
    batch was lost to an exception that left [drainQueues], queued events
    are never left alone: the timer is armed or a transaction is
    running. *)
Theorem queued_events_are_not_stranded :
  forall (N : JsNumber) (J : Repo.Json) (s : Ingest.State),
    Ingest.reachable s ->
    Ingest.drainScheduled s = Ingest.timer s
    /\ Ingest.draining s = running s
    /\ (noAbort s = true -> pending s = true ->
        Ingest.timer s = true \/ running s = true).
Proof.
  intros N J s Hs. exact (proj2 (reachable_fifo_lively s Hs)).
Qed.

(** ** The further properties on concrete runs *)

Lemma device_upsert_effect_witness :
  NoDup (map Repo.device_name (Repo.devices oneValueTables))
  /\ NoDup (map Repo.device_name
              (Repo.upsertDeviceRow
                 {| Repo.device_name := "dev1"; Repo.topic := "t2";
                    Repo.birth_timestamp := None |}
                 (Repo.devices oneValueTables)))
  /\ findDevice "dev1"
       (Repo.upsertDeviceRow
          {| Repo.device_name := "dev1"; Repo.topic := "t2";
             Repo.birth_timestamp := None |}
          (Repo.devices oneValueTables))
     = Some {| Repo.device_name := "dev1"; Repo.topic := "t2";
               Repo.birth_timestamp := Some 0%Z |}.
Proof.
  assert (H : NoDup (map Repo.device_name (Repo.devices oneValueTables))).
  { cbn. apply NoDup_cons; [intros [] | apply NoDup_nil]. }
  destruct (device_upsert_effect
              {| Repo.device_name := "dev1"; Repo.topic := "t2";
                 Repo.birth_timestamp := None |}
              (Repo.devices oneValueTables)) as (Hsame & _ & Hnodup & _).
  split; [exact H |].
  split; [exact (Hnodup H) | exact Hsame].
Defined.

Lemma definitions_insert_effect_witness :
  In ("dev1", "pressure") [("dev1", "pressure"); ("dev1", "temperature")]
  /\ Repo.hasMetric (Repo.metricId "dev1" "pressure")
       (Repo.insertMetricRows
          (Repo.dedupe [] [("dev1", "pressure"); ("dev1", "temperature")])
          (Repo.device_metrics oneValueTables)) = true.
Proof.
  assert (H : In ("dev1", "pressure")
                [("dev1", "pressure"); ("dev1", "temperature")]).
  { left. reflexivity. }
  destruct (definitions_insert_effect
              [("dev1", "pressure"); ("dev1", "temperature")]
              (Repo.device_metrics oneValueTables)) as (_ & _ & Hhas & _).
  split; [exact H | exact (Hhas "dev1" "pressure" H)].
Defined.

Lemma stateAfter_runs actions :
  runs actions = true ->
  Ingest.runActions actions (Ingest.initial emptyConn)
  = Some (stateAfter actions).
Proof.
  unfold runs, stateAfter.
  destruct (Ingest.runActions actions (Ingest.initial emptyConn));
    [reflexivity | discriminate].
Qed.

Lemma stateAfter_reachable actions :
  runs actions = true -> Ingest.reachable (stateAfter actions).
Proof.
  intros H. exists emptyConn, actions.
  split; [reflexivity | apply stateAfter_runs, H].
Qed.

Lemma definitionThenUpdate_reachable : Ingest.reachable definitionThenUpdate.
Proof.
  exact (stateAfter_reachable
           [Ingest.Enqueue birthOfDev1; Ingest.Enqueue dataOfDev1;
            Ingest.TimerFires; Ingest.TransactionEnds Ingest.NoFault] eq_refl).
Qed.

Lemma definitionRunning_reachable : Ingest.reachable definitionRunning.
Proof.
  exact (stateAfter_reachable [Ingest.Enqueue birthOfDev1; Ingest.TimerFires]
           eq_refl).
Qed.

Lemma bothQueued_reachable : Ingest.reachable bothQueued.
Proof.
  exact (stateAfter_reachable
           [Ingest.Enqueue birthOfDev1; Ingest.Enqueue dataOfDev1] eq_refl).
Qed.


Lemma events_drained_once_in_order_witness :
  Ingest.reachable definitionThenUpdate
  /\ filter isBirthQ (tagged (Ingest.arrived definitionThenUpdate))
     = filter isBirthQ (List.concat (batches definitionThenUpdate))
       ++ Ingest.birthQueue definitionThenUpdate.
Proof.
  split; [exact definitionThenUpdate_reachable |].
  exact (proj1 (events_drained_once_in_order ZNumber ZJson definitionThenUpdate
                  definitionThenUpdate_reachable)).
Defined.

Lemma drained_batches_well_formed_witness :
  Ingest.reachable definitionRunning
  /\ In [{| Ingest.arrival := 0; Ingest.event := birthOfDev1 |}]
       (batches definitionRunning)
  /\ List.length [{| Ingest.arrival := 0; Ingest.event := birthOfDev1 |}] <= 500.
Proof.
  assert (H : In [{| Ingest.arrival := 0; Ingest.event := birthOfDev1 |}]
                (batches definitionRunning)).
  { apply (nth_error_In _ 0). reflexivity. }
  split; [exact definitionRunning_reachable |].
  split; [exact H |].
  exact (proj1 (proj2 (drained_batches_well_formed ZNumber ZJson
                         definitionRunning _
                         definitionRunning_reachable H))).
Defined.

Lemma queued_events_are_not_stranded_witness :
  Ingest.reachable bothQueued
  /\ noAbort bothQueued = true /\ pending bothQueued = true
  /\ (Ingest.timer bothQueued = true \/ running bothQueued = true).
Proof.
  split; [exact bothQueued_reachable |].
  split; [reflexivity |].
  split; [reflexivity |].
  apply (queued_events_are_not_stranded ZNumber ZJson bothQueued
           bothQueued_reachable); reflexivity.
Defined.

(** ** The backlog while nothing runs *)

Section Backlog.
Import Ingest.
Context {N : JsNumber} {J : Repo.Json}.

Lemma runActions_snoc actions a (s s' : State) :
  runActions (actions ++ [a]) s = Some s' ->
  exists s0, runActions actions s = Some s0 /\ step a s0 = Some s'.
Proof.
  revert s. induction actions as [| b rest IH]; intros s H; cbn in H.
  - destruct (step a s) as [s1 |] eqn:E; [| discriminate].
    injection H as <-. exists s. split; [reflexivity | exact E].
  - cbn. destruct (step b s) as [s1 |]; [| discriminate].
    apply IH, H.
Qed.

Lemma reachable_cases (s : State) :
  reachable s ->
  (exists c, s = initial c)
  \/ exists a s0, reachable s0 /\ step a s0 = Some s.
Proof.
  intros (c & actions & Hc & Hrun).
  destruct actions as [| a0 rest0] using rev_ind.
  - left. exists c. cbn in Hrun. injection Hrun as <-. reflexivity.
  - right. destruct (runActions_snoc _ _ _ _ Hrun) as (s0 & H0 & Hs).
    exists a0, s0. split; [| exact Hs]. exists c, rest0. auto.
Qed.

Lemma backlog_leaveDrain (s : State) : backlog (leaveDrain s) = backlog s.
Proof. reflexivity. Qed.

Lemma pending_backlog (s : State) : pending s = false <-> backlog s = 0.
Proof.
  unfold pending, backlog.
  destruct (birthQueue s), (dataQueue s); cbn; split; intros H;
    try reflexivity; try discriminate.
Qed.

Lemma drainTurn_idle (s : State) :
  inflight s = None ->
  noAbort (drainTurn s) = true -> running (drainTurn s) = false ->
  backlog (drainTurn s) = 0.
Proof.
  intros Hin Hna Hrun.
  destruct (drainTurn_outcome s Hin) as (_ & _ & _ & [[Hp Heq] | H]).
  - rewrite Heq, backlog_leaveDrain. apply pending_backlog, Hp.
  - destruct H as (q & batch & remaining & _ & _ & _ & _
                   & [(st & Hi & _) | (_ & _ & Hf)]).
    + unfold running in Hrun. rewrite Hi in Hrun. discriminate.
    + unfold noAbort in Hna. rewrite Hf, forallb_app in Hna. cbn in Hna.
      rewrite andb_false_r in Hna. discriminate.
Qed.

Lemma step_idle a (s s' : State) :
  lively s -> step a s = Some s' ->
  noAbort s' = true -> running s' = false ->
  backlog s' < MAX_BATCH_MESSAGES.
Proof.
  intros (_ & Hd & _) E. unfold running in Hd.
  assert (Hpos : 0 < MAX_BATCH_MESSAGES) by (unfold MAX_BATCH_MESSAGES; lia).
  destruct a as [e | | f]; cbn in E.
  - injection E as <-. unfold enqueueEvent.
    match goal with
    | |- context [if ?full then drainQueues ?p else scheduleDrain ?p] =>
        destruct full eqn:Efull
    end.
    + unfold drainQueues. cbn [draining].
      destruct (draining s) eqn:Ed.
      * intros _ Hrun. unfold running in Hrun. cbn in Hrun.
        destruct (inflight s); discriminate.
      * intros Hna Hrun.
        match goal with
        | |- backlog (drainTurn ?p) < _ =>
            rewrite (drainTurn_idle p); [exact Hpos | | exact Hna | exact Hrun]
        end.
        cbn. destruct (inflight s); [discriminate | reflexivity].
    + intros _ _.
      apply Nat.leb_gt in Efull.
      unfold scheduleDrain. cbn [drainScheduled].
      destruct (drainScheduled s); unfold backlog; cbn; exact Efull.
  - destruct (timer s); [| discriminate]. injection E as <-.
    unfold timerFires, drainQueues. cbn [draining].
    destruct (draining s) eqn:Ed.
    + intros _ Hrun. unfold running in Hrun. cbn in Hrun.
      destruct (inflight s); discriminate.
    + intros Hna Hrun.
      match goal with
      | |- backlog (drainTurn ?p) < _ =>
          rewrite (drainTurn_idle p); [exact Hpos | | exact Hna | exact Hrun]
      end.
      cbn. destruct (inflight s); [discriminate | reflexivity].
  - destruct (inflight s) as [[batch st] |] eqn:Ei; [| discriminate].
    injection E as <-. unfold transactionEnds.
    destruct (commitBatch f st (conn s)) as [outcome c].
    destruct outcome.
    + intros Hna Hrun.
      rewrite drainTurn_idle; [exact Hpos | reflexivity | exact Hna | exact Hrun].
    + intros Hna Hrun.
      rewrite drainTurn_idle; [exact Hpos | reflexivity | exact Hna | exact Hrun].
    + intros Hna _. unfold noAbort in Hna. cbn in Hna.
      rewrite forallb_app in Hna. cbn in Hna.
      rewrite andb_false_r in Hna. discriminate.
Qed.

End Backlog.

(** X12. While no transaction is running, and as long as no batch was lost
    to an exception that left [drainQueues], fewer than 500 events wait in
    the queues; and when the timer is not armed either, no event waits:
    all that arrived was drained. *)
Theorem idle_backlog_below_threshold :
  forall (N : JsNumber) (J : Repo.Json) (s : Ingest.State),
    Ingest.reachable s -> noAbort s = true -> running s = false ->
    backlog s < 500
    /\ (Ingest.timer s = false -> backlog s = 0).
Proof.
  intros N J s Hs Hna Hrun. split.
  - destruct (reachable_cases s Hs) as [[c ->] | (a & s0 & Hs0 & E)].
    + cbn. lia.
    + apply (step_idle a s0 s (proj2 (reachable_fifo_lively s0 Hs0)) E Hna Hrun).
  - intros Ht. apply pending_backlog.
    destruct (reachable_fifo_lively s Hs) as [_ (_ & _ & Hl)].
    destruct (pending s) eqn:Ep; [| reflexivity].
    destruct (Hl Hna eq_refl) as [H | H]; congruence.
Qed.

Lemma idle_backlog_below_threshold_witness :
  Ingest.reachable bothQueued
  /\ noAbort bothQueued = true /\ running bothQueued = false
  /\ backlog bothQueued < 500.
Proof.
  split; [exact bothQueued_reachable |].
  split; [reflexivity |].
  split; [reflexivity |].
  exact (proj1 (idle_backlog_below_threshold ZNumber ZJson bothQueued
                  bothQueued_reachable eq_refl eq_refl)).
Defined.

(** ** Batches of updates *)

Section UpdateBatches.
Import Payload Ingest.
Context {N : JsNumber} {J : Repo.Json}.

Lemma stageMetrics_update_values names d ms :
  forall acc st,
  stageMetrics false names d ms acc = Ok st ->
  forallb (fun v => negb (fromBirth v)) (metricValues acc) = true ->
  forallb (fun v => negb (fromBirth v)) (metricValues st) = true.
Proof.
  induction ms as [| m rest IH]; intros acc st H P; cbn [stageMetrics] in H.
  - injection H as <-. exact P.
  - destruct (names m) as [[| c n] |]; try (apply (IH acc st H P)).
    destruct (fst (Metrics.getMetricValue m)) as [val | e]; [| discriminate].
    destruct (isNullish val); [apply (IH acc st H P) |].
    destruct (Metrics.ts (timestamp m)) as [tstamp | e]; [| discriminate].
    apply (IH _ st H). cbn. rewrite forallb_app, P. reflexivity.
Qed.

Lemma stageBatch_updates batch :
  forall acc st,
  updatesOnly batch = true ->
  stageBatch batch acc = Ok st ->
  newDevices st = newDevices acc /\ newMetrics st = newMetrics acc
  /\ (forallb (fun v => negb (fromBirth v)) (metricValues acc) = true ->
      forallb (fun v => negb (fromBirth v)) (metricValues st) = true).
Proof.
  induction batch as [| evt rest IH]; intros acc st Hall H; cbn [stageBatch] in H.
  - injection H as <-. auto.
  - cbn in Hall. apply andb_prop in Hall. destruct Hall as [Hevt Hrest].
    destruct (stageEvent evt acc) as [acc' | e] eqn:Ee; [| discriminate].
    destruct (IH acc' st Hrest H) as (Hd & Hm & Hv).
    unfold stageEvent in Ee.
    destruct (e_type evt); [discriminate |].
    destruct (Topic.deviceId (Topic.parseTopic (e_topic evt))) as [[| c d] |];
      try (injection Ee as <-; auto).
    destruct (stageMetrics_update_registers_nothing _ _ _ _ _ Ee) as [Hd' Hm'].
    split; [congruence |]. split; [congruence |].
    intros P. apply Hv. apply (stageMetrics_update_values _ _ _ _ _ Ee P).
Qed.

Lemma forallb_negb_map {A} (g : A -> bool) (l : list A) :
  forallb (fun x => negb (g x)) l = forallb negb (map g l).
Proof.
  induction l as [| x rest IH]; cbn; [reflexivity |].
  rewrite IH. reflexivity.
Qed.

Lemma rowsOfValues_from_birth values :
  forall rows, rowsOfValues values = Some rows ->
  map Repo.from_birth rows = map fromBirth values.
Proof.
  induction values as [| v rest IH]; intros rows H; cbn in H.
  - injection H as <-. reflexivity.
  - destruct (ts v) as [t |]; [| discriminate].
    destruct (rowsOfValues rest) as [rows' |]; [| discriminate].
    injection H as <-. cbn. rewrite (IH rows' eq_refl). reflexivity.
Qed.

End UpdateBatches.

(** X13. A committed batch of updates writes values only: the devices and
    the definitions are as before, and the values of the batch are appended
    to the values, one row per staged value, none marked as coming from a
    definition event. *)
Theorem update_batch_only_appends_values :
  forall (N : JsNumber) (J : Repo.Json) f batch st c,
    updatesOnly batch = true ->
    Ingest.stageBatch batch Ingest.noneStaged = Ok st ->
    fst (Ingest.commitBatch f st c) = Ingest.Committed ->
    Repo.devices (Repo.tables (snd (Ingest.commitBatch f st c)))
    = Repo.devices (Repo.tables c)
    /\ Repo.device_metrics (Repo.tables (snd (Ingest.commitBatch f st c)))
       = Repo.device_metrics (Repo.tables c)
    /\ exists rows,
         Repo.device_metric_values
           (Repo.tables (snd (Ingest.commitBatch f st c)))
         = Repo.device_metric_values (Repo.tables c) ++ rows
         /\ map Repo.metric_id rows
            = map Ingest.metricId (Ingest.metricValues st)
         /\ forallb (fun r => negb (Repo.from_birth r)) rows = true.
Proof.
  intros N J f batch st c Hall Hst Hc.
  destruct (stageBatch_updates batch _ _ Hall Hst) as (Hd & Hm & Hv).
  destruct (commitBatch_committed f st c Hc) as (ds & rows & Hds & Hrows & ->).
  rewrite Hd in Hds. cbn in Hds. injection Hds as <-.
  rewrite Hm. cbn.
  split; [reflexivity |]. split; [reflexivity |].
  exists rows. split; [reflexivity |].
  split; [apply rowsOfValues_ids, Hrows |].
  specialize (Hv eq_refl).
  rewrite forallb_negb_map, (rowsOfValues_from_birth _ _ Hrows),
    <- forallb_negb_map.
  exact Hv.
Qed.

Lemma update_batch_only_appends_values_witness :
  updatesOnly [dataOfDev1] = true
  /\ Repo.devices
       (Repo.tables
          (snd (Ingest.commitBatch Ingest.NoFault stagedUpdate
                  (Ingest.conn definitionThenUpdate))))
     = Repo.devices (Repo.tables (Ingest.conn definitionThenUpdate)).
Proof.
  split; [reflexivity |].
  apply (update_batch_only_appends_values ZNumber ZJson Ingest.NoFault
           [dataOfDev1] stagedUpdate (Ingest.conn definitionThenUpdate));
    vm_compute; reflexivity.
Defined.

(** ** The values of updates and the definitions of their metrics *)

Section UpdatesAndDefinitions.
Import Payload Ingest.
Context {N : JsNumber} {J : Repo.Json}.

Lemma stageMetrics_keeps_registered birth names d ms :
  forall acc st,
  stageMetrics birth names d ms acc = Ok st ->
  forall x, In x (newMetrics acc) -> In x (newMetrics st).
Proof.
  induction ms as [| m rest IH]; intros acc st H x Hx; cbn [stageMetrics] in H.
  - injection H as <-. exact Hx.
  - destruct (names m) as [[| c n] |]; try (apply (IH acc st H x Hx)).
    destruct (fst (Metrics.getMetricValue m)) as [val | e]; [| discriminate].
    destruct (isNullish val); [apply (IH acc st H x Hx) |].
    destruct (Metrics.ts (timestamp m)) as [tstamp | e]; [| discriminate].
    apply (IH _ st H). cbn.
    destruct birth; [apply in_or_app; left |]; exact Hx.
Qed.

(** A definition event registers every metric it records a value for. *)
Lemma stageMetrics_registers_valued names d ms :
  forall acc st,
  stageMetrics true names d ms acc = Ok st ->
  forall m n, In m ms -> names m = Some n -> valued (names m) m ->
    In (d, n) (newMetrics st).
Proof.
  induction ms as [| m0 rest IH]; intros acc st H m n Hm Hn Hv;
    [destruct Hm |].
  cbn [stageMetrics] in H. destruct Hm as [-> | Hm].
  - destruct Hv as (Ht & v & Hv & Hnull). rewrite Hn in H, Ht.
    destruct n as [| c n]; [discriminate |].
    rewrite Hv, Hnull in H.
    destruct (Metrics.ts (timestamp m)) as [tstamp | e]; [| discriminate].
    apply (stageMetrics_keeps_registered _ _ _ _ _ _ H). cbn.
    apply in_or_app. right. left. reflexivity.
  - destruct (names m0) as [[| c0 n0] |];
      try (apply (IH acc st H m n Hm Hn Hv)).
    destruct (fst (Metrics.getMetricValue m0)) as [val | e]; [| discriminate].
    destruct (isNullish val); [apply (IH acc st H m n Hm Hn Hv) |].
    destruct (Metrics.ts (timestamp m0)) as [tstamp | e]; [| discriminate].
    apply (IH _ st H m n Hm Hn Hv).
Qed.

(** Every value staged comes from a metric with a name and a value. *)
Lemma stageMetrics_values_from birth names d ms :
  forall acc st,
  stageMetrics birth names d ms acc = Ok st ->
  forall v, In v (metricValues st) ->
    In v (metricValues acc)
    \/ exists m n, In m ms /\ names m = Some n /\ valued (names m) m
                   /\ metricId v = Repo.metricId d n.
Proof.
  induction ms as [| m rest IH]; intros acc st H v Hv; cbn [stageMetrics] in H.
  - injection H as <-. left. exact Hv.
  - assert (Hrest : forall acc',
              stageMetrics birth names d rest acc' = Ok st ->
              metricValues acc' = metricValues acc ->
              In v (metricValues acc)
              \/ exists m' n, In m' (m :: rest) /\ names m' = Some n
                              /\ valued (names m') m'
                              /\ metricId v = Repo.metricId d n).
    { intros acc' H' Hacc.
      destruct (IH acc' st H' v Hv) as [Hin | (m' & n & Hm' & Hrest)].
      - left. rewrite <- Hacc. exact Hin.
      - right. exists m', n. split; [right; exact Hm' | exact Hrest]. }
    destruct (names m) as [[| c n] |] eqn:En;
      try (apply (Hrest acc H eq_refl)).
    destruct (fst (Metrics.getMetricValue m)) as [val | e] eqn:Eg;
      [| discriminate].
    destruct (isNullish val) eqn:Enull; [apply (Hrest acc H eq_refl) |].
    destruct (Metrics.ts (timestamp m)) as [tstamp | e]; [| discriminate].
    destruct (IH _ st H v Hv) as [Hin | (m' & n' & Hm' & Hr)].
    + cbn in Hin. apply in_app_or in Hin. destruct Hin as [Hin | [<- | []]].
      * left. exact Hin.
      * right. exists m, (String c n).
        split; [left; reflexivity |]. split; [exact En |].
        split; [| reflexivity].
        split; [rewrite En; reflexivity |]. exists val. auto.
    + right. exists m', n'. split; [right; exact Hm' | exact Hr].
Qed.

End UpdatesAndDefinitions.

(** X14. An update joins the definitions of its device: when a definition
    event and an update event name the same device, and each metric of the
    update that carries a value is, by its name, a metric without alias of
    the definition event that carries a value, then the id staged for every
    value of the update is the id of a definition staged for the
    definition event. *)
Theorem update_values_join_definitions :
  forall (N : JsNumber) (J : Repo.Json) (eB eD : Ingest.InboundEvent) stB stD,
    Ingest.e_type eB = Ingest.DBIRTH -> Ingest.e_type eD = Ingest.DDATA ->
    Topic.deviceId (Topic.parseCertificateTopic (Ingest.e_topic eB))
    = Topic.deviceId (Topic.parseTopic (Ingest.e_topic eD)) ->
    Ingest.stageEvent eB Ingest.noneStaged = Ok stB ->
    Ingest.stageEvent eD Ingest.noneStaged = Ok stD ->
    (forall m', In m' (Ingest.metricsOf (Ingest.e_payload eD)) ->
                valued (Payload.name m') m' ->
       exists m, In m (Ingest.metricsOf (Ingest.e_payload eB))
                 /\ Payload.alias m = None
                 /\ Payload.name m = Payload.name m'
                 /\ valued (Payload.name m) m) ->
    forall v, In v (Ingest.metricValues stD) ->
      In (Ingest.metricId v) (map idOfPair (Ingest.newMetrics stB)).
Proof.
  intros N J eB eD stB stD HB HD Hdev HsB HsD Hcover v Hv.
  unfold Ingest.stageEvent in HsB, HsD. rewrite HB in HsB. rewrite HD in HsD.
  rewrite Hdev in HsB.
  destruct (Topic.deviceId (Topic.parseTopic (Ingest.e_topic eD)))
    as [[| c d] |]; try (injection HsD as <-; destruct Hv).
  destruct (Metrics.ts (Payload.p_timestamp (Ingest.e_payload eB)))
    as [birth | e]; [| discriminate].
  destruct (stageMetrics_values_from _ _ _ _ _ _ HsD v Hv)
    as [[] | (m' & n & Hm' & Hn & Hval & ->)].
  destruct (Hcover m' Hm' Hval) as (m & Hm & Hal & Hname & Hvm).
  assert (Hres : Metrics.resolveMetricName m = Some n).
  { unfold Metrics.resolveMetricName. rewrite Hal, Hname. exact Hn. }
  apply in_map_iff. exists (String c d, n). split; [reflexivity |].
  apply (stageMetrics_registers_valued _ _ _ _ _ HsB m n Hm Hres).
  unfold valued in *. rewrite Hres. rewrite Hname, Hn in Hvm. exact Hvm.
Qed.

Lemma update_values_join_definitions_witness :
  In "dev1/temperature" (map idOfPair (Ingest.newMetrics stagedDefinition)).
Proof.
  assert (HB : Ingest.stageEvent birthOfDev1 Ingest.noneStaged
               = Ok stagedDefinition) by reflexivity.
  assert (HD : Ingest.stageEvent dataOfDev1 Ingest.noneStaged
               = Ok stagedUpdate) by reflexivity.
  assert (Hdev : Topic.deviceId
                   (Topic.parseCertificateTopic (Ingest.e_topic birthOfDev1))
                 = Topic.deviceId
                     (Topic.parseTopic (Ingest.e_topic dataOfDev1)))
    by reflexivity.
  assert (Hv : In {| Ingest.metricId := "dev1/temperature";
                     Ingest.ts := Some 1000%Z;
                     Ingest.value := Payload.VNumber 22%Z;
                     Ingest.fromBirth := false |}
                 (Ingest.metricValues stagedUpdate)).
  { apply (nth_error_In _ 0). reflexivity. }
  refine (update_values_join_definitions ZNumber ZJson birthOfDev1 dataOfDev1
            stagedDefinition stagedUpdate eq_refl eq_refl Hdev HB HD _ _ Hv).
  intros m' [<- | []] _. exists (temperature 21).
  split; [right; left; reflexivity |].
  split; [reflexivity |]. split; [reflexivity |].
  split; [reflexivity |]. exists (Payload.VNumber (N := ZNumber) 21%Z).
  split; reflexivity.
Defined.


(** ** The listings and their cursors *)

Section TextOrder.

Lemma ascii_compare_refl c : Ascii.compare c c = Eq.
Proof. unfold Ascii.compare. apply N.compare_refl. Qed.

Lemma ascii_compare_trans a b c :
  Ascii.compare a b = Lt -> Ascii.compare b c = Lt -> Ascii.compare a c = Lt.
Proof.
  unfold Ascii.compare. rewrite !N.compare_lt_iff. apply N.lt_trans.
Qed.

Lemma compare_refl s : String.compare s s = Eq.
Proof.
  induction s as [| c s IH]; cbn; [reflexivity |].
  rewrite ascii_compare_refl. exact IH.
Qed.

Lemma compare_trans a :
  forall b c, String.compare a b = Lt -> String.compare b c = Lt ->
              String.compare a c = Lt.
Proof.
  induction a as [| x a IH]; intros [| y b] [| z c] H1 H2; cbn in *;
    try discriminate; try reflexivity.
  destruct (Ascii.compare x y) eqn:Exy; try discriminate.
  - apply Ascii.compare_eq_iff in Exy. subst y.
    destruct (Ascii.compare x z); try discriminate; [| reflexivity].
    apply (IH b c H1 H2).
  - destruct (Ascii.compare y z) eqn:Eyz; try discriminate.
    + apply Ascii.compare_eq_iff in Eyz. subst z. rewrite Exy. reflexivity.
    + rewrite (ascii_compare_trans x y z Exy Eyz). reflexivity.
Qed.

Lemma ltb_irrefl s : String.ltb s s = false.
Proof. unfold String.ltb. rewrite compare_refl. reflexivity. Qed.

Lemma ltb_trans a b c :
  String.ltb a b = true -> String.ltb b c = true -> String.ltb a c = true.
Proof.
  unfold String.ltb. intros H1 H2.
  destruct (String.compare a b) eqn:E1; try discriminate.
  destruct (String.compare b c) eqn:E2; try discriminate.
  rewrite (compare_trans a b c E1 E2). reflexivity.
Qed.

Lemma ltb_asym a b : String.ltb a b = true -> String.ltb b a = false.
Proof.
  intros H. destruct (String.ltb b a) eqn:E; [| reflexivity].
  pose proof (ltb_trans a b a H E) as Hc. rewrite ltb_irrefl in Hc.
  discriminate.
Qed.

Lemma ltb_total a b :
  String.ltb a b = false -> String.ltb b a = false -> a = b.
Proof.
  unfold String.ltb. rewrite (String.compare_antisym b a).
  destruct (String.compare a b) eqn:E; cbn; try discriminate.
  intros _ _. apply String.compare_eq_iff, E.
Qed.

End TextOrder.

Section Listing.
Import Api.
Context {A : Type} (key : A -> string).

Lemma insertBy_perm x l : Permutation (insertBy key x l) (x :: l).
Proof.
  induction l as [| y rest IH]; cbn; [apply Permutation_refl |].
  destruct (String.ltb (key y) (key x)); [| apply Permutation_refl].
  apply perm_trans with (y :: x :: rest);
    [apply perm_skip, IH | apply perm_swap].
Qed.

Lemma orderBy_perm l : Permutation (orderBy key l) l.
Proof.
  induction l as [| x rest IH]; cbn; [apply perm_nil |].
  apply perm_trans with (x :: orderBy key rest);
    [apply insertBy_perm | apply perm_skip, IH].
Qed.

Lemma insertBy_sorted x l :
  ~ In (key x) (map key l) ->
  StronglySorted (keyBefore key) l ->
  StronglySorted (keyBefore key) (insertBy key x l).
Proof.
  intros Hx Hs. induction Hs as [| y rest Hs IH Hy]; cbn.
  - constructor; constructor.
  - destruct (String.ltb (key y) (key x)) eqn:E.
    + constructor.
      * apply IH. intros H. apply Hx. right. exact H.
      * rewrite Forall_forall in *. intros z Hz.
        apply (Permutation_in _ (insertBy_perm x rest)) in Hz.
        destruct Hz as [<- | Hz]; [exact E | apply Hy, Hz].
    + assert (Hxy : keyBefore key x y).
      { unfold keyBefore. destruct (String.ltb (key x) (key y)) eqn:E2;
          [reflexivity |].
        exfalso. apply Hx. left. symmetry. apply (ltb_total _ _ E2 E). }
      constructor; [constructor; assumption |].
      constructor; [exact Hxy |].
      rewrite Forall_forall in *. intros z Hz.
      apply (ltb_trans _ _ _ Hxy), Hy, Hz.
Qed.

Lemma orderBy_sorted l :
  NoDup (map key l) -> StronglySorted (keyBefore key) (orderBy key l).
Proof.
  induction l as [| x rest IH]; cbn; intros Hnd; [constructor |].
  inversion Hnd as [| ? ? Hx Hrest]; subst.
  apply insertBy_sorted; [| apply IH, Hrest].
  intros H. apply Hx.
  apply (Permutation_in _ (Permutation_map key (orderBy_perm rest))), H.
Qed.

(** Two lists in strict order with the same rows are one list. *)
Lemma sorted_unique (l1 : list A) :
  forall l2,
  StronglySorted (keyBefore key) l1 -> StronglySorted (keyBefore key) l2 ->
  (forall x, In x l1 <-> In x l2) -> l1 = l2.
Proof.
  induction l1 as [| a l1 IH]; intros [| b l2] H1 H2 Hin.
  - reflexivity.
  - destruct (proj2 (Hin b) (or_introl eq_refl)).
  - destruct (proj1 (Hin a) (or_introl eq_refl)).
  - inversion H1 as [| ? ? Hs1 Ha]; subst.
    inversion H2 as [| ? ? Hs2 Hb]; subst.
    rewrite Forall_forall in Ha, Hb.
    assert (Hab : a = b).
    { destruct (proj1 (Hin a) (or_introl eq_refl)) as [E | Hal2]; [auto |].
      destruct (proj2 (Hin b) (or_introl eq_refl)) as [E | Hbl1]; [auto |].
      pose proof (Hb a Hal2) as Hba. pose proof (Ha b Hbl1) as Hab.
      unfold keyBefore in *. rewrite (ltb_asym _ _ Hba) in Hab. discriminate. }
    subst b. f_equal. apply (IH l2 Hs1 Hs2).
    intros x. split; intros Hx.
    + destruct (proj1 (Hin x) (or_intror Hx)) as [<- | H]; [| exact H].
      pose proof (Ha a Hx) as Hc. unfold keyBefore in Hc.
      rewrite ltb_irrefl in Hc. discriminate.
    + destruct (proj2 (Hin x) (or_intror Hx)) as [<- | H]; [| exact H].
      pose proof (Hb a Hx) as Hc. unfold keyBefore in Hc.
      rewrite ltb_irrefl in Hc. discriminate.
Qed.

Lemma filter_sorted (f : A -> bool) l :
  StronglySorted (keyBefore key) l ->
  StronglySorted (keyBefore key) (filter f l).
Proof.
  intros Hs. induction Hs as [| y rest Hs IH Hy]; cbn; [constructor |].
  destruct (f y); [| exact IH].
  constructor; [exact IH |].
  rewrite Forall_forall in *. intros z Hz.
  apply filter_In in Hz. apply Hy, Hz.
Qed.

(** The rows of a selection, in order: those of the whole listing that
    come after the cursor. *)
Lemma select_after condition rows cursor :
  NoDup (map key (filter condition rows)) ->
  orderBy key
    (filter (fun r => condition r && afterCursor cursor (key r)) rows)
  = filter (fun r => afterCursor cursor (key r))
      (orderBy key (filter condition rows)).
Proof.
  intros Hnd.
  assert (Hsplit : filter (fun r => condition r && afterCursor cursor (key r)) rows
                   = filter (fun r => afterCursor cursor (key r))
                       (filter condition rows)).
  { clear Hnd. induction rows as [| r rest IH]; cbn [filter]; [reflexivity |].
    destruct (condition r); cbn [andb filter]; [| exact IH].
    destruct (afterCursor cursor (key r)); [f_equal |]; exact IH. }
  apply sorted_unique.
  - apply orderBy_sorted. rewrite Hsplit.
    revert Hnd. generalize (filter condition rows). intros l.
    induction l as [| r rest IH]; cbn; intros Hnd; [constructor |].
    inversion Hnd as [| ? ? Hr Hrest]; subst.
    destruct (afterCursor cursor (key r)); [| apply IH, Hrest].
    cbn. constructor; [| apply IH, Hrest].
    intros H. apply Hr. apply in_map_iff in H. destruct H as (x & Hk & Hx).
    apply filter_In in Hx. apply in_map_iff. exists x. tauto.
  - apply filter_sorted, orderBy_sorted, Hnd.
  - intros x. rewrite Hsplit. split; intros Hx.
    + apply (Permutation_in _ (orderBy_perm _)) in Hx.
      apply filter_In in Hx. apply filter_In. split; [| tauto].
      apply (Permutation_in _ (Permutation_sym (orderBy_perm _))). tauto.
    + apply filter_In in Hx.
      apply (Permutation_in _ (Permutation_sym (orderBy_perm _))).
      apply filter_In. split; [| tauto].
      apply (Permutation_in _ (orderBy_perm _)). tauto.
Qed.

(** In a list in strict order the rows after the key of a row are the
    rows behind it. *)
Lemma after_row done x todo :
  StronglySorted (keyBefore key) (done ++ x :: todo) ->
  filter (fun r => afterCursor (Some (key x)) (key r)) (done ++ x :: todo)
  = todo.
Proof.
  intros Hs. cbn [afterCursor].
  assert (Htodo : forall l, Forall (keyBefore key x) l ->
                            filter (fun r => String.ltb (key x) (key r)) l = l).
  { induction l as [| r rest IH]; cbn; intros H; [reflexivity |].
    inversion H as [| ? ? Hr Hrest]; subst.
    unfold keyBefore in Hr. rewrite Hr, (IH Hrest). reflexivity. }
  induction done as [| d done IH]; cbn in *.
  - inversion Hs as [| ? ? _ Hx]; subst.
    rewrite ltb_irrefl. apply Htodo, Hx.
  - inversion Hs as [| ? ? Hs' Hd]; subst.
    rewrite Forall_forall in Hd.
    assert (Hdx : keyBefore key d x).
    { apply Hd, in_or_app. right. left. reflexivity. }
    unfold keyBefore in Hdx. rewrite (ltb_asym _ _ Hdx). apply IH, Hs'.
Qed.

Lemma coerceLimit_bounds raw : (1 <= coerceLimit raw <= API_MAX_LIMIT)%Z.
Proof.
  unfold coerceLimit, API_MAX_LIMIT.
  destruct (parseInt raw) as [n |]; [| lia].
  destruct (Z.eqb_spec n 0); cbn; [lia |].
  destruct (Z.leb_spec n 0); lia.
Qed.

Lemma last_of_firstn (n : nat) (l : list A) :
  0 < n -> n <= List.length l ->
  exists pre x, firstn n l = pre ++ [x]
                /\ nth_error (firstn n l) (List.length (firstn n l) - 1) = Some x.
Proof.
  intros Hn Hl.
  assert (Hlen : List.length (firstn n l) = n) by (apply firstn_length_le, Hl).
  destruct (firstn n l) as [| a rest] eqn:E using rev_ind.
  - cbn in Hlen. lia.
  - exists rest, a. split; [reflexivity |].
    rewrite length_app. cbn [List.length].
    rewrite nth_error_app2 by lia.
    replace (List.length rest + 1 - 1 - List.length rest) with 0 by lia.
    reflexivity.
Qed.

(** Reading a listing page after page gives the whole listing. *)
Lemma walk_listing condition rows limit fuel :
  NoDup (map key (filter condition rows)) ->
  (forall r, In r (filter condition rows) -> key r <> EmptyString) ->
  forall done todo cursor,
  orderBy key (filter condition rows) = done ++ todo ->
  filter (fun r => afterCursor (cursorParam cursor) (key r))
    (orderBy key (filter condition rows)) = todo ->
  List.length todo <= fuel ->
  walk (fun c => respond key
                   (selectPage key condition rows (cursorParam c)
                      (coerceLimit limit))
                   (coerceLimit limit)) fuel cursor
  = todo.
Proof.
  intros Hnd Hkey.
  pose proof (coerceLimit_bounds limit) as Hlim.
  set (lim := coerceLimit limit) in *.
  set (all := orderBy key (filter condition rows)).
  assert (Hsorted : StronglySorted (keyBefore key) all)
    by apply orderBy_sorted, Hnd.
  set (request := fun c => respond key
                              (selectPage key condition rows (cursorParam c) lim)
                              lim).
  assert (Hitems : forall c,
            items (request c)
            = firstn (Z.to_nat lim)
                (filter (fun r => afterCursor (cursorParam c) (key r)) all)).
  { intros c. unfold request, respond, selectPage. cbn [items].
    rewrite (select_after _ _ _ Hnd). reflexivity. }
  assert (Hnext : forall c,
            nextCursor (request c)
            = if (Z.of_nat (List.length (items (request c))) =? lim)%Z
              then option_map key
                     (nth_error (items (request c))
                        (List.length (items (request c)) - 1))
              else None) by reflexivity.
  induction fuel as [| fuel IH]; intros done todo cursor Hall Hafter Hfuel.
  - cbn [walk]. rewrite Hitems, Hafter.
    destruct todo; [| cbn in Hfuel; lia].
    apply firstn_nil.
  - cbn [walk]. rewrite Hnext, Hitems, Hafter.
    destruct (Z.eqb_spec (Z.of_nat (List.length (firstn (Z.to_nat lim) todo))) lim)
      as [Efull | Efull].
    + assert (Hle : Z.to_nat lim <= List.length todo).
      { rewrite length_firstn in Efull. lia. }
      destruct (last_of_firstn (Z.to_nat lim) todo ltac:(lia) Hle)
        as (pre & x & Hpre & Hlast).
      rewrite Hlast. cbn [option_map].
      assert (Htodo : todo = (pre ++ [x]) ++ skipn (Z.to_nat lim) todo).
      { rewrite <- Hpre. symmetry. apply firstn_skipn. }
      assert (Hx : In x (filter condition rows)).
      { apply (Permutation_in _ (orderBy_perm _)). fold all. rewrite Hall.
        apply in_or_app. right. rewrite Htodo.
        apply in_or_app. left. apply in_or_app. right. left. reflexivity. }
      assert (Hcur : cursorParam (Some (key x)) = Some (key x)).
      { unfold cursorParam. cbn. specialize (Hkey x Hx).
        destruct (key x); [congruence | reflexivity]. }
      rewrite (IH (done ++ pre ++ [x]) (skipn (Z.to_nat lim) todo)
                 (Some (key x))).
      * rewrite Hpre. symmetry. exact Htodo.
      * rewrite Hall. rewrite Htodo at 1. rewrite <- !app_assoc. reflexivity.
      * rewrite Hcur.
        assert (Hshape : all = (done ++ pre) ++ x :: skipn (Z.to_nat lim) todo).
        { rewrite Hall. rewrite Htodo at 1. rewrite <- !app_assoc. reflexivity. }
        rewrite Hshape. apply after_row. rewrite <- Hshape. exact Hsorted.
      * rewrite length_skipn. lia.
    + rewrite length_firstn in Efull.
      apply firstn_all2. lia.
Qed.

End Listing.

Section ListingEndpoints.
Import Api.

Lemma filter_all_rows {A} (l : list A) : filter (fun _ => true) l = l.
Proof.
  induction l as [| x rest IH]; cbn; [reflexivity | rewrite IH; reflexivity].
Qed.

Lemma filter_length_le {A} (f : A -> bool) (l : list A) :
  List.length (filter f l) <= List.length l.
Proof.
  induction l as [| x rest IH]; cbn; [lia |].
  destruct (f x); cbn; lia.
Qed.

(** The whole listing, read from its first page. *)
Lemma walk_from_start {A} (key : A -> string) condition rows limit fuel :
  NoDup (map key (filter condition rows)) ->
  (forall r, In r (filter condition rows) -> key r <> EmptyString) ->
  List.length (filter condition rows) <= fuel ->
  walk (fun c => respond key
                   (selectPage key condition rows (cursorParam c)
                      (coerceLimit limit))
                   (coerceLimit limit)) fuel None
  = orderBy key (filter condition rows).
Proof.
  intros Hnd Hkey Hfuel.
  apply (walk_listing key condition rows limit fuel Hnd Hkey []).
  - reflexivity.
  - cbn. apply filter_all_rows.
  - rewrite (Permutation_length (orderBy_perm key _)). exact Hfuel.
Qed.

Lemma page_length {A} (key : A -> string) condition rows cursor limit :
  (Z.of_nat
     (List.length (selectPage key condition rows cursor (coerceLimit limit)))
   <= API_MAX_LIMIT)%Z.
Proof.
  pose proof (coerceLimit_bounds limit) as H.
  unfold selectPage. rewrite length_firstn. lia.
Qed.

End ListingEndpoints.

(** X15. Reading [/api/devices] page after page, with the cursor of each
    answer as the cursor of the next request, lists every device exactly
    once, in the order of the names, whatever limit is asked for, when the
    names are unique and none is empty; and no page holds more than 10000
    devices. *)
Theorem devices_listed_once_in_order :
  forall (t : Repo.Tables) (limit : option string) (fuel : nat),
    NoDup (map Repo.device_name (Repo.devices t)) ->
    (forall r, In r (Repo.devices t) -> Repo.device_name r <> EmptyString) ->
    List.length (Repo.devices t) <= fuel ->
    Permutation (walk (fun c => Api.listDevices t c limit) fuel None)
      (Repo.devices t)
    /\ StronglySorted (keyBefore Repo.device_name)
         (walk (fun c => Api.listDevices t c limit) fuel None)
    /\ forall cursor,
         (Z.of_nat (List.length (Api.items (Api.listDevices t cursor limit)))
          <= 10000)%Z.
Proof.
  intros t limit fuel Hnd Hkey Hfuel.
  assert (Hwalk : walk (fun c => Api.listDevices t c limit) fuel None
                  = Api.orderBy Repo.device_name (Repo.devices t)).
  { unfold Api.listDevices.
    rewrite (walk_from_start Repo.device_name (fun _ => true));
      rewrite ?filter_all_rows; auto. }
  rewrite Hwalk. split; [apply orderBy_perm |].
  split; [apply orderBy_sorted, Hnd |].
  intros cursor. apply page_length.
Qed.

(** X16. Reading [/api/devices/:device/metrics] page after page, with the
    cursor of each answer as the cursor of the next request, lists every
    definition of the device exactly once, in the order of the metric
    names, and no definition of another device, whatever limit is asked
    for, when the metric names of the device are unique and none is empty;
    and no page holds more than 10000 definitions. *)
Theorem metrics_listed_once_in_order :
  forall (t : Repo.Tables) (device : string) (limit : option string)
         (fuel : nat),
    let ofDevice := fun m => String.eqb (Repo.m_device_name m) device in
    NoDup (map Repo.metric_name (filter ofDevice (Repo.device_metrics t))) ->
    (forall m, In m (Repo.device_metrics t) ->
               Repo.m_device_name m = device ->
               Repo.metric_name m <> EmptyString) ->
    List.length (Repo.device_metrics t) <= fuel ->
    Permutation (walk (fun c => Api.listMetrics t device c limit) fuel None)
      (filter ofDevice (Repo.device_metrics t))
    /\ StronglySorted (keyBefore Repo.metric_name)
         (walk (fun c => Api.listMetrics t device c limit) fuel None)
    /\ forall cursor,
         (Z.of_nat
            (List.length (Api.items (Api.listMetrics t device cursor limit)))
          <= 10000)%Z.
Proof.
  intros t device limit fuel ofDevice Hnd Hkey Hfuel.
  assert (Hwalk : walk (fun c => Api.listMetrics t device c limit) fuel None
                  = Api.orderBy Repo.metric_name
                      (filter ofDevice (Repo.device_metrics t))).
  { unfold Api.listMetrics.
    apply (walk_from_start Repo.metric_name ofDevice); [exact Hnd | |].
    - intros m Hm. apply filter_In in Hm. destruct Hm as [Hm Hd].
      apply (Hkey m Hm). apply String.eqb_eq, Hd.
    - pose proof (filter_length_le ofDevice (Repo.device_metrics t)). lia. }
  rewrite Hwalk. split; [apply orderBy_perm |].
  split; [apply orderBy_sorted, Hnd |].
  intros cursor. apply page_length.
Qed.

(** ** The limit of a listing *)

Section Limits.
Import Api.

Lemma digitPrefix_numeral d :
  digitPrefix (NilEmpty.string_of_uint d) = NilEmpty.string_of_uint d.
Proof.
  induction d; cbn; try rewrite IHd; reflexivity.
Qed.

Lemma parseInt_digits c r :
  Js.isSpace c = false -> Ascii.eqb c "-" = false -> Ascii.eqb c "+" = false ->
  parseInt (Some (String c r))
  = match digitPrefix (String c r) with
    | EmptyString => None
    | ds =>
        match NilEmpty.uint_of_string ds with
        | Some d => Some (Z.of_uint d)
        | None => None
        end
    end.
Proof.
  intros H1 H2 H3. unfold parseInt. cbn [Js.trimStart].
  rewrite H1, H2, H3. reflexivity.
Qed.

Lemma parseInt_unsigned d :
  d <> Decimal.Nil ->
  parseInt (Some (NilEmpty.string_of_uint d)) = Some (Z.of_uint d).
Proof.
  intros Hd.
  assert (Hshape : exists c r,
            NilEmpty.string_of_uint d = String c r
            /\ Js.isSpace c = false
            /\ Ascii.eqb c "-" = false /\ Ascii.eqb c "+" = false).
  { destruct d; [congruence | ..]; cbn; eexists; eexists; repeat split. }
  destruct Hshape as (c & r & Hs & Hsp & Hm & Hp).
  rewrite Hs, (parseInt_digits c r Hsp Hm Hp), <- Hs.
  rewrite digitPrefix_numeral, Hs. cbv beta iota.
  rewrite <- Hs, NilEmpty.usu. reflexivity.
Qed.

Lemma parseInt_negative d :
  parseInt (Some (String "-" (NilEmpty.string_of_uint d)))
  = match d with
    | Decimal.Nil => None
    | _ => Some (- Z.of_uint d)%Z
    end.
Proof.
  unfold parseInt. cbn [Js.trimStart].
  replace (Js.isSpace "-") with false by reflexivity.
  replace (Ascii.eqb "-" "-") with true by reflexivity.
  rewrite digitPrefix_numeral.
  destruct (NilEmpty.string_of_uint d) as [| a s] eqn:Hs.
  - destruct d; [reflexivity | ..]; discriminate Hs.
  - rewrite <- Hs, NilEmpty.usu.
    destruct d; [discriminate Hs | ..]; reflexivity.
Qed.

Lemma to_uint_not_nil p : Pos.to_uint p <> Decimal.Nil.
Proof.
  intros H. pose proof (DecimalPos.Unsigned.of_to p) as E.
  rewrite H in E. discriminate.
Qed.

(** The decimal rendering of an integer is read back as that integer. *)
Lemma parseInt_numeral (n : Z) :
  parseInt (Some (Payload.Int_toString n)) = Some n.
Proof.
  unfold Payload.Int_toString.
  pose proof (DecimalZ.of_to n) as Hn.
  destruct n as [| p | p]; cbn [Z.to_int NilEmpty.string_of_int] in *.
  - reflexivity.
  - rewrite parseInt_unsigned by apply to_uint_not_nil.
    f_equal. exact Hn.
  - rewrite parseInt_negative.
    destruct (Pos.to_uint p) eqn:E;
      [exfalso; apply (to_uint_not_nil p E) | ..];
      f_equal; exact Hn.
Qed.

End Limits.

(** X17. The limit of a listing is always between 1 and 10000: it is 10000
    when the parameter is absent or does not start with a number, and for
    the decimal rendering of an integer [n] it is [n] from 1 to 10000 and
    10000 for every other [n]. *)
Theorem limit_between_1_and_10000 :
  (forall raw, (1 <= Api.coerceLimit raw <= 10000)%Z)
  /\ Api.coerceLimit None = 10000%Z
  /\ (forall raw, Api.parseInt raw = None -> Api.coerceLimit raw = 10000%Z)
  /\ (forall n : Z,
        Api.coerceLimit (Some (Payload.Int_toString n))
        = if (0 <? n)%Z && (n <=? 10000)%Z then n else 10000%Z).
Proof.
  split; [apply coerceLimit_bounds |].
  split; [reflexivity |].
  split; [intros raw H; unfold Api.coerceLimit; rewrite H; reflexivity |].
  intros n. unfold Api.coerceLimit. rewrite parseInt_numeral.
  unfold Api.API_MAX_LIMIT.
  destruct (Z.eqb_spec n 0), (Z.leb_spec n 0), (Z.ltb_spec 0 n),
    (Z.leb_spec n 10000); cbn; lia.
Qed.

(** Two devices a page: the first page ends at [pump], the second page
    holds the last device and no cursor. *)
Example devices_in_pages_of_two :
  map Repo.device_name
    (Api.items (Api.listDevices threeDevices None (Some "2")))
  = ["fan"; "pump"]
  /\ Api.nextCursor (Api.listDevices threeDevices None (Some "2"))
     = Some "pump"
  /\ map Repo.device_name
       (Api.items (Api.listDevices threeDevices (Some "pump") (Some "2")))
     = ["valve"]
  /\ Api.nextCursor (Api.listDevices threeDevices (Some "pump") (Some "2"))
     = None.
Proof. repeat split. Qed.

Lemma devices_listed_once_in_order_witness :
  NoDup (map Repo.device_name (Repo.devices threeDevices))
  /\ List.length (Repo.devices threeDevices) <= 3
  /\ Permutation
       (walk (fun c => Api.listDevices threeDevices c (Some "2")) 3 None)
       (Repo.devices threeDevices).
Proof.
  assert (Hnd : NoDup (map Repo.device_name (Repo.devices threeDevices))).
  { cbn. repeat (apply NoDup_cons; [cbn; intuition discriminate |]).
    apply NoDup_nil. }
  assert (Hkey : forall r, In r (Repo.devices threeDevices) ->
                           Repo.device_name r <> EmptyString).
  { cbn. intros r [<- | [<- | [<- | []]]]; discriminate. }
  assert (Hlen : List.length (Repo.devices threeDevices) <= 3).
  { cbn. lia. }
  split; [exact Hnd |]. split; [exact Hlen |].
  exact (proj1 (devices_listed_once_in_order threeDevices (Some "2") 3
                  Hnd Hkey Hlen)).
Defined.

Lemma metrics_listed_once_in_order_witness :
  NoDup (map Repo.metric_name
           (filter (fun m => String.eqb (Repo.m_device_name m) "pump")
              (Repo.device_metrics threeDevices)))
  /\ List.length (Repo.device_metrics threeDevices) <= 3
  /\ Permutation
       (walk (fun c => Api.listMetrics threeDevices "pump" c (Some "1")) 3 None)
       (filter (fun m => String.eqb (Repo.m_device_name m) "pump")
          (Repo.device_metrics threeDevices)).
Proof.
  assert (Hnd : NoDup (map Repo.metric_name
                         (filter (fun m => String.eqb (Repo.m_device_name m) "pump")
                            (Repo.device_metrics threeDevices)))).
  { cbn. repeat (apply NoDup_cons; [cbn; intuition discriminate |]).
    apply NoDup_nil. }
  assert (Hkey : forall m, In m (Repo.device_metrics threeDevices) ->
                           Repo.m_device_name m = "pump" ->
                           Repo.metric_name m <> EmptyString).
  { cbn. intros m [<- | [<- | [<- | []]]] _; discriminate. }
  assert (Hlen : List.length (Repo.device_metrics threeDevices) <= 3).
  { cbn. lia. }
  split; [exact Hnd |]. split; [exact Hlen |].
  exact (proj1 (metrics_listed_once_in_order threeDevices "pump" (Some "1") 3
                  Hnd Hkey Hlen)).
Defined.

Lemma limit_between_1_and_10000_witness :
  Api.parseInt (Some "all") = None /\ Api.coerceLimit (Some "all") = 10000%Z.
Proof.
  split; [reflexivity |].
  destruct limit_between_1_and_10000 as (_ & _ & H & _).
  apply H. reflexivity.
Defined.


(** ** The connection of the client *)

Section ConnectionEvents.
Import Client Connection.

Lemma handle_connecting ev c :
  connecting c = false -> connecting (fst (handle ev c)) = false.
Proof.
  intros H. destruct ev; cbn; try exact H; try reflexivity.
  - rewrite H. exact H.
  - destruct (connected c); exact H.
Qed.

(** Once [connecting] is false nothing is done about an error. *)
Lemma handleAll_connected evs :
  forall c, connecting c = false ->
  filter isErrorOutput (snd (handleAll evs c)) = [].
Proof.
  induction evs as [| ev rest IH]; intros c H; cbn [handleAll];
    [reflexivity |].
  pose proof (handle_connecting ev c H) as H1.
  destruct (handle ev c) as [c1 out1] eqn:E1. cbn [fst] in H1.
  specialize (IH c1 H1).
  destruct (handleAll rest c1) as [c2 out2]. cbn [snd] in *.
  rewrite filter_app, IH, app_nil_r.
  destruct ev; cbn in E1; try (injection E1 as <- <-; reflexivity).
  - rewrite H in E1. injection E1 as <- <-. reflexivity.
  - destruct (connected c); injection E1 as <- <-; reflexivity.
Qed.

Lemma handleAll_app evs1 :
  forall evs2 c,
  handleAll (evs1 ++ evs2) c
  = (fst (handleAll evs2 (fst (handleAll evs1 c))),
     snd (handleAll evs1 c) ++ snd (handleAll evs2 (fst (handleAll evs1 c)))).
Proof.
  induction evs1 as [| ev rest IH]; intros evs2 c; cbn [handleAll app].
  - cbn. destruct (handleAll evs2 c). reflexivity.
  - destruct (handle ev c) as [c1 out1]. rewrite IH.
    destruct (handleAll rest c1) as [c2 out2]. cbn [fst snd].
    rewrite app_assoc. reflexivity.
Qed.

(** [close] is emitted at most once for each [connect], and the flag
    tells whether one is due. *)
Lemma handleAll_closes evs :
  forall c,
  countOf isEmitClose (snd (handleAll evs c))
  <= countOf isEmitConnect (snd (handleAll evs c))
     + (if connected c then 1 else 0).
Proof.
  unfold countOf.
  induction evs as [| ev rest IH]; intros c; cbn [handleAll]; [cbn; lia |].
  destruct (handle ev c) as [c1 out1] eqn:E1.
  specialize (IH c1).
  destruct (handleAll rest c1) as [c2 out2]. cbn [snd] in *.
  rewrite !filter_app, !length_app.
  destruct ev; cbn in E1;
    try (injection E1 as <- <-; cbn; lia).
  - injection E1 as <- <-. cbn in *. destruct (connected c); lia.
  - destruct (connecting c); injection E1 as <- <-; cbn; lia.
  - destruct (connected c) eqn:Ec; injection E1 as <- <-; cbn in *;
      rewrite ?Ec in *; lia.
Qed.

(** While the client is connecting every error is passed on. *)
Lemma handleAll_connecting evs :
  forall c, connecting c = true -> noConnect evs = true ->
  filter isErrorOutput (snd (handleAll evs c)) = errorsOf evs.
Proof.
  induction evs as [| ev rest IH]; intros c H Hno; cbn [handleAll];
    [reflexivity |].
  cbn in Hno. apply andb_prop in Hno. destruct Hno as [Hev Hrest].
  assert (H1 : connecting (fst (handle ev c)) = true).
  { destruct ev; cbn; try exact H; try discriminate.
    - rewrite H. exact H.
    - destruct (connected c); exact H. }
  destruct (handle ev c) as [c1 out1] eqn:E1. cbn [fst] in H1.
  specialize (IH c1 H1 Hrest).
  destruct (handleAll rest c1) as [c2 out2]. cbn [snd] in *.
  rewrite filter_app, IH. cbn [errorsOf flat_map]. f_equal.
  destruct ev; cbn in E1; try discriminate;
    try (injection E1 as <- <-; reflexivity).
  - rewrite H in E1. injection E1 as <- <-. reflexivity.
  - destruct (connected c); injection E1 as <- <-; reflexivity.
Qed.

End ConnectionEvents.

(** X18. From the construction of the client on, whatever the MQTT client
    reports: until the first [connect] every error is passed on to the
    listeners and ends the MQTT client; after the first [connect] no error
    is passed on and none ends the MQTT client; and [close] is never
    emitted more often than [connect]. *)
Theorem errors_only_before_first_connect :
  forall before later : list Connection.TransportEvent,
    (noConnect before = true ->
     filter isErrorOutput
       (snd (Connection.handleAll before Connection.constructed))
     = errorsOf before)
    /\ filter isErrorOutput
         (snd (Connection.handleAll later
                 (fst (Connection.handleAll (before ++ [Connection.TConnect])
                         Connection.constructed))))
       = []
    /\ countOf isEmitClose
         (snd (Connection.handleAll later Connection.constructed))
       <= countOf isEmitConnect
            (snd (Connection.handleAll later Connection.constructed)).
Proof.
  intros before later.
  split; [apply handleAll_connecting; reflexivity |]. split.
  - apply handleAll_connected.
    rewrite handleAll_app. cbn [fst].
    destruct (fst (Connection.handleAll before Connection.constructed)).
    reflexivity.
  - pose proof (handleAll_closes later Connection.constructed) as H.
    cbn in H. lia.
Qed.

Lemma errors_only_before_first_connect_witness :
  noConnect [Connection.TError "refused"; Connection.TClose] = true
  /\ filter isErrorOutput
       (snd (Connection.handleAll
               [Connection.TError "refused"; Connection.TClose]
               Connection.constructed))
     = [Connection.EmitError "refused"; Connection.EndClient].
Proof.
  split; [reflexivity |].
  apply (proj1 (errors_only_before_first_connect
                  [Connection.TError "refused"; Connection.TClose] [])).
  reflexivity.
Defined.


(** ** The warnings of the metric normaliser *)

Section Warnings.
Import Payload Metrics.
Context {N : JsNumber}.

Lemma getMetricValue_log :
  forall m : UMetric,
    snd (getMetricValue m) = []
    \/ (fst (getMetricValue m) = Ok VNull
        /\ exists text, snd (getMetricValue m) = warn text).
Proof.
  fix IH 1. intros [n a ty v t]. cbn [getMetricValue].
  destruct (isNumericType ty).
  { destruct (makeNumber v); left; reflexivity. }
  destruct (String.eqb ty "Boolean" || String.eqb ty "String");
    [left; reflexivity |].
  destruct (String.eqb ty "Template"); [| left; reflexivity].
  destruct v as [| | | | | | isDefinition templateRef metrics |];
    try (left; reflexivity).
  destruct isDefinition as [[|] |]; try (left; reflexivity);
    (destruct (Js.startsWith templateRef statusPrefix);
     [| right; split; [reflexivity | eexists; reflexivity]];
     induction metrics as [| m rest IHrest];
     [right; split; [reflexivity | eexists; reflexivity] |];
     destruct (isValueMetric m); [apply IH | exact IHrest]).
Qed.

End Warnings.

(** X19. Whenever [getMetricValue] writes to the logger, at any depth of
    the templates, it writes one warning and nothing else, the metric has
    no value, and the staging loop passes over the metric: neither a value
    nor a definition is staged for it. *)
Theorem warned_metric_is_skipped :
  forall (N : JsNumber) (J : Repo.Json) (m : Payload.UMetric),
    snd (Metrics.getMetricValue m) <> [] ->
    fst (Metrics.getMetricValue m) = Ok Payload.VNull
    /\ (exists text,
          snd (Metrics.getMetricValue m)
          = [{| level := WARN; message := text |}])
    /\ forall birth names deviceId rest acc,
         Ingest.stageMetrics birth names deviceId (m :: rest) acc
         = Ingest.stageMetrics birth names deviceId rest acc.
Proof.
  intros N J m Hlog.
  destruct (getMetricValue_log m) as [H | [Hnull Hwarn]]; [contradiction |].
  split; [exact Hnull |]. split; [exact Hwarn |].
  intros birth names deviceId rest acc. cbn [Ingest.stageMetrics].
  rewrite Hnull. cbn [Payload.isNullish].
  destruct (names m) as [[| c n] |]; reflexivity.
Qed.

Lemma warned_metric_is_skipped_witness :
  Ingest.stageMetrics true Metrics.resolveMetricName "dev1"
    [Payload.Metric (N := ZNumber) (Some "drive") None "Template"
       (Payload.VTemplate (Some false) "modbus:Register" []) None]
    Ingest.noneStaged
  = Ok Ingest.noneStaged.
Proof.
  destruct (warned_metric_is_skipped ZNumber ZJson
              (Payload.Metric (Some "drive") None "Template"
                 (Payload.VTemplate (Some false) "modbus:Register" []) None))
    as (_ & _ & H).
  - discriminate.
  - rewrite H. reflexivity.
Defined.


(** ** The threshold of the logger *)

(** X20. A logger made for a level writes a message exactly when the
    severity of the message is at least that level and the context does
    not ask to omit it from the console; [isDebugEnabled] tells whether
    debug messages are written; and every logger derived by [with], also
    from a logger made without a level, has the threshold of the level
    its parent reports. *)
Theorem logger_threshold :
  forall (level l : LogLevel) (omit : bool) (parent : Logger.MappedLogger),
    (Logger.call l (Logger.construct (Some level) omit) = Logger.Written l
     <-> severity level <= severity l /\ omit = false)
    /\ (Logger.call l (Logger.construct (Some level) omit) = Logger.Nothing
        <-> severity l < severity level)
    /\ (Logger.isDebugEnabled (Logger.construct (Some level) omit) = true
        <-> Logger.call DEBUG (Logger.construct (Some level) omit)
            <> Logger.Nothing)
    /\ (Logger.call l (Logger.with_ parent) = Logger.Nothing
        <-> severity l < severity (Logger.getLevel parent)).
Proof.
  intros level l omit parent.
  split; [| split; [| split]].
  - destruct level, l, omit; cbn; split;
      try (intros [H1 H2]); try intros H; try discriminate; try lia;
      try (split; [lia | reflexivity]); reflexivity.
  - destruct level, l, omit; cbn; split; intros H;
      try discriminate; try lia; reflexivity.
  - destruct level, omit; cbn; split; intros H;
      try discriminate; try reflexivity; try congruence;
      exfalso; apply H; reflexivity.
  - unfold Logger.with_, Logger.getLevel.
    destruct (Logger._loglevel parent), l, (Logger.omitFromConsole parent);
      cbn; split; intros H; try discriminate; try lia; reflexivity.
Qed.

Lemma logger_threshold_witness :
  severity WARN <= severity ERROR
  /\ Logger.call ERROR (Logger.getLogger (Some WARN)) = Logger.Written ERROR.
Proof.
  split; [cbn; lia |].
  apply (proj1 (logger_threshold WARN ERROR false (Logger.getLogger None))).
  split; [cbn; lia | reflexivity].
Defined.

(** A logger made without a level reports [INFO] and writes debug
    messages all the same; the loggers derived from it do not. *)
Example logger_without_level :
  Logger.getLevel (Logger.construct None false) = INFO
  /\ Logger.isDebugEnabled (Logger.construct None false) = false
  /\ Logger.call DEBUG (Logger.construct None false) = Logger.Written DEBUG
  /\ Logger.call DEBUG (Logger.with_ (Logger.construct None false))
     = Logger.Nothing.
Proof. repeat split. Qed.


(** ** From a definition event to the status of its device *)

Section FreshDevices.
Import Payload Ingest.
Context {N : JsNumber} {J : Repo.Json}.

Lemma stageMetrics_keeps_values birth names d ms :
  forall acc st,
  stageMetrics birth names d ms acc = Ok st ->
  forall v, In v (metricValues acc) -> In v (metricValues st).
Proof.
  induction ms as [| m rest IH]; intros acc st H v Hv; cbn [stageMetrics] in H.
  - injection H as <-. exact Hv.
  - destruct (names m) as [[| c n] |]; try (apply (IH acc st H v Hv)).
    destruct (fst (Metrics.getMetricValue m)) as [val | e]; [| discriminate].
    destruct (isNullish val); [apply (IH acc st H v Hv) |].
    destruct (Metrics.ts (timestamp m)) as [tstamp | e]; [| discriminate].
    apply (IH _ st H). cbn. apply in_or_app. left. exact Hv.
Qed.

(** A definition event stages a value for every metric it has a value
    and a timestamp for. *)
Lemma stageMetrics_stages_valued birth names d ms :
  forall acc st,
  stageMetrics birth names d ms acc = Ok st ->
  forall m n tstamp, In m ms -> names m = Some n -> valued (names m) m ->
    Metrics.ts (timestamp m) = Ok tstamp ->
    exists v, In v (metricValues st)
              /\ metricId v = Repo.metricId d n /\ ts v = tstamp.
Proof.
  induction ms as [| m0 rest IH]; intros acc st H m n tstamp Hm Hn Hv Ht;
    [destruct Hm |].
  cbn [stageMetrics] in H. destruct Hm as [-> | Hm].
  - destruct Hv as (Hty & val & Hval & Hnull). rewrite Hn in H, Hty.
    destruct n as [| c n]; [discriminate |].
    rewrite Hval, Hnull, Ht in H.
    eexists. split.
    + apply (stageMetrics_keeps_values _ _ _ _ _ _ H). cbn.
      apply in_or_app. right. left. reflexivity.
    + split; reflexivity.
  - destruct (names m0) as [[| c0 n0] |];
      try (apply (IH acc st H m n tstamp Hm Hn Hv Ht)).
    destruct (fst (Metrics.getMetricValue m0)) as [val | e]; [| discriminate].
    destruct (isNullish val); [apply (IH acc st H m n tstamp Hm Hn Hv Ht) |].
    destruct (Metrics.ts (timestamp m0)) as [t0 | e]; [| discriminate].
    apply (IH _ st H m n tstamp Hm Hn Hv Ht).
Qed.

Lemma stageEvent_keeps evt acc st :
  stageEvent evt acc = Ok st ->
  (forall x, In x (newMetrics acc) -> In x (newMetrics st))
  /\ (forall v, In v (metricValues acc) -> In v (metricValues st)).
Proof.
  unfold stageEvent. intros H. destruct (e_type evt).
  - destruct (Topic.deviceId (Topic.parseCertificateTopic (e_topic evt)))
      as [[| c d] |]; try (injection H as <-; auto).
    destruct (Metrics.ts (p_timestamp (e_payload evt))) as [birth | e];
      [| discriminate].
    split.
    + intros x Hx. apply (stageMetrics_keeps_registered _ _ _ _ _ _ H), Hx.
    + intros v Hv. apply (stageMetrics_keeps_values _ _ _ _ _ _ H), Hv.
  - destruct (Topic.deviceId (Topic.parseTopic (e_topic evt)))
      as [[| c d] |]; try (injection H as <-; auto).
    split.
    + intros x Hx. apply (stageMetrics_keeps_registered _ _ _ _ _ _ H), Hx.
    + intros v Hv. apply (stageMetrics_keeps_values _ _ _ _ _ _ H), Hv.
Qed.

Lemma stageBatch_keeps batch :
  forall acc st,
  stageBatch batch acc = Ok st ->
  (forall x, In x (newMetrics acc) -> In x (newMetrics st))
  /\ (forall v, In v (metricValues acc) -> In v (metricValues st)).
Proof.
  induction batch as [| evt rest IH]; intros acc st H; cbn [stageBatch] in H.
  - injection H as <-. auto.
  - destruct (stageEvent evt acc) as [acc' | e] eqn:Ee; [| discriminate].
    destruct (stageEvent_keeps _ _ _ Ee) as [H1 H2].
    destruct (IH acc' st H) as [H3 H4]. split; auto.
Qed.

(** What a batch stages for a metric of one of its definition events. *)
Lemma stageBatch_stages batch :
  forall acc st,
  stageBatch batch acc = Ok st ->
  forall evt m d n tstamp,
    In evt batch -> e_type evt = DBIRTH ->
    Topic.deviceId (Topic.parseCertificateTopic (e_topic evt)) = Some d ->
    d <> EmptyString ->
    In m (metricsOf (e_payload evt)) ->
    Metrics.resolveMetricName m = Some n ->
    valued (Metrics.resolveMetricName m) m ->
    Metrics.ts (timestamp m) = Ok tstamp ->
    In (d, n) (newMetrics st)
    /\ exists v, In v (metricValues st)
                 /\ metricId v = Repo.metricId d n /\ ts v = tstamp.
Proof.
  induction batch as [| e0 rest IH];
    intros acc st H evt m d n tstamp Hin Hty Hd Hne Hm Hn Hv Ht;
    [destruct Hin |].
  cbn [stageBatch] in H.
  destruct (stageEvent e0 acc) as [acc' | e] eqn:Ee; [| discriminate].
  destruct Hin as [-> | Hin];
    [| apply (IH acc' st H evt m d n tstamp Hin Hty Hd Hne Hm Hn Hv Ht)].
  destruct (stageBatch_keeps rest acc' st H) as [K1 K2].
  unfold stageEvent in Ee. rewrite Hty, Hd in Ee.
  destruct d as [| c d]; [congruence |].
  destruct (Metrics.ts (p_timestamp (e_payload evt))) as [birth | e];
    [| discriminate].
  split.
  - apply K1. apply (stageMetrics_registers_valued _ _ _ _ _ Ee m n Hm Hn Hv).
  - destruct (stageMetrics_stages_valued _ _ _ _ _ _ Ee m n tstamp Hm Hn Hv Ht)
      as (v & Hvin & Hid & Hts).
    exists v. split; [apply K2, Hvin | auto].
Qed.

Lemma rowsOfValues_row values :
  forall rows v t,
  rowsOfValues values = Some rows -> In v values -> ts v = Some t ->
  exists row, In row rows /\ Repo.metric_id row = metricId v
              /\ Repo.v_ts row = t.
Proof.
  induction values as [| v0 rest IH]; intros rows v t H Hv Ht; [destruct Hv |].
  cbn in H.
  destruct (ts v0) as [t0 |] eqn:E0; [| discriminate].
  destruct (rowsOfValues rest) as [rows' |]; [| discriminate].
  injection H as <-. destruct Hv as [-> | Hv].
  - eexists. split; [left; reflexivity |]. cbn. split; congruence.
  - destruct (IH rows' v t eq_refl Hv Ht) as (row & Hrow & Hr).
    exists row. split; [right; exact Hrow | exact Hr].
Qed.

Lemma insertMetricRows_In new :
  forall rows r, In r (Repo.insertMetricRows new rows) -> In r rows \/ In r new.
Proof.
  induction new as [| r0 rest IH]; intros rows r H; cbn in H; [auto |].
  destruct (IH _ r H) as [Hr | Hr]; [| right; right; exact Hr].
  destruct (Repo.hasMetric (Repo.id r0) rows); [left; exact Hr |].
  apply in_app_or in Hr. destruct Hr as [Hr | [<- | []]]; [left | right; left];
    auto.
Qed.

Lemma dedupe_In records :
  forall seen r, In r (Repo.dedupe seen records) ->
  Repo.id r = Repo.metricId (Repo.m_device_name r) (Repo.metric_name r)
  /\ In (Repo.m_device_name r, Repo.metric_name r) records.
Proof.
  induction records as [| [d0 m0] rest IH]; intros seen r H; cbn in H;
    [destruct H |].
  destruct (existsb (String.eqb (Repo.metricId d0 m0)) seen).
  - destruct (IH seen r H) as [H1 H2]. split; [exact H1 | right; exact H2].
  - destruct H as [<- | H]; [split; [reflexivity | left; reflexivity] |].
    destruct (IH _ r H) as [H1 H2]. split; [exact H1 | right; exact H2].
Qed.

End FreshDevices.

(** X21. A device whose definition was just ingested is green: after a
    committed batch of definition events, a device of the batch with a
    metric that carries a value has the status green, when the session
    reads the stamp of the value as an instant within the last day, its
    time zone keeps the order of the wall clocks, and the definitions
    stored before are keyed by device and metric. *)
Theorem fresh_definition_shows_green :
  forall (N : JsNumber) (J : Repo.Json) zone batch st f c evt m d n t now
         names,
    (forall a b, (a <= b)%Z ->
                 (Status.instantOf zone a <= Status.instantOf zone b)%Z) ->
    Forall (fun e => Ingest.e_type e = Ingest.DBIRTH) batch ->
    Ingest.stageBatch batch Ingest.noneStaged = Ok st ->
    fst (Ingest.commitBatch f st c) = Ingest.Committed ->
    wellKeyed (Repo.device_metrics (Repo.tables c)) ->
    In evt batch ->
    Topic.deviceId (Topic.parseCertificateTopic (Ingest.e_topic evt)) = Some d ->
    d <> EmptyString ->
    In m (Ingest.metricsOf (Ingest.e_payload evt)) ->
    Metrics.resolveMetricName m = Some n ->
    valued (Metrics.resolveMetricName m) m ->
    Metrics.ts (Payload.timestamp m) = Ok (Some t) ->
    (Status.daysBefore zone 1 now <= Status.instantOf zone t)%Z ->
    In d names ->
    In (d, Status.green)
      (Status.devicesStatus zone
         (Repo.tables (snd (Ingest.commitBatch f st c))) now names).
Proof.
  intros N J zone batch st f c evt m d n t now names
    Hmono Hall Hst Hc Hkeyed Hevt Hd Hne Hm Hn Hv Ht Hfresh Hname.
  assert (Hty : Ingest.e_type evt = Ingest.DBIRTH).
  { rewrite Forall_forall in Hall. apply Hall, Hevt. }
  destruct (stageBatch_stages batch _ st Hst evt m d n (Some t)
              Hevt Hty Hd Hne Hm Hn Hv Ht)
    as (Hreg & v & Hvin & Hid & Hts).
  destruct (commitBatch_committed f st c Hc) as (ds & rows & Hds & Hrows & Htab).
  destruct (rowsOfValues_row _ _ v t Hrows Hvin Hts) as (row & Hrow & Hrid & Hrts).
  destruct (fold_upsert_fields ds (Repo.tables c)) as (H1 & H2 & _ & _).
  set (t' := Repo.tables (snd (Ingest.commitBatch f st c))) in *.
  assert (Hmetrics : Repo.device_metrics t'
                     = Repo.insertMetricRows
                         (Repo.dedupe [] (Ingest.newMetrics st))
                         (Repo.device_metrics (Repo.tables c))).
  { rewrite Htab. unfold applied. cbn [Repo.device_metrics]. rewrite H1.
    reflexivity. }
  assert (Hvalues : In row (Repo.device_metric_values t')).
  { rewrite Htab. unfold applied. cbn [Repo.device_metric_values].
    apply in_or_app. right. exact Hrow. }
  assert (Hslash : noSlash d = true).
  { destruct (stageBatch_devices batch _ st Hst (d, n) Hreg) as [[] | H].
    exact H. }
  (* the definition of the metric, and its device *)
  assert (Hdef : exists r, In r (Repo.device_metrics t')
                           /\ Repo.id r = Repo.metricId d n
                           /\ Repo.m_device_name r = d).
  { destruct (dedupe_ids (Ingest.newMetrics st) []) as (_ & _ & Hin).
    destruct (Hin d n Hreg) as [[] | Hi].
    apply in_map_iff in Hi. destruct Hi as (r0 & Hr0id & Hr0).
    pose proof (insertMetricRows_has _ (Repo.device_metrics (Repo.tables c))
                  r0 Hr0) as Hhas.
    rewrite <- Hmetrics, Hr0id in Hhas.
    apply hasMetric_In, in_map_iff in Hhas.
    destruct Hhas as (r & Hrid' & Hr).
    exists r. split; [exact Hr |]. split; [exact Hrid' |].
    assert (Hk : Repo.id r = Repo.metricId (Repo.m_device_name r)
                               (Repo.metric_name r)
                 /\ noSlash (Repo.m_device_name r) = true).
    { rewrite Hmetrics in Hr. apply insertMetricRows_In in Hr.
      destruct Hr as [Hold | Hnew]; [apply Hkeyed, Hold |].
      destruct (dedupe_In _ _ _ Hnew) as [Hk1 Hk2]. split; [exact Hk1 |].
      destruct (stageBatch_devices batch _ st Hst _ Hk2) as [[] | H]. exact H. }
    destruct Hk as [Hk1 Hk2]. rewrite Hk1 in Hrid'.
    apply (metricId_injective _ _ _ _ Hk2 Hslash Hrid'). }
  destruct Hdef as (r & Hr & Hrid' & Hrdev).
  unfold Status.devicesStatus. destruct names as [| n0 rest]; [destruct Hname |].
  destruct (statusQuery_spec
              (fun i mr => String.eqb (Repo.m_device_name mr) i)
              zone t' now (n0 :: rest) d Hname)
    as (_ & last & Hlast & Hcolor).
  apply Hcolor.
  assert (Hrec : recorded (fun i mr => String.eqb (Repo.m_device_name mr) i)
                   t' d t).
  { exists r, row. split; [exact Hr |].
    split; [apply String.eqb_eq, Hrdev |].
    split; [exact Hvalues |]. split; [congruence | exact Hrts]. }
  destruct last as [u |]; cbn in Hlast.
  - destruct Hlast as [_ Hmax]. specialize (Hmax t Hrec).
    apply Hmono in Hmax. unfold Status.caseStatus.
    destruct (Z.leb_spec (Status.daysBefore zone 1 now)
                (Status.instantOf zone u)); [reflexivity | lia].
  - destruct (Hlast t Hrec).
Qed.

(** The session is two hours east of UTC and the request comes 20 hours
    after the stamp of the value. *)
Lemma fresh_definition_shows_green_witness :
  In ("dev1", Status.green)
    (Status.devicesStatus (Status.fixedOffset (2 * Status.hour))
       (Repo.tables
          (snd (Ingest.commitBatch Ingest.NoFault stagedDefinition emptyConn)))
       (1000 + 20 * Status.hour) ["dev1"; "dev2"]).
Proof.
  apply (fresh_definition_shows_green ZNumber ZJson
           (Status.fixedOffset (2 * Status.hour)) [birthOfDev1]
           stagedDefinition Ingest.NoFault emptyConn birthOfDev1
           (temperature 21) "dev1" "temperature" 1000%Z
           (1000 + 20 * Status.hour)%Z ["dev1"; "dev2"]).
  - intros a b H. cbn [Status.instantOf Status.fixedOffset]. lia.
  - repeat constructor.
  - reflexivity.
  - reflexivity.
  - intros r [].
  - left. reflexivity.
  - reflexivity.
  - discriminate.
  - right. left. reflexivity.
  - reflexivity.
  - split; [reflexivity |].
    exists (Payload.VNumber (N := ZNumber) 21%Z). split; reflexivity.
  - reflexivity.
  - cbn [Status.instantOf Status.daysBefore Status.fixedOffset].
    unfold Status.day, Status.hour. lia.
  - left. reflexivity.
Defined.


(** ** What the store holds *)

Section StoreInvariants.
Import Payload Ingest.
Context {N : JsNumber} {J : Repo.Json}.

Lemma upsertDeviceRow_NoDup d rows :
  NoDup (map Repo.device_name rows) ->
  NoDup (map Repo.device_name (Repo.upsertDeviceRow d rows)).
Proof.
  intros H. rewrite upsertDeviceRow_names.
  destruct (existsb (fun r => String.eqb (Repo.device_name r) (Repo.device_name d))
              rows) eqn:E; [exact H |].
  apply NoDup_app; [exact H | apply NoDup_cons; [intros [] | apply NoDup_nil] |].
  intros n Hn [<- | []].
  apply existsb_name_In in Hn. congruence.
Qed.

Lemma fold_upsert_NoDup ds :
  forall t,
  NoDup (map Repo.device_name (Repo.devices t)) ->
  NoDup (map Repo.device_name
           (Repo.devices (fold_left (fun t d => Repo.sqlUpsertDevice d t) ds t))).
Proof.
  induction ds as [| d rest IH]; intros t H; cbn [fold_left]; [exact H |].
  apply IH. cbn. apply upsertDeviceRow_NoDup, H.
Qed.

Lemma applied_keyed ds records rows t :
  (forall x, In x records -> noSlash (fst x) = true) ->
  storeKeyed t -> storeKeyed (applied ds records rows t).
Proof.
  intros Hrec (Hd & Hm & Hk). unfold storeKeyed, applied.
  cbn [Repo.devices Repo.device_metrics].
  destruct (fold_upsert_fields ds t) as (H1 & _).
  rewrite H1.
  split; [apply fold_upsert_NoDup, Hd |].
  split; [apply insertMetricRows_NoDup, Hm |].
  intros r Hr. apply insertMetricRows_In in Hr.
  destruct Hr as [Hold | Hnew]; [apply Hk, Hold |].
  destruct (dedupe_In _ _ _ Hnew) as [Hk1 Hk2].
  split; [exact Hk1 | apply (Hrec _ Hk2)].
Qed.

Lemma committedRows_app done more :
  committedRows (done ++ more) = committedRows done ++ committedRows more.
Proof. unfold committedRows. apply flat_map_app. Qed.

(** The batch a turn of the loop suspends with is the batch it staged. *)
Lemma drainTurn_inflight (s : State) : inflightStaged (drainTurn s).
Proof.
  unfold inflightStaged, drainTurn. intros b st.
  destruct (isEmpty (birthQueue s) && isEmpty (dataQueue s));
    [cbn; discriminate |].
  destruct (takeBatch MAX_BATCH_MESSAGES
              (if negb (isEmpty (birthQueue s)) then birthQueue s
               else dataQueue s)) as [batch remaining].
  destruct batch as [| q batch]; [cbn; discriminate |].
  unfold stagedOf.
  destruct (stageBatch (map event (q :: batch)) noneStaged) as [st' | e] eqn:E;
    cbn [inflight leaveDrain]; [| discriminate].
  intros H. injection H as <- <-. exact E.
Qed.

Lemma drainTurn_rows (s : State) :
  inflight s = None ->
  committedRows (finished (drainTurn s)) = committedRows (finished s).
Proof.
  intros Hin.
  destruct (drainTurn_outcome s Hin) as (_ & _ & _ & [[_ ->] | H]);
    [reflexivity |].
  destruct H as (q & batch & remaining & _ & _ & _ & _
                 & [(st & _ & _ & ->) | (_ & _ & ->)]); [reflexivity |].
  rewrite committedRows_app. cbn. apply app_nil_r.
Qed.

Lemma storeInv_drainTurn t0 (s : State) :
  inflight s = None -> storeInv t0 s -> storeInv t0 (drainTurn s).
Proof.
  intros Hin (Hs & _ & Hv & Hk). unfold storeInv.
  rewrite (proj1 (drainTurn_shrinks s)), (drainTurn_rows s Hin).
  split; [exact Hs |]. split; [apply drainTurn_inflight |]. auto.
Qed.

Lemma storeInv_drainQueues t0 (s : State) :
  draining s = running s -> storeInv t0 s -> storeInv t0 (drainQueues s).
Proof.
  intros Hd Hinv. unfold drainQueues.
  destruct (draining s) eqn:Ed; [exact Hinv |].
  apply storeInv_drainTurn; [| exact Hinv].
  unfold running in Hd. destruct (inflight s); [discriminate | reflexivity].
Qed.

Lemma storeInv_step t0 a (s s' : State) :
  draining s = running s -> storeInv t0 s -> step a s = Some s' ->
  storeInv t0 s'.
Proof.
  intros Hd Hinv E. destruct a as [e | | f]; cbn in E.
  - injection E as <-. unfold enqueueEvent.
    match goal with
    | |- context [if ?full then drainQueues ?p else scheduleDrain ?p] =>
        destruct full
    end.
    + apply storeInv_drainQueues; [exact Hd | exact Hinv].
    + unfold scheduleDrain. cbn [drainScheduled].
      destruct (drainScheduled s); exact Hinv.
  - destruct (timer s); [| discriminate]. injection E as <-.
    unfold timerFires. apply storeInv_drainQueues; [exact Hd | exact Hinv].
  - destruct (inflight s) as [[batch st] |] eqn:Ei; [| discriminate].
    injection E as <-. unfold transactionEnds.
    destruct Hinv as (Hs & Hst & Hv & Hk).
    pose proof (commitBatch_all_or_nothing f st (conn s) Hs) as [Hs' Hsame].
    pose proof (Hst batch st Ei) as Hstaged.
    assert (Hrec : storeInv t0
                     (recordOutcome batch (fst (commitBatch f st (conn s)))
                        (snd (commitBatch f st (conn s))) s)).
    { unfold storeInv. cbn [conn recordOutcome inflight finished].
      split; [exact Hs' |].
      split; [intros b st' H; discriminate H |].
      rewrite committedRows_app. cbn [committedRows flat_map fst snd].
      rewrite app_nil_r.
      destruct (fst (commitBatch f st (conn s))) eqn:Eo.
      - destruct (commitBatch_committed f st (conn s) Eo)
          as (ds & rows & Hds & Hrows & ->).
        split.
        + unfold applied. cbn [Repo.device_metric_values].
          destruct (fold_upsert_fields ds (Repo.tables (conn s)))
            as (_ & H2 & _).
          rewrite H2, Hv, <- app_assoc. f_equal. f_equal.
          unfold rowsOfBatch. rewrite Hstaged, Hrows. reflexivity.
        + intros H0. apply applied_keyed; [| apply Hk, H0].
          intros x Hx.
          destruct (stageBatch_devices _ _ _ Hstaged x Hx) as [[] | H].
          exact H.
      - rewrite Hsame by discriminate. rewrite app_nil_r. auto.
      - rewrite Hsame by discriminate. rewrite app_nil_r. auto. }
    destruct (commitBatch f st (conn s)) as [outcome c]. cbn [fst snd] in Hrec.
    destruct outcome;
      try (apply storeInv_drainTurn; [reflexivity | exact Hrec]).
    exact Hrec.
Qed.

Lemma storeInv_run actions :
  forall c s,
  Repo.snapshot c = None ->
  runActions actions (initial c) = Some s ->
  storeInv (Repo.tables c) s.
Proof.
  induction actions as [| a rest IH] using rev_ind; intros c s Hc Hrun.
  - cbn in Hrun. injection Hrun as <-. unfold storeInv. cbn.
    split; [exact Hc |]. split; [intros b st H; discriminate H |].
    split; [rewrite app_nil_r; reflexivity | auto].
  - destruct (runActions_snoc _ _ _ _ Hrun) as (s0 & H0 & Hs).
    assert (Hreach : reachable s0) by (exists c, rest; auto).
    destruct (reachable_fifo_lively s0 Hreach) as [_ (_ & Hd & _)].
    apply (storeInv_step _ a s0 s Hd (IH c s0 Hc H0) Hs).
Qed.

End StoreInvariants.

(** X22. The store holds exactly what was committed: after any run of the
    scheduler, the values of the store are those it started with followed
    by the value rows of the committed batches, batch after batch in the
    order of their commits; a batch that was rolled back or lost leaves
    no value, and no batch leaves its values twice. *)
Theorem stored_values_are_the_committed_batches :
  forall (N : JsNumber) (J : Repo.Json) c actions (s : Ingest.State),
    Repo.snapshot c = None ->
    Ingest.runActions actions (Ingest.initial c) = Some s ->
    Repo.device_metric_values (Repo.tables (Ingest.conn s))
    = Repo.device_metric_values (Repo.tables c)
      ++ committedRows (Ingest.finished s).
Proof.
  intros N J c actions s Hc Hrun.
  destruct (storeInv_run actions c s Hc Hrun) as (_ & _ & H & _). exact H.
Qed.

(** X23. The scheduler keeps the keys of the store: when the device names
    and the definition ids of the store are unique and every definition
    is keyed by its device and its metric, they are so after any run. *)
Theorem store_keys_are_kept :
  forall (N : JsNumber) (J : Repo.Json) c actions (s : Ingest.State),
    Repo.snapshot c = None ->
    storeKeyed (Repo.tables c) ->
    Ingest.runActions actions (Ingest.initial c) = Some s ->
    storeKeyed (Repo.tables (Ingest.conn s)).
Proof.
  intros N J c actions s Hc Hk Hrun.
  destruct (storeInv_run actions c s Hc Hrun) as (_ & _ & _ & H). exact (H Hk).
Qed.

Lemma stored_values_are_the_committed_batches_witness :
  Repo.device_metric_values (Repo.tables (Ingest.conn definitionThenUpdate))
  = Repo.device_metric_values (Repo.tables emptyConn)
    ++ committedRows (Ingest.finished definitionThenUpdate).
Proof.
  exact (stored_values_are_the_committed_batches ZNumber ZJson emptyConn
           [Ingest.Enqueue birthOfDev1; Ingest.Enqueue dataOfDev1;
            Ingest.TimerFires; Ingest.TransactionEnds Ingest.NoFault]
           definitionThenUpdate eq_refl
           (stateAfter_runs
              [Ingest.Enqueue birthOfDev1; Ingest.Enqueue dataOfDev1;
               Ingest.TimerFires; Ingest.TransactionEnds Ingest.NoFault]
              eq_refl)).
Defined.

Lemma store_keys_are_kept_witness :
  storeKeyed (Repo.tables emptyConn)
  /\ storeKeyed (Repo.tables (Ingest.conn definitionThenUpdate)).
Proof.
  assert (H : storeKeyed (Repo.tables emptyConn)).
  { split; [apply NoDup_nil |]. split; [apply NoDup_nil | intros r []]. }
  split; [exact H |].
  exact (store_keys_are_kept ZNumber ZJson emptyConn
           [Ingest.Enqueue birthOfDev1; Ingest.Enqueue dataOfDev1;
            Ingest.TimerFires; Ingest.TransactionEnds Ingest.NoFault]
           definitionThenUpdate eq_refl H
           (stateAfter_runs
              [Ingest.Enqueue birthOfDev1; Ingest.Enqueue dataOfDev1;
               Ingest.TimerFires; Ingest.TransactionEnds Ingest.NoFault]
              eq_refl)).
Defined.


(** ** The queues are drained *)

Section Progress.
Import Payload Ingest.
Context {N : JsNumber} {J : Repo.Json}.

Lemma stageBatch_stageable evs :
  Forall stageable evs -> forall acc, exists st, stageBatch evs acc = Ok st.
Proof.
  induction 1 as [| e rest He _ IH]; intros acc; cbn [stageBatch].
  - exists acc. reflexivity.
  - destruct (He acc) as [acc' ->]. apply IH.
Qed.

(** A batch is lost only to an exception of the staging loop. *)
Lemma drainTurn_lost (s : State) b :
  finished (drainTurn s) = finished s ++ [(b, Aborted)] ->
  exists e, stageBatch (map event b) noneStaged = Throw e.
Proof.
  assert (Hno : forall l : list (Batch * Outcome),
            l = l ++ [(b, Aborted)] -> False).
  { intros l H. rewrite <- (app_nil_r l) in H at 1.
    apply app_inv_head in H. discriminate H. }
  unfold drainTurn.
  destruct (isEmpty (birthQueue s) && isEmpty (dataQueue s));
    [cbn; intros H; destruct (Hno _ H) |].
  destruct (takeBatch MAX_BATCH_MESSAGES
              (if negb (isEmpty (birthQueue s)) then birthQueue s
               else dataQueue s)) as [batch remaining].
  destruct batch as [| q batch]; [cbn; intros H; destruct (Hno _ H) |].
  destruct (stageBatch (map event (q :: batch)) noneStaged) as [st' | e] eqn:E;
    cbn [finished leaveDrain]; intros H; [destruct (Hno _ H) |].
  apply app_inv_head in H. injection H as <-. exists e. exact E.
Qed.

(** A turn of the loop on events that can be staged: nothing is lost, and
    either the queues were empty and the loop ends, or a batch is taken
    and its transaction starts. *)
Lemma drainTurn_progress (s : State) :
  inflight s = None ->
  Forall stageable (map event (birthQueue s ++ dataQueue s)) ->
  timer (drainTurn s) = timer s
  /\ finished (drainTurn s) = finished s
  /\ arrived (drainTurn s) = arrived s
  /\ incl (birthQueue (drainTurn s) ++ dataQueue (drainTurn s))
       (birthQueue s ++ dataQueue s)
  /\ ((backlog s = 0 /\ backlog (drainTurn s) = 0 /\ running (drainTurn s) = false)
      \/ (backlog (drainTurn s) < backlog s /\ running (drainTurn s) = true)).
Proof.
  intros Hin Hst.
  destruct (drainTurn_outcome s Hin) as (Ht & _ & Ha & [[Hp Heq] | H]).
  - split; [exact Ht |]. rewrite Heq. cbn.
    split; [reflexivity |]. split; [reflexivity |].
    split; [apply incl_refl |]. left.
    apply pending_backlog in Hp. unfold backlog in *. cbn. auto.
  - destruct H as (q & batch & remaining & Hact & _ & Hbq & Hdq & Hcase).
    split; [exact Ht |].
    assert (Hincl : incl (birthQueue (drainTurn s) ++ dataQueue (drainTurn s))
                      (birthQueue s ++ dataQueue s)
                    /\ backlog (drainTurn s) < backlog s
                    /\ incl (q :: batch) (birthQueue s ++ dataQueue s)).
    { unfold backlog. rewrite Hbq, Hdq.
      destruct (isEmpty (birthQueue s)) eqn:Eb; cbn [negb] in *.
      - destruct (birthQueue s); [| discriminate]. cbn [app List.length].
        rewrite Hact. rewrite length_app. cbn [List.length].
        split; [| split; [lia |]].
        + intros x Hx. apply in_or_app. right. exact Hx.
        + intros x Hx. apply in_or_app. left. exact Hx.
      - rewrite Hact. rewrite !length_app. cbn [List.length].
        split; [| split; [lia |]].
        + intros x Hx. apply in_app_or in Hx.
          apply in_or_app. destruct Hx as [Hx | Hx]; [left | right; exact Hx].
          apply in_or_app. right. exact Hx.
        + intros x Hx. apply in_or_app. left. apply in_or_app. left. exact Hx. }
    destruct Hincl as (Hincl & Hless & Hbatch).
    assert (Hok : exists st, stageBatch (map event (q :: batch)) noneStaged
                             = Ok st).
    { apply stageBatch_stageable. rewrite Forall_forall in *.
      intros e He. apply in_map_iff in He. destruct He as (x & <- & Hx).
      apply Hst. apply in_map, Hbatch, Hx. }
    destruct Hcase as [(st & Hi & _ & Hf) | (Hi & _ & Hf)].
    + split; [exact Hf |]. split; [exact Ha |]. split; [exact Hincl |].
      right. split; [exact Hless |]. unfold running. rewrite Hi. reflexivity.
    + exfalso. destruct Hok as [st Hok].
      destruct (drainTurn_lost s (q :: batch) Hf) as [e He]. congruence.
Qed.

Lemma runActions_step actions a :
  forall (s0 s s' : State),
  runActions actions s0 = Some s -> step a s = Some s' ->
  runActions (actions ++ [a]) s0 = Some s'.
Proof.
  induction actions as [| b rest IH]; intros s0 s s' H E; cbn in *.
  - injection H as ->. rewrite E. reflexivity.
  - destruct (step b s0) as [s1 |]; [| discriminate].
    apply (IH s1 s s' H E).
Qed.

Lemma reachable_step a (s s' : State) :
  reachable s -> step a s = Some s' -> reachable s'.
Proof.
  intros (c & actions & Hc & Hrun) E.
  exists c, (actions ++ [a]). split; [exact Hc |].
  apply (runActions_step _ _ _ _ _ Hrun E).
Qed.

Lemma commitBatch_no_fault st c :
  isAborted (fst (commitBatch NoFault st c)) = false.
Proof.
  unfold commitBatch.
  destruct (transactionBody NoFault st (Repo.beginTransaction c)) as [[u | e] c'];
    reflexivity.
Qed.

Lemma stageable_incl (q q' : list Queued) :
  incl q' q -> Forall stageable (map event q) -> Forall stageable (map event q').
Proof.
  intros Hincl H. rewrite Forall_forall in *. intros e He.
  apply in_map_iff in He. destruct He as (x & <- & Hx).
  apply H, in_map, Hincl, Hx.
Qed.

(** The end of the running transaction, no statement refused. *)
Lemma transactionEnds_progress (s : State) b st :
  inflight s = Some (b, st) -> noAbort s = true ->
  Forall stageable (map event (birthQueue s ++ dataQueue s)) ->
  noAbort (transactionEnds NoFault b st s) = true
  /\ arrived (transactionEnds NoFault b st s) = arrived s
  /\ incl (birthQueue (transactionEnds NoFault b st s)
           ++ dataQueue (transactionEnds NoFault b st s))
       (birthQueue s ++ dataQueue s)
  /\ work (transactionEnds NoFault b st s) < work s.
Proof.
  intros Hi Hna Hst. unfold transactionEnds.
  pose proof (commitBatch_no_fault st (conn s)) as Hout.
  destruct (commitBatch NoFault st (conn s)) as [outcome c]. cbn [fst] in Hout.
  set (s1 := recordOutcome b outcome c s).
  assert (H1 : inflight s1 = None) by reflexivity.
  destruct (drainTurn_progress s1 H1 Hst) as (Ht & Hf & Ha & Hincl & Hcase).
  assert (Hgoal : noAbort (drainTurn s1) = true
                  /\ arrived (drainTurn s1) = arrived s
                  /\ incl (birthQueue (drainTurn s1) ++ dataQueue (drainTurn s1))
                       (birthQueue s ++ dataQueue s)
                  /\ work (drainTurn s1) < work s).
  { split.
    { unfold noAbort. rewrite Hf. cbn [finished s1 recordOutcome].
      rewrite forallb_app. unfold noAbort in Hna. rewrite Hna. cbn.
      rewrite Hout. reflexivity. }
    split; [exact Ha |]. split; [exact Hincl |].
    unfold work. rewrite Ht. cbn [timer s1 recordOutcome].
    replace (running s) with true by (unfold running; rewrite Hi; reflexivity).
    change (backlog s1) with (backlog s) in Hcase.
    destruct Hcase as [(H0 & H0' & Hr) | (Hless & Hr)]; rewrite Hr;
      destruct (timer s); lia. }
  destruct outcome; try exact Hgoal. discriminate Hout.
Qed.

(** The timer fires while no transaction is running. *)
Lemma timerFires_progress (s : State) :
  inflight s = None -> draining s = false -> timer s = true ->
  noAbort s = true ->
  Forall stageable (map event (birthQueue s ++ dataQueue s)) ->
  noAbort (timerFires s) = true
  /\ arrived (timerFires s) = arrived s
  /\ incl (birthQueue (timerFires s) ++ dataQueue (timerFires s))
       (birthQueue s ++ dataQueue s)
  /\ work (timerFires s) < work s.
Proof.
  intros Hi Hd Htimer Hna Hst. unfold timerFires, drainQueues.
  cbn [draining]. rewrite Hd.
  match goal with |- context [drainTurn ?x] => set (s0 := x) end.
  assert (H0 : inflight s0 = None) by exact Hi.
  destruct (drainTurn_progress s0 H0 Hst) as (Ht & Hf & Ha & Hincl & Hcase).
  split; [unfold noAbort; rewrite Hf; exact Hna |].
  split; [exact Ha |]. split; [exact Hincl |].
  unfold work. rewrite Ht. cbn [timer s0]. rewrite Htimer.
  replace (running s) with false by (unfold running; rewrite Hi; reflexivity).
  change (backlog s0) with (backlog s) in Hcase.
  destruct Hcase as [(H1 & H1' & Hr) | (Hless & Hr)]; rewrite Hr; lia.
Qed.

(** Left alone, the scheduler comes to rest with its queues empty. *)
Lemma settle_rests n :
  forall s : State,
  work s <= n -> reachable s -> noAbort s = true ->
  Forall stageable (map event (birthQueue s ++ dataQueue s)) ->
  exists fuel,
    backlog (settle fuel s) = 0
    /\ running (settle fuel s) = false
    /\ timer (settle fuel s) = false
    /\ noAbort (settle fuel s) = true
    /\ arrived (settle fuel s) = arrived s
    /\ reachable (settle fuel s).
Proof.
  induction n as [| n IH]; intros s Hwork Hreach Hna Hst;
    destruct (reachable_fifo_lively s Hreach) as [_ (_ & Hd & Hlive)];
    destruct (inflight s) as [[b st] |] eqn:Hi.
  - unfold work, running in Hwork. rewrite Hi in Hwork. lia.
  - exists 0. cbn [settle]. unfold work in Hwork.
    assert (Hr : running s = false) by (unfold running; rewrite Hi; reflexivity).
    destruct (timer s) eqn:Et; [lia |].
    repeat split; auto. lia.
  - destruct (transactionEnds_progress s b st Hi Hna Hst)
      as (Hna' & Ha & Hincl & Hless).
    assert (Hstep : step (TransactionEnds NoFault) s
                    = Some (transactionEnds NoFault b st s)).
    { cbn. rewrite Hi. reflexivity. }
    destruct (IH (transactionEnds NoFault b st s)) as (fuel & H);
      [lia | apply (reachable_step _ _ _ Hreach Hstep) | exact Hna'
       | apply (stageable_incl _ _ Hincl Hst) |].
    exists (S fuel). cbn [settle]. rewrite Hi.
    destruct H as (H1 & H2 & H3 & H4 & H5 & H6).
    repeat split; auto. congruence.
  - assert (Hr : running s = false) by (unfold running; rewrite Hi; reflexivity).
    destruct (timer s) eqn:Et.
    + assert (Hdr : draining s = false) by congruence.
      destruct (timerFires_progress s Hi Hdr Et Hna Hst)
        as (Hna' & Ha & Hincl & Hless).
      assert (Hstep : step TimerFires s = Some (timerFires s)).
      { cbn. rewrite Et. reflexivity. }
      destruct (IH (timerFires s)) as (fuel & H);
        [lia | apply (reachable_step _ _ _ Hreach Hstep) | exact Hna'
         | apply (stageable_incl _ _ Hincl Hst) |].
      exists (S fuel). cbn [settle]. rewrite Hi, Et.
      destruct H as (H1 & H2 & H3 & H4 & H5 & H6).
      repeat split; auto. congruence.
    + exists 0. cbn [settle].
      assert (Hb : backlog s = 0).
      { apply pending_backlog. destruct (pending s) eqn:Ep; [| reflexivity].
        destruct (Hlive Hna eq_refl) as [H | H]; congruence. }
      repeat split; auto.
Qed.

End Progress.

(** X24. The queues are drained: from any state the scheduler reaches
    without losing a batch, when the staging loop does not raise on the
    queued events, the scheduler left alone (the running transaction ends
    with no statement refused, the armed timer fires) comes to rest after
    finitely many steps, with both queues empty, no transaction running
    and the timer not armed, and every event that was queued is in a
    drained batch. *)
Theorem queued_events_are_drained :
  forall (N : JsNumber) (J : Repo.Json) (s : Ingest.State),
    Ingest.reachable s -> noAbort s = true ->
    Forall stageable
      (map Ingest.event (Ingest.birthQueue s ++ Ingest.dataQueue s)) ->
    exists fuel,
      Ingest.birthQueue (settle fuel s) = []
      /\ Ingest.dataQueue (settle fuel s) = []
      /\ Ingest.inflight (settle fuel s) = None
      /\ Ingest.timer (settle fuel s) = false
      /\ noAbort (settle fuel s) = true
      /\ forall q, In q (Ingest.birthQueue s ++ Ingest.dataQueue s) ->
                   In q (List.concat (batches (settle fuel s))).
Proof.
  intros N J s Hreach Hna Hst.
  destruct (settle_rests (work s) s (le_n _) Hreach Hna Hst)
    as (fuel & Hb & Hr & Ht & Hna' & Ha & Hreach').
  exists fuel.
  assert (Hbq : Ingest.birthQueue (settle fuel s) = []
                /\ Ingest.dataQueue (settle fuel s) = []).
  { unfold backlog in Hb.
    destruct (Ingest.birthQueue (settle fuel s));
      destruct (Ingest.dataQueue (settle fuel s)); cbn in Hb;
      try lia; auto. }
  destruct Hbq as [Hbq Hdq].
  split; [exact Hbq |]. split; [exact Hdq |].
  split; [unfold running in Hr;
          destruct (Ingest.inflight (settle fuel s)); [discriminate | reflexivity] |].
  split; [exact Ht |]. split; [exact Hna' |].
  destruct (reachable_fifo_lively s Hreach) as [[Fb Fd Fbq Fdq _] _].
  destruct (reachable_fifo_lively _ Hreach') as [[Fb' Fd' _ _ _] _].
  rewrite Ha, Hbq, app_nil_r in Fb'. rewrite Ha, Hdq, app_nil_r in Fd'.
  intros q Hq. apply in_app_or in Hq. destruct Hq as [Hq | Hq].
  - assert (H : In q (filter isBirthQ (tagged (Ingest.arrived s)))).
    { rewrite Fb. apply in_or_app. right. exact Hq. }
    rewrite Fb' in H. apply filter_In in H. apply H.
  - assert (H : In q (filter isDataQ (tagged (Ingest.arrived s)))).
    { rewrite Fd. apply in_or_app. right. exact Hq. }
    rewrite Fd' in H. apply filter_In in H. apply H.
Qed.

Lemma queued_events_are_drained_witness :
  noAbort bothQueued = true
  /\ exists fuel,
       Ingest.birthQueue (settle fuel bothQueued) = []
       /\ Ingest.dataQueue (settle fuel bothQueued) = []
       /\ Ingest.inflight (settle fuel bothQueued) = None
       /\ Ingest.timer (settle fuel bothQueued) = false
       /\ noAbort (settle fuel bothQueued) = true
       /\ forall q,
            In q (Ingest.birthQueue bothQueued ++ Ingest.dataQueue bothQueued) ->
            In q (List.concat (batches (settle fuel bothQueued))).
Proof.
  split; [reflexivity |].
  apply (queued_events_are_drained ZNumber ZJson bothQueued
           bothQueued_reachable eq_refl).
  apply Forall_cons; [| apply Forall_cons; [| apply Forall_nil]];
    intros acc; eexists; reflexivity.
Defined.

(** The definition and the update, queued, are both drained after the
    timer and two transactions. *)
Example both_drained_after_three_steps :
  map (map Ingest.event) (batches (settle 3 bothQueued))
  = [[birthOfDev1]; [dataOfDev1]]
  /\ Ingest.inflight (settle 3 bothQueued) = None.
Proof. split; reflexivity. Qed.


(** ** What [insertMany] returns *)

Section ReturnedDefinitions.
Import Repo Returned.

Lemma splitOn_not_nil sep s : splitOn sep s <> [].
Proof.
  destruct s as [| c r]; cbn; [discriminate |].
  destruct (Ascii.eqb c sep); [discriminate |].
  destruct (splitOn sep r); discriminate.
Qed.

Lemma splitOn_noColon s : noColon s = true -> splitOn ":" s = [s].
Proof.
  induction s as [| c r IH]; cbn; [reflexivity |].
  intros H. apply andb_prop in H. destruct H as [Hc Hr].
  apply negb_true_iff in Hc. rewrite Hc, (IH Hr). reflexivity.
Qed.

(** The first part of an id is never the name of its device. *)
Lemma first_part_not_device d :
  forall m, nth_error (splitOn ":" (metricId d m)) 0 <> Some d.
Proof.
  unfold metricId.
  induction d as [| c d IH]; intros m; cbn.
  - destruct (splitOn ":" m); cbn; discriminate.
  - destruct (Ascii.eqb c ":"); [cbn; discriminate |].
    specialize (IH m).
    destruct (splitOn ":" (d ++ String "/" m)) as [| h t] eqn:E; cbn in *.
    + destruct (splitOn_not_nil _ _ E).
    + intros H. rewrite E in IH. apply IH. congruence.
Qed.

Lemma dedupe_id_of_record records :
  forall seen r, In r (dedupe seen records) ->
  exists d m, In (d, m) records /\ id r = metricId d m
              /\ m_device_name r = d /\ metric_name r = m.
Proof.
  induction records as [| [d0 m0] rest IH]; intros seen r H; cbn in H;
    [destruct H |].
  destruct (existsb (String.eqb (metricId d0 m0)) seen).
  - destruct (IH seen r H) as (d & m & Hin & Hr).
    exists d, m. split; [right; exact Hin | exact Hr].
  - destruct H as [<- | H].
    + exists d0, m0. cbn. split; [left; reflexivity | auto].
    + destruct (IH _ r H) as (d & m & Hin & Hr).
      exists d, m. split; [right; exact Hin | exact Hr].
Qed.

End ReturnedDefinitions.

(** X25. [insertMany] splits the ids at a colon although [metricId] joins
    them with a slash: every record it returns has the id of a record of
    the call, and its [deviceName] is never the device name that id was
    made of; when neither name holds a colon the returned record carries
    the whole id as [deviceName] and no [metricName]. *)
Theorem insertMany_returns_split_ids :
  forall (records : list (string * string)) (x : Returned.DeviceMetric),
    In x (Returned.insertManyReturns records) ->
    exists d m,
      In (d, m) records
      /\ Returned.dm_id x = Repo.metricId d m
      /\ Returned.deviceName x <> Some d
      /\ (noColon d = true -> noColon m = true ->
          Returned.deviceName x = Some (Repo.metricId d m)
          /\ Returned.metricName x = None).
Proof.
  intros records x Hx. unfold Returned.insertManyReturns in Hx.
  apply in_map_iff in Hx. destruct Hx as (r & <- & Hr).
  destruct (dedupe_id_of_record _ _ _ Hr) as (d & m & Hin & Hid & _ & _).
  exists d, m. split; [exact Hin |]. rewrite Hid.
  split; [reflexivity |]. split.
  - unfold Returned.ofId. cbn [Returned.deviceName].
    pose proof (first_part_not_device d m) as Hne.
    destruct (Returned.splitOn ":" (Repo.metricId d m)) as [| h [| h2 t]];
      cbn in *; exact Hne.
  - intros Hd Hm.
    assert (Hnc : noColon (Repo.metricId d m) = true).
    { unfold Repo.metricId. clear -Hd Hm.
      induction d as [| c d IH]; cbn in *; [exact Hm |].
      apply andb_prop in Hd. destruct Hd as [Hc Hd].
      rewrite Hc. cbn. apply IH, Hd. }
    unfold Returned.ofId. rewrite (splitOn_noColon _ Hnc). split; reflexivity.
Qed.

Lemma insertMany_returns_split_ids_witness :
  In {| Returned.dm_id := "dev1/temperature";
        Returned.deviceName := Some "dev1/temperature";
        Returned.metricName := None |}
    (Returned.insertManyReturns [("dev1", "temperature")])
  /\ exists d m,
       In (d, m) [("dev1", "temperature")]
       /\ "dev1/temperature" = Repo.metricId d m
       /\ Some "dev1/temperature" <> Some d
       /\ (noColon d = true -> noColon m = true ->
           Some "dev1/temperature" = Some (Repo.metricId d m)
           /\ @None string = None).
Proof.
  assert (H : In {| Returned.dm_id := "dev1/temperature";
                    Returned.deviceName := Some "dev1/temperature";
                    Returned.metricName := None |}
                (Returned.insertManyReturns [("dev1", "temperature")])).
  { left. reflexivity. }
  split; [exact H |].
  exact (insertMany_returns_split_ids [("dev1", "temperature")] _ H).
Defined.

